(** * Miva LMS automation: the orchestration core

    A shallow embedding of [miva_automation_ultimate.py]: the progress
    ledger ([ProgressManager]), the course prioritizer, the retry controller
    ([process_activity_with_retry]), the batch scheduler
    ([process_activities_parallel]) and the per-course driver
    ([process_course]).

    Conventions of the embedding:
    - Python dicts keyed by course id are [gmap string _]; Python lists are
      lists; a dict with a fixed set of keys is a record.
    - Methods that mutate [self] take the manager and return the new one
      (explicit state passing).  A method that returns a reference into the
      ledger (the dict returned by [get_course_progress]) is modelled by the
      course id under which the record lives: writes through the reference
      are writes at that key.  No record is ever removed or replaced in the
      courses map, so such a reference stays valid.
    - The module globals [progress] and [stats] are fields of the run state
      [World], together with a clock ([datetime.now()] reads it, every
      awaited call advances it) and the trace of the calls issued on the
      browser.
    - What the browser answers is an input: the record [Browser].  In the
      activity processors the only call that raises is [page.goto]
      ([human_scroll], [mark_complete] and the new-tab detection swallow
      their exceptions), so the outcome of an attempt is the outcome of its
      navigation.  Opening and closing a page and writing the ledger file
      are taken to succeed.
    - [asyncio.gather] runs its tasks on one thread, each from one awaited
      call to the next; the order of the resumptions is an input too.
    - The float quotient [len(..) / total * 100] is the exact rational
      quotient; the code compares it with 0, with 100 and with other such
      quotients only.
    - A Python [str] is held as the string of the bytes of its UTF-8
      encoding, which is what a string literal of this file is and what the
      ledger file holds.  [in], [startswith], [split] at an ASCII separator
      and [+] are the same operations on the encodings; [strip] decodes the
      characters at both ends and removes the white space of [str.isspace],
      inside and outside ASCII.
    - Console output ([log]) is left out. *)

From Stdlib Require Import QArith Qround Ascii String.
From stdpp Require Import gmap strings list fin_maps sorting pretty.
Close Scope Q_scope.

(** ** Exceptions and results *)

Inductive Exn :=
| JSONDecodeError
| ValueError
| BrowserError (msg : string).

Inductive result (A : Type) :=
| Ok (a : A)
| Raise (e : Exn).
Arguments Ok {A} a.
Arguments Raise {A} e.

(** ** The persisted document *)

Definition timestamp := nat.

Inductive Status := not_started | in_progress | completed.

Record Failure := {
  f_url : string;
  f_error : string;
  f_timestamp : timestamp
}.

(** [total_activities] is only ever assigned a [len(...)]. *)
Record CourseProgress := {
  cp_name : string;
  cp_status : Status;
  completed_activities : list string;
  failed_activities : list Failure;
  total_activities : nat;
  last_activity_index : nat
}.

Record GlobalStats := {
  total_completed : nat;
  total_skipped : nat;
  total_failed : nat
}.

Record ProgressData := {
  last_run : option timestamp;
  courses : gmap string CourseProgress;
  global_stats : GlobalStats
}.

(** What [json.load] makes of the text of the backing file: either the
    document it encodes, or [JSONDecodeError] (text that is not a JSON
    document; the zero-byte file is such a text). *)
Inductive FileContents :=
| Document (d : ProgressData)
| Unparseable.

(** [self.data] together with the file at [self.filepath]; [None] is a path
    that does not exist. *)
Record ProgressManager := {
  data : ProgressData;
  file : option FileContents
}.

(** The dict literal of [load]. *)
Definition default_data : ProgressData :=
  {| last_run := None;
     courses := ∅;
     global_stats := {| total_completed := 0; total_skipped := 0; total_failed := 0 |} |}.

(** The dict literal of [get_course_progress]. *)
Definition default_course : CourseProgress :=
  {| cp_name := "";
     cp_status := not_started;
     completed_activities := [];
     failed_activities := [];
     total_activities := 0;
     last_activity_index := 0 |}.

(** ** ProgressManager *)

Definition load (f : option FileContents) : result ProgressData :=
  match f with
  | Some (Document d) => Ok d
  | Some Unparseable => Raise JSONDecodeError
  | None => Ok default_data
  end.

(** [ProgressManager.__init__] *)
Definition ProgressManager_init (f : option FileContents) : result ProgressManager :=
  match load f with
  | Ok d => Ok {| data := d; file := f |}
  | Raise e => Raise e
  end.

Definition set_courses (m : gmap string CourseProgress) (d : ProgressData) : ProgressData :=
  {| last_run := last_run d; courses := m; global_stats := global_stats d |}.

Definition save (now : timestamp) (pm : ProgressManager) : ProgressManager :=
  let d := {| last_run := Some now;
              courses := courses (data pm);
              global_stats := global_stats (data pm) |} in
  {| data := d; file := Some (Document d) |}.

(** The first half of [get_course_progress]: the insertion of the default
    record under an absent id. *)
Definition ensure_course (course_id : string) (pm : ProgressManager) : ProgressManager :=
  match courses (data pm) !! course_id with
  | Some _ => pm
  | None =>
      {| data := set_courses (<[course_id := default_course]> (courses (data pm))) (data pm);
         file := file pm |}
  end.

(** The record [get_course_progress] returns, as a value. *)
Definition course_of (course_id : string) (pm : ProgressManager) : CourseProgress :=
  default (default_course) (courses (data pm) !! course_id).

Definition get_course_progress (course_id : string) (pm : ProgressManager)
  : CourseProgress * ProgressManager :=
  let pm' := ensure_course course_id pm in
  (course_of course_id pm', pm').

(** A write through the reference returned by [get_course_progress]. *)
Definition update_course (course_id : string) (f : CourseProgress → CourseProgress)
    (pm : ProgressManager) : ProgressManager :=
  {| data := set_courses (alter f course_id (courses (data pm))) (data pm);
     file := file pm |}.

Definition append_completed (activity_url : string) (c : CourseProgress) : CourseProgress :=
  {| cp_name := cp_name c;
     cp_status := cp_status c;
     completed_activities := completed_activities c ++ [activity_url];
     failed_activities := failed_activities c;
     total_activities := total_activities c;
     last_activity_index := last_activity_index c |}.

Definition append_failed (failure : Failure) (c : CourseProgress) : CourseProgress :=
  {| cp_name := cp_name c;
     cp_status := cp_status c;
     completed_activities := completed_activities c;
     failed_activities := failed_activities c ++ [failure];
     total_activities := total_activities c;
     last_activity_index := last_activity_index c |}.

Definition set_name (n : string) (c : CourseProgress) : CourseProgress :=
  {| cp_name := n;
     cp_status := cp_status c;
     completed_activities := completed_activities c;
     failed_activities := failed_activities c;
     total_activities := total_activities c;
     last_activity_index := last_activity_index c |}.

Definition set_total_activities (n : nat) (c : CourseProgress) : CourseProgress :=
  {| cp_name := cp_name c;
     cp_status := cp_status c;
     completed_activities := completed_activities c;
     failed_activities := failed_activities c;
     total_activities := n;
     last_activity_index := last_activity_index c |}.

Definition set_status (s : Status) (c : CourseProgress) : CourseProgress :=
  {| cp_name := cp_name c;
     cp_status := s;
     completed_activities := completed_activities c;
     failed_activities := failed_activities c;
     total_activities := total_activities c;
     last_activity_index := last_activity_index c |}.

(** [x in l] on a list of strings. *)
Definition str_in (x : string) (l : list string) : bool := bool_decide (x ∈ l).

Definition mark_activity_completed (now : timestamp) (course_id activity_url : string)
    (pm : ProgressManager) : ProgressManager :=
  let '(course, pm1) := get_course_progress course_id pm in
  let pm2 :=
    if negb (str_in activity_url (completed_activities course))
    then update_course course_id (append_completed activity_url) pm1
    else pm1 in
  save now pm2.

Definition mark_activity_failed (now : timestamp) (course_id activity_url error : string)
    (pm : ProgressManager) : ProgressManager :=
  let '(course, pm1) := get_course_progress course_id pm in
  let failure := {| f_url := activity_url; f_error := error; f_timestamp := now |} in
  save now (update_course course_id (append_failed failure) pm1).

Definition is_activity_completed (course_id activity_url : string) (pm : ProgressManager)
  : bool * ProgressManager :=
  let '(course, pm1) := get_course_progress course_id pm in
  (str_in activity_url (completed_activities course), pm1).

(** [len(completed) / total * 100] *)
Definition percent (done total : nat) : Q :=
  (inject_Z (Z.of_nat done) / inject_Z (Z.of_nat total) * 100)%Q.

Definition get_course_completion_percent (course_id : string) (pm : ProgressManager)
  : Q * ProgressManager :=
  let '(course, pm1) := get_course_progress course_id pm in
  if (total_activities course =? 0)%nat
  then (0%Q, pm1)
  else (percent (length (completed_activities course)) (total_activities course), pm1).

(** ** Course prioritizer *)

(** A course dict as [discover_courses] builds it, with the two keys
    [prioritize_courses] adds to it ([None]: the key is absent). *)
Record Course := {
  course_name : string;
  course_url : string;
  course_id : string;
  _priority : option nat;
  _completion : option Q
}.

Definition set_priority (p : nat) (c : Q) (course : Course) : Course :=
  {| course_name := course_name course;
     course_url := course_url course;
     course_id := course_id course;
     _priority := Some p;
     _completion := Some c |}.

Definition Qltb (x y : Q) : bool :=
  match (x ?= y)%Q with Lt => true | _ => false end.

Definition Qleb (x y : Q) : bool :=
  match (x ?= y)%Q with Gt => false | _ => true end.

(** The body of the [for course in courses] loop. *)
Definition assign_priority (course : Course) (pm : ProgressManager)
  : Course * ProgressManager :=
  let '(completion, pm1) := get_course_completion_percent (course_id course) pm in
  if Qleb 100 completion then (set_priority 3 completion course, pm1)
  else if Qltb 0 completion then (set_priority 1 completion course, pm1)
  else (set_priority 2 0%Q course, pm1).

Fixpoint assign_priorities (courses : list Course) (pm : ProgressManager)
  : list Course * ProgressManager :=
  match courses with
  | [] => ([], pm)
  | course :: rest =>
      let '(course', pm1) := assign_priority course pm in
      let '(rest', pm2) := assign_priorities rest pm1 in
      (course' :: rest', pm2)
  end.

(** The sort key [(c["_priority"], -c["_completion"])]; both keys have been
    set on every course of the list by the loop that precedes the sort. *)
Definition sort_key (c : Course) : nat * Q :=
  (default 0 (_priority c), (- default 0%Q (_completion c))%Q).

(** Python's [<] on two such tuples: the first components that differ
    decide. *)
Definition key_lt (k1 k2 : nat * Q) : bool :=
  if (k1.1 =? k2.1)%nat
  then (if Qeq_bool k1.2 k2.2 then false else Qltb k1.2 k2.2)
  else (k1.1 <? k2.1)%nat.

(** [sorted(l, key=key)]: a stable sort that compares keys with [<] only.
    An element is inserted in front of the sorted rest of the list, and
    moves behind exactly those elements whose key is strictly smaller. *)
Section Sorted.
Context {A K : Type} (key : A → K) (lt : K → K → bool).

Fixpoint sorted_insert (x : A) (l : list A) : list A :=
  match l with
  | [] => [x]
  | y :: l' => if lt (key y) (key x) then y :: sorted_insert x l' else x :: y :: l'
  end.

Fixpoint sorted (l : list A) : list A :=
  match l with
  | [] => []
  | x :: l' => sorted_insert x (sorted l')
  end.

(** [x] may stand before [y]: the key of [y] is not smaller. *)
Definition key_le (x y : A) : Prop := lt (key y) (key x) = false.
End Sorted.

Definition prioritize_courses (courses : list Course) (pm : ProgressManager)
  : list Course * ProgressManager :=
  let '(courses', pm1) := assign_priorities courses pm in
  (sorted sort_key key_lt courses', pm1).

(** ** Configuration *)

(** The entries of [CONFIG] that the modelled functions read. *)
Record Config := {
  base_url : string;
  parallel_tabs : nat;
  max_retries : nat;
  skip_patterns : list string
}.

Definition CONFIG : Config :=
  {| base_url := "https://lms.miva.university";
     parallel_tabs := 4;
     max_retries := 3;
     skip_patterns := ["/mod/quiz/"; "/mod/assign/"] |}.

(** ** Python string operations *)

(** [s.startswith(p)] *)
Fixpoint startswith (p s : string) : bool :=
  match p, s with
  | EmptyString, _ => true
  | String a p', String b s' => if Ascii.eqb a b then startswith p' s' else false
  | String _ _, EmptyString => false
  end.

(** [p in s] *)
Fixpoint contains (p s : string) : bool :=
  if startswith p s then true
  else match s with
       | EmptyString => false
       | String _ s' => contains p s'
       end.

(** [s.split(sep)] for a one-character separator. *)
Fixpoint split (sep : ascii) (s : string) : list string :=
  match s with
  | EmptyString => [EmptyString]
  | String a s' =>
      if Ascii.eqb a sep then EmptyString :: split sep s'
      else match split sep s' with
           | [] => [String a EmptyString]
           | w :: ws => String a w :: ws
           end
  end.

(** The code points for which [str.isspace] holds of a one-character
    string; [str.strip] removes exactly these. *)
Definition whitespace : list N :=
  [9; 10; 11; 12; 13; 28; 29; 30; 31; 32; 133; 160; 5760;
   8192; 8193; 8194; 8195; 8196; 8197; 8198; 8199; 8200; 8201; 8202;
   8232; 8233; 8239; 8287; 12288]%N.

Definition is_space (c : N) : bool := existsb (N.eqb c) whitespace.

(** The character that a text starts with, when its encoding takes one,
    two or three bytes (no character of four bytes is white space). *)
Definition continuation (a : ascii) : bool :=
  let n := N_of_ascii a in ((128 <=? n) && (n <=? 191))%N.

Definition char_1 (a : ascii) : option N :=
  let n := N_of_ascii a in if (n <? 128)%N then Some n else None.

Definition char_2 (a b : ascii) : option N :=
  let n := N_of_ascii a in
  if ((194 <=? n) && (n <=? 223))%N && continuation b
  then Some ((n - 192) * 64 + (N_of_ascii b - 128))%N
  else None.

Definition char_3 (a b c : ascii) : option N :=
  let n := N_of_ascii a in
  if ((224 <=? n) && (n <=? 239))%N && continuation b && continuation c
  then
    let cp := ((n - 224) * 4096 + (N_of_ascii b - 128) * 64 + (N_of_ascii c - 128))%N in
    if (2048 <=? cp)%N then Some cp else None
  else None.

Definition is_space_char (c : option N) : bool :=
  match c with
  | Some c => is_space c
  | None => false
  end.

(** [s.lstrip()]: the white space characters at the start are dropped. *)
Fixpoint lstrip (s : string) : string :=
  match s with
  | EmptyString => EmptyString
  | String a s1 =>
      if is_space_char (char_1 a) then lstrip s1
      else
        match s1 with
        | EmptyString => s
        | String b s2 =>
            if is_space_char (char_2 a b) then lstrip s2
            else
              match s2 with
              | EmptyString => s
              | String c s3 => if is_space_char (char_3 a b c) then lstrip s3 else s
              end
        end
  end.

(** [s.rstrip()]: the text is kept up to its last character that is not
    white space; what follows a byte is dropped when it is white space
    only. *)
Fixpoint rstrip (s : string) : string :=
  match s with
  | EmptyString => EmptyString
  | String a s' =>
      match lstrip s with
      | EmptyString => EmptyString
      | _ => String a (rstrip s')
      end
  end.

(** [s.strip()] *)
Definition strip (s : string) : string := rstrip (lstrip s).

Definition lower_ascii (a : ascii) : ascii :=
  let n := nat_of_ascii a in
  if (65 <=? n) && (n <=? 90) then ascii_of_nat (n + 32) else a.

(** [s.lower()] on the letters of ASCII.  The result is only searched for
    "quiz" and "assign"; the lowering of a letter outside ASCII yields no
    run of ASCII letters that could make up either. *)
Fixpoint lower (s : string) : string :=
  match s with
  | EmptyString => EmptyString
  | String a s' => String (lower_ascii a) (lower s')
  end.

(** ** Activity discovery *)

Record Activity := {
  a_name : string;
  a_url : string;
  a_type : string;
  should_skip : bool;
  is_completed : bool
}.

(** An element handle of the page: what [get_attribute("href")] and
    [inner_text()] answer on it. *)
Record Element := {
  get_attribute_href : result (option string);
  inner_text : result string
}.

Definition type_patterns : list string :=
  ["/mod/page/"; "/mod/url/"; "/mod/quiz/"; "/mod/assign/"; "/mod/forum/"; "/mod/book/"].

(** The [for pattern in [...]] loop with its [break]. *)
Fixpoint activity_type_of (patterns : list string) (href : string) : string :=
  match patterns with
  | [] => "unknown"
  | pattern :: rest =>
      if contains pattern href
      then default "" (split "/" pattern !! 2)
      else activity_type_of rest href
  end.

(** [href if href.startswith("http") else CONFIG["base_url"] + href] *)
Definition absolute_url (cfg : Config) (href : string) : string :=
  if startswith "http" href then href else base_url cfg +:+ href.

(** The [for element in activity_elements] loop of [discover_activities];
    an exception inside the body skips to the next element. *)
Fixpoint discover_loop (cfg : Config) (course_id : string) (elements : list Element)
    (seen_urls : gset string) (pm : ProgressManager) : list Activity * ProgressManager :=
  match elements with
  | [] => ([], pm)
  | element :: rest =>
      match get_attribute_href element with
      | Raise _ => discover_loop cfg course_id rest seen_urls pm
      | Ok None => discover_loop cfg course_id rest seen_urls pm
      | Ok (Some href) =>
          if bool_decide (href = "") || bool_decide (href ∈ seen_urls)
             || negb (contains "/mod/" href)
          then discover_loop cfg course_id rest seen_urls pm
          else
            let seen_urls := {[ href ]} ∪ seen_urls in
            match inner_text element with
            | Raise _ => discover_loop cfg course_id rest seen_urls pm
            | Ok text =>
                let name := strip text in
                if bool_decide (name = "")
                then discover_loop cfg course_id rest seen_urls pm
                else
                  let activity_type := activity_type_of type_patterns href in
                  let skip := existsb (λ pattern, contains pattern href) (skip_patterns cfg) in
                  let '(done, pm1) := is_activity_completed course_id href pm in
                  let activity :=
                    {| a_name := name;
                       a_url := absolute_url cfg href;
                       a_type := activity_type;
                       should_skip := skip;
                       is_completed := done |} in
                  let '(activities, pm2) := discover_loop cfg course_id rest seen_urls pm1 in
                  (activity :: activities, pm2)
            end
      end
  end.

(** [discover_activities]: [located] is the answer of
    [page.locator('a[href*="/mod/"]').all()]; if that call raises, the
    function returns the empty list. *)
Definition discover_activities (cfg : Config) (located : result (list Element))
    (course_id : string) (pm : ProgressManager) : list Activity * ProgressManager :=
  match located with
  | Raise _ => ([], pm)
  | Ok elements => discover_loop cfg course_id elements ∅ pm
  end.

(** ** Statistics *)

Record CompletedEntry := {
  ce_course : string;
  ce_activity : string;
  ce_type : string;
  ce_timestamp : timestamp
}.

Record Statistics := {
  courses_processed : nat;
  activities_completed : nat;
  activities_skipped : nat;
  activities_failed : nat;
  quizzes_found : list (string * string);
  assignments_found : list (string * string);
  errors : list (string * timestamp);
  stats_completed_activities : list CompletedEntry
}.

(** [Statistics.__init__] *)
Definition Statistics_init : Statistics :=
  {| courses_processed := 0;
     activities_completed := 0;
     activities_skipped := 0;
     activities_failed := 0;
     quizzes_found := [];
     assignments_found := [];
     errors := [];
     stats_completed_activities := [] |}.

Definition log_completed (now : timestamp) (course_name activity_name activity_type : string)
    (s : Statistics) : Statistics :=
  {| courses_processed := courses_processed s;
     activities_completed := activities_completed s + 1;
     activities_skipped := activities_skipped s;
     activities_failed := activities_failed s;
     quizzes_found := quizzes_found s;
     assignments_found := assignments_found s;
     errors := errors s;
     stats_completed_activities :=
       stats_completed_activities s ++
       [ {| ce_course := course_name; ce_activity := activity_name;
            ce_type := activity_type; ce_timestamp := now |} ] |}.

Definition log_skipped (course_name activity_name activity_type : string)
    (s : Statistics) : Statistics :=
  {| courses_processed := courses_processed s;
     activities_completed := activities_completed s;
     activities_skipped := activities_skipped s + 1;
     activities_failed := activities_failed s;
     quizzes_found :=
       if contains "quiz" (lower activity_type)
       then quizzes_found s ++ [(course_name, activity_name)]
       else quizzes_found s;
     assignments_found :=
       if contains "quiz" (lower activity_type) then assignments_found s
       else if contains "assign" (lower activity_type)
            then assignments_found s ++ [(course_name, activity_name)]
            else assignments_found s;
     errors := errors s;
     stats_completed_activities := stats_completed_activities s |}.

Definition log_error (now : timestamp) (message : string) (s : Statistics) : Statistics :=
  {| courses_processed := courses_processed s;
     activities_completed := activities_completed s;
     activities_skipped := activities_skipped s;
     activities_failed := activities_failed s + 1;
     quizzes_found := quizzes_found s;
     assignments_found := assignments_found s;
     errors := errors s ++ [(message, now)];
     stats_completed_activities := stats_completed_activities s |}.

Definition incr_courses_processed (s : Statistics) : Statistics :=
  {| courses_processed := courses_processed s + 1;
     activities_completed := activities_completed s;
     activities_skipped := activities_skipped s;
     activities_failed := activities_failed s;
     quizzes_found := quizzes_found s;
     assignments_found := assignments_found s;
     errors := errors s;
     stats_completed_activities := stats_completed_activities s |}.

(** ** The run state and the browser *)

(** Calls on the browser capability and the timed pauses, in the order in
    which they are issued.  A page (tab) is the number under which
    [context.new_page()] handed it out.  [Start] and [Done] mark the entry
    into and the return from a task given to [asyncio.gather]. *)
Inductive Event :=
| NewPage (page : nat)
| ClosePage (page : nat)
| Goto (page : nat) (url : string)
| RetrySleep (page : nat)
| Screenshot (page : nat) (name : string)
| Start (page : nat) (url : string)
| Done (page : nat) (r : bool)
| BatchDelay
| CourseDelay.

(** The module globals [progress] and [stats], the clock, the page counter
    of the browser context and the calls issued so far. *)
Record World := {
  progress : ProgressManager;
  stats : Statistics;
  clock : timestamp;
  next_page : nat;
  trace : list Event
}.

(** What lies outside the program: the outcome of [page.goto(url)] at a
    given time ([None]: it returns; [Some msg]: it raises with that
    message), the elements the activity locator finds on a course page,
    and, for the k-th [asyncio.gather] of a course, the order in which the
    event loop resumes the gathered tasks. *)
Record Browser := {
  navigate : string → timestamp → option string;
  locate_activities : string → result (list Element);
  schedule : nat → list nat
}.

Definition with_progress (pm : ProgressManager) (w : World) : World :=
  {| progress := pm; stats := stats w; clock := clock w;
     next_page := next_page w; trace := trace w |}.

Definition with_stats (s : Statistics) (w : World) : World :=
  {| progress := progress w; stats := s; clock := clock w;
     next_page := next_page w; trace := trace w |}.

(** A marker in the trace; no time passes. *)
Definition emit (e : Event) (w : World) : World :=
  {| progress := progress w; stats := stats w; clock := clock w;
     next_page := next_page w; trace := trace w ++ [e] |}.

(** An awaited call: it is recorded and the clock moves on. *)
Definition await (e : Event) (w : World) : World :=
  {| progress := progress w; stats := stats w; clock := S (clock w);
     next_page := next_page w; trace := trace w ++ [e] |}.

(** [context.new_page()] *)
Definition new_page (w : World) : nat * World :=
  (next_page w,
   {| progress := progress w; stats := stats w; clock := S (clock w);
      next_page := S (next_page w); trace := trace w ++ [NewPage (next_page w)] |}).

(** ** Activity processors *)

(** The part of [process_page], [process_url] and [process_forum] after a
    successful visit: [stats.log_completed] and
    [progress.mark_activity_completed]. *)
Definition record_completed (kind : string) (activity : Activity)
    (course_name course_id : string) (w : World) : World :=
  let w1 := with_stats (log_completed (clock w) course_name (a_name activity) kind (stats w)) w in
  with_progress (mark_activity_completed (clock w1) course_id (a_url activity) (progress w1)) w1.

(** The three processors share one shape: navigate, view, mark, record;
    an exception of the navigation is re-raised with the processor's
    prefix.  The result is [None] on return and the message of the raised
    exception otherwise.  [resume_kind] is the processor from the point
    where the awaited [page.goto] answers. *)
Definition resume_kind (kind prefix : string) (b : Browser) (activity : Activity)
    (course_name course_id : string) (w : World) : option string * World :=
  match navigate b (a_url activity) (clock w) with
  | Some e => (Some (prefix +:+ e), w)
  | None => (None, record_completed kind activity course_name course_id w)
  end.

Definition process_kind (kind prefix : string) (b : Browser) (page : nat) (activity : Activity)
    (course_name course_id : string) (w : World) : option string * World :=
  resume_kind kind prefix b activity course_name course_id (await (Goto page (a_url activity)) w).

Definition process_page := process_kind "page" "Page error: ".
Definition process_url := process_kind "url" "URL error: ".
Definition process_forum := process_kind "forum" "Forum error: ".

(** The [if]/[elif] chain inside the [try] of the retry loop. *)
Definition dispatch (b : Browser) (page : nat) (activity : Activity)
    (course_name course_id : string) (w : World) : option string * World :=
  if bool_decide (a_type activity = "page") then process_page b page activity course_name course_id w
  else if bool_decide (a_type activity = "url") then process_url b page activity course_name course_id w
  else if bool_decide (a_type activity = "forum") then process_forum b page activity course_name course_id w
  else process_page b page activity course_name course_id w.

(** The [else] branch of the [except]: the attempts are used up. *)
Definition record_failure (page : nat) (activity : Activity) (course_name course_id e : string)
    (w : World) : World :=
  let error_msg := a_type activity +:+ " error in " +:+ course_name +:+ ": " +:+ a_name activity in
  let w1 := with_stats (log_error (clock w) error_msg (stats w)) w in
  let w2 := with_progress (mark_activity_failed (clock w1) course_id (a_url activity) e (progress w1)) w1 in
  await (Screenshot page ("error_" +:+ course_id +:+ "_" +:+ a_type activity)) w2.

(** [for attempt in range(1, max_retries + 1)], from [attempt] on, with
    [remaining] iterations left; falling out of the loop returns [False]. *)
Fixpoint retry_loop (cfg : Config) (b : Browser) (page : nat) (activity : Activity)
    (course_name course_id : string) (remaining attempt : nat) (w : World) : bool * World :=
  match remaining with
  | 0 => (false, w)
  | S remaining' =>
      match dispatch b page activity course_name course_id w with
      | (None, w1) => (true, w1)
      | (Some e, w1) =>
          if attempt <? max_retries cfg
          then retry_loop cfg b page activity course_name course_id remaining' (S attempt)
                 (await (RetrySleep page) w1)
          else (false, record_failure page activity course_name course_id e w1)
      end
  end.

Definition process_activity_with_retry (cfg : Config) (b : Browser) (page : nat)
    (activity : Activity) (course_name course_id : string) (w : World) : bool * World :=
  if is_completed activity then (true, w)
  else if should_skip activity then
    if contains "quiz" (a_type activity)
    then (true, with_stats (log_skipped course_name (a_name activity) "quiz" (stats w)) w)
    else if contains "assign" (a_type activity)
         then (true, with_stats (log_skipped course_name (a_name activity) "assignment" (stats w)) w)
         else (true, w)
  else retry_loop cfg b page activity course_name course_id (max_retries cfg) 1 w.

(** ** Tasks under [asyncio.gather]

    The event loop is single-threaded and cooperative: a task runs until
    its next awaited browser call or pause and is resumed later.  A task of
    [process_activity_with_retry] is therefore a small machine whose states
    are its suspension points. *)

Inductive TaskState :=
| Created
| InAttempt (attempt : nat)
| InRetrySleep (attempt : nat)
| InScreenshot
| Returned (r : bool).

Record Task := {
  t_page : nat;
  t_activity : Activity;
  t_state : TaskState
}.

(** The chain of [dispatch], entered where the awaited [page.goto] answers. *)
Definition resume_dispatch (b : Browser) (activity : Activity)
    (course_name course_id : string) (w : World) : option string * World :=
  if bool_decide (a_type activity = "page")
  then resume_kind "page" "Page error: " b activity course_name course_id w
  else if bool_decide (a_type activity = "url")
  then resume_kind "url" "URL error: " b activity course_name course_id w
  else if bool_decide (a_type activity = "forum")
  then resume_kind "forum" "Forum error: " b activity course_name course_id w
  else resume_kind "page" "Page error: " b activity course_name course_id w.

(** One resumption of a task: from a suspension point to the next. *)
Definition task_step (cfg : Config) (b : Browser) (course_name course_id : string)
    (page : nat) (activity : Activity) (st : TaskState) (w : World) : TaskState * World :=
  match st with
  | Created =>
      let w0 := emit (Start page (a_url activity)) w in
      if is_completed activity || should_skip activity || (max_retries cfg =? 0)
      then
        let '(r, w1) := process_activity_with_retry cfg b page activity course_name course_id w0 in
        (Returned r, emit (Done page r) w1)
      else (InAttempt 1, await (Goto page (a_url activity)) w0)
  | InAttempt attempt =>
      match resume_dispatch b activity course_name course_id w with
      | (None, w1) => (Returned true, emit (Done page true) w1)
      | (Some e, w1) =>
          if attempt <? max_retries cfg
          then (InRetrySleep attempt, await (RetrySleep page) w1)
          else (InScreenshot, record_failure page activity course_name course_id e w1)
      end
  | InRetrySleep attempt => (InAttempt (S attempt), await (Goto page (a_url activity)) w)
  | InScreenshot => (Returned false, emit (Done page false) w)
  | Returned r => (Returned r, w)
  end.

Definition step_task (cfg : Config) (b : Browser) (course_name course_id : string)
    (t : Task) (w : World) : Task * World :=
  let '(st, w1) := task_step cfg b course_name course_id (t_page t) (t_activity t) (t_state t) w in
  ({| t_page := t_page t; t_activity := t_activity t; t_state := st |}, w1).

(** Resume the [i]-th task of the batch, if there is one. *)
Definition step_nth (cfg : Config) (b : Browser) (course_name course_id : string)
    (i : nat) (tasks : list Task) (w : World) : list Task * World :=
  match tasks !! i with
  | Some t =>
      let '(t', w1) := step_task cfg b course_name course_id t w in
      (<[i := t']> tasks, w1)
  | None => (tasks, w)
  end.

Fixpoint run_schedule (cfg : Config) (b : Browser) (course_name course_id : string)
    (sched : list nat) (tasks : list Task) (w : World) : list Task * World :=
  match sched with
  | [] => (tasks, w)
  | i :: sched' =>
      let '(tasks1, w1) := step_nth cfg b course_name course_id i tasks w in
      run_schedule cfg b course_name course_id sched' tasks1 w1
  end.

(** The longest run of a task: one resumption to enter the loop, two for
    each attempt. *)
Definition task_bound (cfg : Config) : nat := 2 * max_retries cfg + 1.

(** Whatever the schedule left unfinished is run to its return, each task
    in turn: [gather] answers only when every task has returned. *)
Definition drain (cfg : Config) (b : Browser) (course_name course_id : string)
    (tasks : list Task) (w : World) : list Task * World :=
  run_schedule cfg b course_name course_id
    (flat_map (λ i, replicate (task_bound cfg) i) (seq 0 (length tasks))) tasks w.

Definition result_of (t : Task) : bool :=
  match t_state t with
  | Returned r => r
  | _ => false
  end.

(** The awaited [asyncio.gather] over the tasks of a batch: the tasks are
    resumed in the order of [sched], then drained. *)
Definition gather (cfg : Config) (b : Browser) (course_name course_id : string)
    (sched : list nat) (tasks : list Task) (w : World) : list Task * World :=
  let '(tasks1, w1) := run_schedule cfg b course_name course_id sched tasks w in
  drain cfg b course_name course_id tasks1 w1.

(** ** Batch scheduler *)

(** [range(0, n, step)] for a positive [step]. *)
Definition range_step (n step : nat) : list nat :=
  map (λ k, k * step) (seq 0 ((n + step - 1) / step)).

(** The slices [to_process[i:i + parallel_tabs]] the loop goes through. *)
Definition batches (width : nat) (to_process : list Activity) : list (list Activity) :=
  map (λ i, take width (drop i to_process)) (range_step (length to_process) width).

(** The [for _ in batch] loop that opens one page per activity. *)
Fixpoint new_pages (n : nat) (w : World) : list nat * World :=
  match n with
  | 0 => ([], w)
  | S n' =>
      let '(p, w1) := new_page w in
      let '(ps, w2) := new_pages n' w1 in
      (p :: ps, w2)
  end.

Fixpoint close_pages (pages : list nat) (w : World) : World :=
  match pages with
  | [] => w
  | p :: rest => close_pages rest (await (ClosePage p) w)
  end.

Definition make_task (pa : nat * Activity) : Task :=
  {| t_page := pa.1; t_activity := pa.2; t_state := Created |}.

(** The body of the batch loop, for the [k]-th batch. *)
Definition run_batch (cfg : Config) (b : Browser) (course_name course_id : string)
    (k : nat) (batch : list Activity) (w : World) : list Task * World :=
  let '(pages, w1) := new_pages (length batch) w in
  let tasks := map make_task (zip pages batch) in
  let '(results, w2) := gather cfg b course_name course_id (schedule b k) tasks w1 in
  let w3 := close_pages pages w2 in
  (results, await BatchDelay w3).

Fixpoint run_batches (cfg : Config) (b : Browser) (course_name course_id : string)
    (k : nat) (bs : list (list Activity)) (w : World) : list (list Task) * World :=
  match bs with
  | [] => ([], w)
  | batch :: rest =>
      let '(results, w1) := run_batch cfg b course_name course_id k batch w in
      let '(more, w2) := run_batches cfg b course_name course_id (S k) rest w1 in
      (results :: more, w2)
  end.

Definition outstanding (a : Activity) : bool :=
  negb (is_completed a) && negb (should_skip a).

(** [process_activities_parallel]; the answer is the exception it raises,
    if any ([range] refuses a zero step), and the gathered tasks of every
    batch. *)
Definition process_activities_parallel (cfg : Config) (b : Browser)
    (activities : list Activity) (course_name course_id : string) (w : World)
  : option Exn * list (list Task) * World :=
  let to_process := filter (λ a, outstanding a = true) activities in
  match to_process with
  | [] => (None, [], w)
  | _ =>
      if parallel_tabs cfg =? 0 then (Some ValueError, [], w)
      else
        let '(results, w1) :=
          run_batches cfg b course_name course_id 0 (batches (parallel_tabs cfg) to_process) w in
        (None, results, w1)
  end.

(** ** Course processor *)

(** The status update at the end of [process_course]: [if] at least 100,
    [elif] above 0, and no [else]. *)
Definition update_status (completion_pct : Q) (c : CourseProgress) : CourseProgress :=
  if Qleb 100 completion_pct then set_status completed c
  else if Qltb 0 completion_pct then set_status in_progress c
  else c.

(** The [except] clause of [process_course]. *)
Definition course_error (course : Course) (w : World) : World :=
  with_stats (log_error (clock w) ("Course error: " +:+ course_name course) (stats w)) w.

(** The end of the [try] block, from "Update course status" on: the status
    is written through the reference [course_progress], the ledger is
    saved and the course is counted. *)
Definition update_course_status (course_id : string) (w : World) : World :=
  let '(completion_pct, pm5) := get_course_completion_percent course_id (progress w) in
  let pm6 := update_course course_id (update_status completion_pct) pm5 in
  let pm7 := save (clock w) pm6 in
  with_stats (incr_courses_processed (stats w)) (with_progress pm7 w).

(** The [try] block of [process_course] with its [except] clause. *)
Definition process_course_body (cfg : Config) (b : Browser) (page : nat) (course : Course)
    (w : World) : World :=
  let w2 := await (Goto page (course_url course)) w in
  match navigate b (course_url course) (clock w2) with
  | Some _ => course_error course w2
  | None =>
      let '(activities, pm1) :=
        discover_activities cfg (locate_activities b (course_url course))
          (course_id course) (progress w2) in
      let w3 := with_progress pm1 w2 in
      match activities with
      | [] => await (ClosePage page) w3
      | _ =>
          let '(_, pm2) := get_course_progress (course_id course) (progress w3) in
          let pm3 := update_course (course_id course) (set_name (course_name course)) pm2 in
          let pm4 :=
            update_course (course_id course)
              (set_total_activities
                 (length (filter (λ a, should_skip a = false) activities))) pm3 in
          let w4 := with_progress pm4 w3 in
          match process_activities_parallel cfg b activities
                  (course_name course) (course_id course) w4 with
          | (Some _, _, w5) => course_error course w5
          | (None, _, w5) => update_course_status (course_id course) w5
          end
      end
  end.

(** [process_course]: the page is opened before the [try]; the [finally]
    clause closes it and pauses. *)
Definition process_course (cfg : Config) (b : Browser) (course : Course) (w : World) : World :=
  let '(page, w1) := new_page w in
  let w2 := process_course_body cfg b page course w1 in
  await CourseDelay (await (ClosePage page) w2).

(** The state in which the module starts: [stats = Statistics()] and
    [progress = ProgressManager(...)] on the given backing file. *)
Definition initial_world (f : option FileContents) : result World :=
  match ProgressManager_init f with
  | Ok pm =>
      Ok {| progress := pm; stats := Statistics_init; clock := 0; next_page := 0; trace := [] |}
  | Raise e => Raise e
  end.

(** ** Reconnaissance *)

(** One entry of [recon_data["courses_detail"]]. *)
Record CourseDetail := {
  cd_name : string;
  cd_total_activities : nat;
  cd_to_process : nat;
  cd_to_skip : nat;
  cd_already_done : nat;
  cd_remaining : nat;
  cd_completion_pct : Q
}.

Record ReconData := {
  total_courses : nat;
  recon_total_activities : nat;
  total_to_process : nat;
  total_to_skip : nat;
  courses_detail : list CourseDetail;
  estimated_time_minutes : nat
}.

(** The pattern list of the reconnaissance scan (it has no entry for
    books). *)
Definition recon_type_patterns : list string :=
  ["/mod/page/"; "/mod/url/"; "/mod/quiz/"; "/mod/assign/"; "/mod/forum/"].

(** The [for link in activity_links] loop: the type and the skip flag of
    every link with a new href that holds "/mod/"; an exception skips to
    the next link. *)
Fixpoint recon_links (cfg : Config) (links : list Element) (seen : gset string)
  : list (string * bool) :=
  match links with
  | [] => []
  | link :: rest =>
      match get_attribute_href link with
      | Ok (Some href) =>
          if negb (bool_decide (href = "")) && negb (bool_decide (href ∈ seen))
             && contains "/mod/" href
          then
            (activity_type_of recon_type_patterns href,
             existsb (λ p, contains p href) (skip_patterns cfg))
              :: recon_links cfg rest ({[ href ]} ∪ seen)
          else recon_links cfg rest seen
      | _ => recon_links cfg rest seen
      end
  end.

(** The body of the [try] for one course once the page is open and the
    links are located. *)
Definition recon_course (cfg : Config) (course : Course) (links : list Element)
    (pm : ProgressManager) : CourseDetail * ProgressManager :=
  let activities := recon_links cfg links ∅ in
  let to_process := length (filter (λ a, a.2 = false) activities) in
  let to_skip := length (filter (λ a, a.2 = true) activities) in
  let '(course_progress, pm1) := get_course_progress (course_id course) pm in
  let already_done := length (completed_activities course_progress) in
  ({| cd_name := course_name course;
      cd_total_activities := length activities;
      cd_to_process := to_process;
      cd_to_skip := to_skip;
      cd_already_done := already_done;
      cd_remaining := to_process - already_done;
      cd_completion_pct :=
        if 0 <? to_process then percent already_done to_process else 0%Q |},
   pm1).

Definition add_detail (d : CourseDetail) (r : ReconData) : ReconData :=
  {| total_courses := total_courses r;
     recon_total_activities := recon_total_activities r + cd_total_activities d;
     total_to_process := total_to_process r + cd_to_process d;
     total_to_skip := total_to_skip r + cd_to_skip d;
     courses_detail := courses_detail r ++ [d];
     estimated_time_minutes := estimated_time_minutes r |}.

(** The [for i, course in enumerate(courses, 1)] loop; a course whose page
    does not open or whose links cannot be located is logged and left
    out. *)
Fixpoint recon_loop (cfg : Config) (b : Browser) (page : nat) (courses : list Course)
    (r : ReconData) (w : World) : ReconData * World :=
  match courses with
  | [] => (r, w)
  | course :: rest =>
      let w1 := await (Goto page (course_url course)) w in
      match navigate b (course_url course) (clock w1) with
      | Some _ => recon_loop cfg b page rest r w1
      | None =>
          match locate_activities b (course_url course) with
          | Raise _ => recon_loop cfg b page rest r w1
          | Ok links =>
              let '(d, pm1) := recon_course cfg course links (progress w1) in
              recon_loop cfg b page rest (add_detail d r) (with_progress pm1 w1)
          end
      end
  end.

(** [int(total_to_process * 3 / parallel_tabs / 60)] for a positive
    [parallel_tabs]. *)
Definition estimate_minutes (cfg : Config) (to_process : nat) : nat :=
  Z.to_nat
    (Qfloor (inject_Z (Z.of_nat (to_process * 3)) / inject_Z (Z.of_nat (parallel_tabs cfg))
             / 60)%Q).

(** [run_reconnaissance]; [None] is the [ZeroDivisionError] that the
    estimate raises when [parallel_tabs] is 0. *)
Definition run_reconnaissance (cfg : Config) (b : Browser) (page : nat)
    (courses : list Course) (w : World) : option ReconData * World :=
  let r0 := {| total_courses := length courses; recon_total_activities := 0;
               total_to_process := 0; total_to_skip := 0; courses_detail := [];
               estimated_time_minutes := 0 |} in
  let '(r, w1) := recon_loop cfg b page courses r0 w in
  if parallel_tabs cfg =? 0 then (None, w1)
  else
    (Some {| total_courses := total_courses r;
             recon_total_activities := recon_total_activities r;
             total_to_process := total_to_process r;
             total_to_skip := total_to_skip r;
             courses_detail := courses_detail r;
             estimated_time_minutes := estimate_minutes cfg (total_to_process r) |},
     w1).

(** ** Course discovery *)

(** [s.split(sep)] for a separator of one character or more: the matches
    are taken from the left and do not overlap; [skip] counts the
    characters of a matched separator that are still to be passed. *)
Fixpoint split_str_aux (sep : string) (skip : nat) (s : string) : list string :=
  match s with
  | EmptyString => [EmptyString]
  | String a s' =>
      match skip with
      | S k => split_str_aux sep k s'
      | 0 =>
          if startswith sep s
          then EmptyString :: split_str_aux sep (String.length sep - 1) s'
          else match split_str_aux sep 0 s' with
               | [] => [String a EmptyString]
               | w :: ws => String a w :: ws
               end
      end
  end.

Definition split_str (sep s : string) : list string := split_str_aux sep 0 s.

(** [href.split("id=")[1].split("&")[0] if "id=" in href else ""] *)
Definition course_id_of (href : string) : string :=
  if contains "id=" href
  then default "" (split "&" (default "" (split_str "id=" href !! 1)) !! 0)
  else "".

(** The [for element in course_elements] loop of [discover_courses]. *)
Fixpoint courses_loop (cfg : Config) (elements : list Element) (seen_urls : gset string)
  : list Course :=
  match elements with
  | [] => []
  | element :: rest =>
      match get_attribute_href element with
      | Raise _ => courses_loop cfg rest seen_urls
      | Ok None => courses_loop cfg rest seen_urls
      | Ok (Some href) =>
          if bool_decide (href = "") || bool_decide (href ∈ seen_urls)
          then courses_loop cfg rest seen_urls
          else
            let seen_urls := {[ href ]} ∪ seen_urls in
            match inner_text element with
            | Raise _ => courses_loop cfg rest seen_urls
            | Ok text =>
                let name := strip text in
                if negb (bool_decide (name = "")) && contains "view.php?id=" href
                then
                  {| course_name := name;
                     course_url := absolute_url cfg href;
                     course_id := course_id_of href;
                     _priority := None;
                     _completion := None |}
                    :: courses_loop cfg rest seen_urls
                else courses_loop cfg rest seen_urls
            end
      end
  end.

(** The "Remove duplicates" loop: the first course of every url is kept. *)
Fixpoint unique_courses (courses : list Course) (urls_seen : gset string) : list Course :=
  match courses with
  | [] => []
  | course :: rest =>
      if bool_decide (course_url course ∈ urls_seen)
      then unique_courses rest urls_seen
      else course :: unique_courses rest ({[ course_url course ]} ∪ urls_seen)
  end.

(** [discover_courses]: [opened] is the outcome of the visit of the courses
    page and [located] the answer of the course locator; an exception of
    either gives the empty list. *)
Definition discover_courses (cfg : Config) (opened : option string)
    (located : result (list Element)) : list Course :=
  match opened, located with
  | None, Ok elements => unique_courses (courses_loop cfg elements ∅) ∅
  | _, _ => []
  end.

(** ** Login check *)

(** [AuthManager.check_logged_in]: [current_url] is [page.url], the two
    counts are the answers of the two locators; any exception gives
    [False]. *)
Definition check_logged_in (current_url : string) (course_elements user_menu : result nat)
  : bool :=
  if contains "cas/login" current_url || contains "sis.miva.university" current_url
  then false
  else if contains "lms.miva.university" current_url
  then match course_elements with
       | Raise _ => false
       | Ok n =>
           match user_menu with
           | Raise _ => false
           | Ok m => (0 <? n) || (0 <? m)
           end
       end
  else false.

(** ** The course loop of [main] *)

(** [for course in courses]: a course at 100 percent or more is skipped,
    any other is processed. *)
Fixpoint process_courses (cfg : Config) (b : Browser) (courses : list Course) (w : World)
  : World :=
  match courses with
  | [] => w
  | course :: rest =>
      let '(completion, pm1) :=
        get_course_completion_percent (course_id course) (progress w) in
      let w1 := with_progress pm1 w in
      if Qleb 100 completion
      then process_courses cfg b rest w1
      else process_courses cfg b rest (process_course cfg b course w1)
  end.

(** ** Duration *)

(** [Statistics.get_duration] for a run that has lasted [elapsed] whole
    seconds: the [seconds] attribute of the difference of two times is its
    part below one day. *)
Definition duration_seconds (elapsed : nat) : nat := elapsed `mod` (24 * 3600).

Definition get_duration (elapsed : nat) : string :=
  let seconds_ := duration_seconds elapsed in
  let hours := seconds_ / 3600 in
  let minutes := (seconds_ `mod` 3600) / 60 in
  let seconds := seconds_ `mod` 60 in
  if 0 <? hours
  then pretty hours +:+ "h " +:+ pretty minutes +:+ "m " +:+ pretty seconds +:+ "s"
  else pretty minutes +:+ "m " +:+ pretty seconds +:+ "s".

(** ** Notions used in the statements *)

(** The completed list of every course is duplicate-free: it is used as a
    set. *)
Definition ledger_wf (pm : ProgressManager) : Prop :=
  ∀ cid, NoDup (completed_activities (course_of cid pm)).

(** The number of entries of a list that are a given url. *)
Definition entries (url : string) (l : list string) : nat :=
  length (filter (λ u, u = url) l).

(** A manager on the default document, with no backing file yet. *)
Definition fresh_manager : ProgressManager :=
  {| data := default_data; file := None |}.

(** A ledger the program's own operations build: two activities of course
    "12" completed, after which a visit of the course finds a single
    activity left on its page ([process_course] stores the latest count). *)
Definition overfull_manager : ProgressManager :=
  update_course "12" (set_total_activities 1)
    (mark_activity_completed 2 "12" "https://lms.miva.university/mod/page/view.php?id=2"
       (mark_activity_completed 1 "12" "https://lms.miva.university/mod/page/view.php?id=1"
          fresh_manager)).

(** The course dict as the loop of [prioritize_courses] leaves it. *)
Definition annotate (pm : ProgressManager) (course : Course) : Course :=
  (assign_priority course pm).1.

(** The completion percent of a course, as a value. *)
Definition completion_of (pm : ProgressManager) (cid : string) : Q :=
  (get_course_completion_percent cid pm).1.

(** The bucket of a completion percent, in the words of the specification:
    1 for a course in progress, 2 for a course not started, 3 for a
    complete one. *)
Definition in_bucket (pct : Q) (n : nat) : Prop :=
  (n = 1 ∧ (0 < pct)%Q ∧ (pct < 100)%Q)
  ∨ (n = 2 ∧ (pct == 0)%Q)
  ∨ (n = 3 ∧ (100 <= pct)%Q).

(** The bucket and the percent a course carries after the loop. *)
Definition rank (c : Course) : nat := default 0 (_priority c).
Definition stored_completion (c : Course) : Q := default 0%Q (_completion c).

(** The order of the output: ascending bucket, then descending percent. *)
Definition precedes (c1 c2 : Course) : Prop :=
  rank c1 < rank c2
  ∨ (rank c1 = rank c2 ∧ (stored_completion c2 <= stored_completion c1)%Q).

(** Two courses tie: equal bucket and equal percent. *)
Definition ties (c1 c2 : Course) : bool :=
  (rank c1 =? rank c2) && Qeq_bool (stored_completion c1) (stored_completion c2).

(** The course dict without the two keys of the prioritizer. *)
Definition plain (c : Course) : Course :=
  {| course_name := course_name c; course_url := course_url c;
     course_id := course_id c; _priority := None; _completion := None |}.

(** A ledger in which course "1" has completed 2 of its 5 activities, and
    which does not know course "2". *)
Definition resumed_manager : ProgressManager :=
  update_course "1" (set_total_activities 5)
    (mark_activity_completed 2 "1" "https://lms.miva.university/mod/url/view.php?id=11"
       (mark_activity_completed 1 "1" "https://lms.miva.university/mod/page/view.php?id=10"
          fresh_manager)).

Definition course_A : Course :=
  {| course_name := "Algebra";
     course_url := "https://lms.miva.university/course/view.php?id=1";
     course_id := "1"; _priority := None; _completion := None |}.

Definition course_B : Course :=
  {| course_name := "Biology";
     course_url := "https://lms.miva.university/course/view.php?id=2";
     course_id := "2"; _priority := None; _completion := None |}.

(** The processor an activity is dispatched to, by the type it logs, and
    the prefix that processor puts on the message of a failed visit. *)
Definition kind_of (a : Activity) : string :=
  if bool_decide (a_type a = "page") then "page"
  else if bool_decide (a_type a = "url") then "url"
  else if bool_decide (a_type a = "forum") then "forum"
  else "page".

Definition error_prefix (a : Activity) : string :=
  if bool_decide (a_type a = "page") then "Page error: "
  else if bool_decide (a_type a = "url") then "URL error: "
  else if bool_decide (a_type a = "forum") then "Forum error: "
  else "Page error: ".

(** The calls of [n] further attempts: the pause of one second, then the
    visit. *)
Fixpoint retry_events (page : nat) (url : string) (n : nat) : list Event :=
  match n with
  | 0 => []
  | S n' => RetrySleep page :: Goto page url :: retry_events page url n'
  end.

(** A run of awaited calls. *)
Definition advance (evs : list Event) (w : World) : World :=
  foldl (λ w e, await e w) w evs.

#[global] Instance Event_eq_dec : EqDecision Event.
Proof. solve_decision. Defined.

(** How often the work on [url] was executed on [page] in a trace. *)
Definition attempts_made (page : nat) (url : string) (t : list Event) : nat :=
  length (filter (λ e, e = Goto page url) t).

(** How many pauses between attempts a trace holds. *)
Definition pauses_made (page : nat) (t : list Event) : nat :=
  length (filter (λ e, e = RetrySleep page) t).

(** The screenshot name of a failed activity. *)
Definition screenshot_name (course_id : string) (a : Activity) : string :=
  "error_" +:+ course_id +:+ "_" +:+ a_type a.

(** A browser on which every visit times out, one on which every visit
    succeeds, and the state of a run that starts without a ledger file. *)
Definition failing_browser : Browser :=
  {| navigate := λ _ _, Some "Timeout 15000ms exceeded";
     locate_activities := λ _, Ok [];
     schedule := λ _, [] |}.

Definition fresh_world : World :=
  {| progress := fresh_manager; stats := Statistics_init; clock := 0;
     next_page := 0; trace := [] |}.

Definition page_activity : Activity :=
  {| a_name := "Introduction";
     a_url := "https://lms.miva.university/mod/page/view.php?id=7";
     a_type := "page"; should_skip := false; is_completed := false |}.

Definition quiz_activity : Activity :=
  {| a_name := "Quiz 1";
     a_url := "https://lms.miva.university/mod/quiz/view.php?id=8";
     a_type := "quiz"; should_skip := true; is_completed := false |}.

(** The record of a course in the backing file. *)
Definition persisted_course (cid : string) (w : World) : option CourseProgress :=
  match file (progress w) with
  | Some (Document d) => courses d !! cid
  | _ => None
  end.

(** Course "12" with a single page activity, linked by a relative href as
    by an absolute one. *)
Definition course_12 : Course :=
  {| course_name := "Algebra";
     course_url := "https://lms.miva.university/course/view.php?id=12";
     course_id := "12"; _priority := None; _completion := None |}.

Definition relative_link : Element :=
  {| get_attribute_href := Ok (Some "/mod/page/view.php?id=7");
     inner_text := Ok "Introduction" |}.

(** The course page opens, every visit of an activity times out. *)
Definition stuck_browser : Browser :=
  {| navigate := λ url _,
       if bool_decide (url = course_url course_12) then None
       else Some "Timeout 15000ms exceeded";
     locate_activities := λ _, Ok [relative_link];
     schedule := λ _, [] |}.

(** Every visit succeeds. *)
Definition working_browser : Browser :=
  {| navigate := λ _ _, None;
     locate_activities := λ _, Ok [relative_link];
     schedule := λ _, [] |}.

(** A task has returned: it is in its terminal state, with the answer
    [True] of a success or [False] of exhausted attempts. *)
Definition returned (t : Task) : Prop := ∃ r, t_state t = Returned r.

(** The suspension points a task of the retry controller can be in: the
    attempt in flight is one of the [max_retries], and a pause is taken
    only when an attempt is left. *)
Definition task_wf (cfg : Config) (st : TaskState) : Prop :=
  match st with
  | InAttempt n => 1 ≤ n ∧ n ≤ max_retries cfg
  | InRetrySleep n => n < max_retries cfg
  | _ => True
  end.

(** An upper bound on the resumptions a task still needs. *)
Definition task_measure (cfg : Config) (st : TaskState) : nat :=
  match st with
  | Created => 2 * max_retries cfg + 1
  | InAttempt n => 2 * (max_retries cfg - n) + 2
  | InRetrySleep n => 2 * (max_retries cfg - n) + 1
  | InScreenshot => 1
  | Returned _ => 0
  end.

(** The batch barrier on the calls [added] by the batch loop, for the
    gathered tasks [results] of its batches: wherever a task of a later
    batch starts, every task of every earlier batch has returned before. *)
Definition barrier (results : list (list Task)) (added : list Event) : Prop :=
  ∀ i j batch_i batch_j ti tj pre u post,
    i < j →
    results !! i = Some batch_i → results !! j = Some batch_j →
    ti ∈ batch_i → tj ∈ batch_j →
    added = pre ++ Start (t_page tj) u :: post →
    ∃ r, Done (t_page ti) r ∈ pre.

(** How a task of a batch stands after some resumptions that issued the
    calls [evs]: it keeps its page and its activity, it stays in the
    states of the retry controller, it stays returned once it has
    returned, and its start and its return are recorded in [evs]. *)
Definition task_rel (cfg : Config) (evs : list Event) (t t' : Task) : Prop :=
  t_page t' = t_page t
  ∧ t_activity t' = t_activity t
  ∧ (task_wf cfg (t_state t) → task_wf cfg (t_state t'))
  ∧ (∀ r, t_state t = Returned r → t_state t' = Returned r)
  ∧ (∀ r, t_state t' = Returned r → t_state t = Returned r ∨ Done (t_page t) r ∈ evs)
  ∧ (t_state t = Created →
       t_state t' = Created ∨ Start (t_page t) (a_url (t_activity t)) ∈ evs).

(** The configuration with two tabs instead of four, and five page
    activities of one course, none completed. *)
Definition two_tabs : Config :=
  {| base_url := base_url CONFIG; parallel_tabs := 2;
     max_retries := max_retries CONFIG; skip_patterns := skip_patterns CONFIG |}.

Definition page_number (n : string) : Activity :=
  {| a_name := "Page " +:+ n;
     a_url := "https://lms.miva.university/mod/page/view.php?id=" +:+ n;
     a_type := "page"; should_skip := false; is_completed := false |}.

Definition five_pages : list Activity :=
  [page_number "1"; page_number "2"; quiz_activity; page_number "3";
   page_number "4"; page_number "5"].

(** [n] resumptions of one task. *)
Fixpoint task_steps (cfg : Config) (b : Browser) (course_name course_id : string)
    (page : nat) (activity : Activity) (n : nat) (st : TaskState) (w : World)
  : TaskState * World :=
  match n with
  | 0 => (st, w)
  | S n' =>
      let '(st1, w1) := task_step cfg b course_name course_id page activity st w in
      task_steps cfg b course_name course_id page activity n' st1 w1
  end.

(** A browser on which every visit succeeds and whose event loop resumes
    the second task of a batch before the first. *)
Definition interleaving_browser : Browser :=
  {| navigate := λ _ _, None;
     locate_activities := λ _, Ok [];
     schedule := λ _, [1; 0; 1; 0] |}.

(** ** Relations kept along a run

    A relation [Rp] between the ledger before and after, and a relation
    [Rs] between the statistics before and after, that every elementary
    operation on the courses in [C] respects; [skips] says whether the
    logging of a skipped activity is among these operations. *)
Record preserved (skips : Prop) (C : string → Prop)
    (Rp : ProgressManager → ProgressManager → Prop)
    (Rs : Statistics → Statistics → Prop) : Prop := {
  pr_refl : ∀ pm, Rp pm pm;
  pr_trans : ∀ pm1 pm2 pm3, Rp pm1 pm2 → Rp pm2 pm3 → Rp pm1 pm3;
  pr_ensure : ∀ cid pm, C cid → Rp pm (ensure_course cid pm);
  pr_completed : ∀ now cid url pm, C cid → Rp pm (mark_activity_completed now cid url pm);
  pr_failed : ∀ now cid url e pm, C cid → Rp pm (mark_activity_failed now cid url e pm);
  pr_name : ∀ cid n pm, C cid → Rp pm (update_course cid (set_name n) pm);
  pr_total : ∀ cid n pm, C cid → Rp pm (update_course cid (set_total_activities n) pm);
  pr_status : ∀ cid q pm, C cid → Rp pm (update_course cid (update_status q) pm);
  pr_save : ∀ now pm, Rp pm (save now pm);
  ps_refl : ∀ s, Rs s s;
  ps_trans : ∀ s1 s2 s3, Rs s1 s2 → Rs s2 s3 → Rs s1 s3;
  ps_completed : ∀ now cn an ty s, Rs s (log_completed now cn an ty s);
  ps_skipped : skips → ∀ cn an ty s, Rs s (log_skipped cn an ty s);
  ps_error : ∀ now msg s, Rs s (log_error now msg s);
  ps_processed : ∀ s, Rs s (incr_courses_processed s)
}.

Definition world_rel (Rp : ProgressManager → ProgressManager → Prop)
    (Rs : Statistics → Statistics → Prop) (w w' : World) : Prop :=
  Rp (progress w) (progress w') ∧ Rs (stats w) (stats w').

(** The ledger only grows: the completed and the failed list of every
    course are extended at their end, and the global counters are as
    before. *)
Definition ledger_grows (pm pm' : ProgressManager) : Prop :=
  (∀ cid,
     completed_activities (course_of cid pm) `prefix_of` completed_activities (course_of cid pm')
     ∧ failed_activities (course_of cid pm) `prefix_of` failed_activities (course_of cid pm'))
  ∧ global_stats (data pm') = global_stats (data pm).

(** The statistics only grow. *)
Definition stats_grow (s s' : Statistics) : Prop :=
  courses_processed s ≤ courses_processed s'
  ∧ activities_completed s ≤ activities_completed s'
  ∧ activities_skipped s ≤ activities_skipped s'
  ∧ activities_failed s ≤ activities_failed s'
  ∧ quizzes_found s `prefix_of` quizzes_found s'
  ∧ assignments_found s `prefix_of` assignments_found s'
  ∧ errors s `prefix_of` errors s'
  ∧ stats_completed_activities s `prefix_of` stats_completed_activities s'.

(** The counters agree with the lists they count. *)
Definition stats_wf (s : Statistics) : Prop :=
  activities_failed s = length (errors s)
  ∧ activities_completed s = length (stats_completed_activities s)
  ∧ length (quizzes_found s) + length (assignments_found s) ≤ activities_skipped s.

(** The tally of skipped activities is as before. *)
Definition skip_tally_same (s s' : Statistics) : Prop :=
  activities_skipped s' = activities_skipped s
  ∧ quizzes_found s' = quizzes_found s
  ∧ assignments_found s' = assignments_found s.

(** The records of the courses outside [C] are as before. *)
Definition others_untouched (C : string → Prop) (pm pm' : ProgressManager) : Prop :=
  ∀ cid, ¬ C cid → courses (data pm') !! cid = courses (data pm) !! cid.

(** An entry of the reconnaissance report adds up. *)
Definition detail_ok (d : CourseDetail) : Prop :=
  cd_total_activities d = cd_to_process d + cd_to_skip d
  ∧ cd_remaining d = cd_to_process d - cd_already_done d
  ∧ cd_remaining d ≤ cd_to_process d.

(** ** Open tabs

    The pages that are open after the calls of a trace, given those that
    were open before, and the largest number of pages open at one time. *)
Definition tab_step (open : list nat) (e : Event) : list nat :=
  match e with
  | NewPage p => p :: open
  | ClosePage p => filter (λ q, q ≠ p) open
  | _ => open
  end.

Definition tabs_after (open : list nat) (t : list Event) : list nat :=
  foldl tab_step open t.

Fixpoint peak_tabs (open : list nat) (t : list Event) : nat :=
  match t with
  | [] => length open
  | e :: t' => length open `max` peak_tabs (tab_step open e) t'
  end.

(** The calls a task issues for an activity whose address is among
    [urls]: none of them opens or closes a page, and it visits no other
    address. *)
Definition task_event (urls : list string) (e : Event) : Prop :=
  match e with
  | Goto _ u | Start _ u => u ∈ urls
  | RetrySleep _ | Screenshot _ _ | Done _ _ => True
  | _ => False
  end.

(** The addresses that the calls of a trace visit. *)
Definition visits (t : list Event) : list string :=
  omap (λ e, match e with Goto _ u => Some u | _ => None end) t.

(** The activity that [discover_activities] builds from a link with the
    address [href] and the text [text], for the ledger [pm]. *)
Definition link_activity (cfg : Config) (course_id : string) (pm : ProgressManager)
    (href text : string) : Activity :=
  {| a_name := strip text;
     a_url := absolute_url cfg href;
     a_type := activity_type_of type_patterns href;
     should_skip := existsb (λ pattern, contains pattern href) (skip_patterns cfg);
     is_completed := str_in href (completed_activities (course_of course_id pm)) |}.

(** A link of the page that [discover_activities] takes up. *)
Definition activity_link (elements : list Element) (href text : string) : Prop :=
  ∃ element, element ∈ elements
    ∧ get_attribute_href element = Ok (Some href)
    ∧ inner_text element = Ok text
    ∧ contains "/mod/" href = true
    ∧ strip text ≠ "".


(** A string of decimal digits, as the ids of the courses are. *)
Definition is_digit (a : ascii) : bool :=
  let n := nat_of_ascii a in (48 <=? n) && (n <=? 57).

Fixpoint all_digits (s : string) : bool :=
  match s with
  | EmptyString => true
  | String a s' => is_digit a && all_digits s'
  end.

(** A link of the courses page that [discover_courses] takes up. *)
Definition course_link (elements : list Element) (href text : string) : Prop :=
  ∃ element, element ∈ elements
    ∧ get_attribute_href element = Ok (Some href)
    ∧ inner_text element = Ok text
    ∧ contains "view.php?id=" href = true
    ∧ strip text ≠ "".


(** Every visit of the activity succeeds, whenever it is made. *)
Definition visit_succeeds (b : Browser) (a : Activity) : Prop :=
  ∀ now, navigate b (a_url a) now = None.

(** A task whose visits succeed is before its return, or it has returned
    [True] and its address is in the completed list of the course. *)
Definition task_done_ok (course_id : string) (t : Task) (w : World) : Prop :=
  match t_state t with
  | Created | InAttempt _ => True
  | Returned r =>
      r = true
      ∧ a_url (t_activity t) ∈ completed_activities (course_of course_id (progress w))
  | _ => False
  end.


(** The page a call of a task is issued on. *)
Definition on_page (page : nat) (e : Event) : Prop :=
  match e with
  | Goto p _ | RetrySleep p | Screenshot p _ | Start p _ | Done p _ => p = page
  | _ => False
  end.

(** The visits a task may still make from a suspension point. *)
Definition visits_left (cfg : Config) (st : TaskState) : nat :=
  match st with
  | Created => max_retries cfg
  | InAttempt n | InRetrySleep n => max_retries cfg - n
  | InScreenshot | Returned _ => 0
  end.

(** The visits that the tasks on the page [page] may still make. *)
Definition visits_left_on (cfg : Config) (page : nat) (tasks : list Task) : nat :=
  sum_list_with
    (λ t, if decide (t_page t = page) then visits_left cfg (t_state t) else 0) tasks.


(** ** The login test script

    The decision of [test_login] in [test_login.py]: the counts of the same
    two locators as in [check_logged_in]; the address of the page is
    printed but not looked at. *)
Definition test_login_detects (course_count user_menu : nat) : bool :=
  (0 <? course_count) || (0 <? user_menu).


(** The UTF-8 encoding of a character, by code point. *)
Definition utf8 (c : N) : string :=
  if (c <? 128)%N then String (ascii_of_N c) ""
  else if (c <? 2048)%N
  then String (ascii_of_N (192 + c / 64)) (String (ascii_of_N (128 + c mod 64)) "")
  else if (c <? 65536)%N
  then String (ascii_of_N (224 + c / 4096))
         (String (ascii_of_N (128 + (c / 64) mod 64))
            (String (ascii_of_N (128 + c mod 64)) ""))
  else String (ascii_of_N (240 + c / 262144))
         (String (ascii_of_N (128 + (c / 4096) mod 64))
            (String (ascii_of_N (128 + (c / 64) mod 64))
               (String (ascii_of_N (128 + c mod 64)) ""))).

(** The encoding of a text, character by character. *)
Definition encode (l : list N) : string := foldr (λ c s, utf8 c +:+ s) "" l.

(** [str.strip] on the characters of a text: the white space characters at
    both ends are dropped. *)
Fixpoint lstrip_points (l : list N) : list N :=
  match l with
  | [] => []
  | c :: l' => if is_space c then lstrip_points l' else l
  end.

Fixpoint rstrip_points (l : list N) : list N :=
  match l with
  | [] => []
  | c :: l' =>
      match rstrip_points l' with
      | [] => if is_space c then [] else [c]
      | r => c :: r
      end
  end.

Definition strip_points (l : list N) : list N := rstrip_points (lstrip_points l).

(** A second relative link of course "12", and a browser on which the
    course page and the first activity open while every visit of the
    second activity times out. *)
Definition second_relative_link : Element :=
  {| get_attribute_href := Ok (Some "/mod/page/view.php?id=8");
     inner_text := Ok "Exercises" |}.

Definition half_working_browser : Browser :=
  {| navigate := λ url _,
       if bool_decide (url = "https://lms.miva.university/mod/page/view.php?id=8")
       then Some "Timeout 15000ms exceeded"
       else None;
     locate_activities := λ _, Ok [relative_link; second_relative_link];
     schedule := λ _, [] |}.

(** * Properties of the progress ledger *)

Section Ledger.
Implicit Types (pm : ProgressManager) (cid url : string).

Lemma course_of_ensure cid pm :
  course_of cid (ensure_course cid pm) = course_of cid pm.
Proof.
  unfold course_of, ensure_course.
  destruct (courses (data pm) !! cid) as [c|] eqn:E; simpl.
  - by rewrite E.
  - by rewrite lookup_insert_eq.
Qed.

Lemma get_course_progress_eq cid pm :
  get_course_progress cid pm = (course_of cid pm, ensure_course cid pm).
Proof. unfold get_course_progress. by rewrite course_of_ensure. Qed.

Lemma ensure_course_lookup cid cid' pm :
  courses (data (ensure_course cid pm)) !! cid' =
  match courses (data pm) !! cid' with
  | Some c => Some c
  | None => if decide (cid = cid') then Some default_course else None
  end.
Proof.
  unfold ensure_course.
  destruct (courses (data pm) !! cid) as [c|] eqn:E; simpl.
  - destruct (courses (data pm) !! cid') eqn:E'; [done|].
    case_decide; [congruence | done].
  - rewrite lookup_insert. case_decide; subst.
    + by rewrite E.
    + by destruct (courses (data pm) !! cid').
Qed.

Lemma ensure_course_present cid pm :
  courses (data (ensure_course cid pm)) !! cid = Some (course_of cid pm).
Proof.
  rewrite ensure_course_lookup. unfold course_of.
  destruct (courses (data pm) !! cid); [done|]. by rewrite decide_True.
Qed.

Lemma ensure_course_file cid pm : file (ensure_course cid pm) = file pm.
Proof. unfold ensure_course. by destruct (courses (data pm) !! cid). Qed.

Lemma ensure_course_idem cid pm :
  ensure_course cid (ensure_course cid pm) = ensure_course cid pm.
Proof.
  unfold ensure_course at 1. by rewrite ensure_course_present.
Qed.

Lemma course_of_ensure_other cid cid' pm :
  course_of cid' (ensure_course cid pm) = course_of cid' pm.
Proof.
  unfold course_of. rewrite ensure_course_lookup.
  destruct (courses (data pm) !! cid'); [done|]. by case_decide.
Qed.

Lemma course_of_save now cid pm : course_of cid (save now pm) = course_of cid pm.
Proof. done. Qed.

Lemma course_of_update cid f pm :
  courses (data pm) !! cid = Some (course_of cid pm) →
  course_of cid (update_course cid f pm) = f (course_of cid pm).
Proof.
  intros H. unfold course_of at 1, update_course. simpl.
  by rewrite lookup_alter_eq, H.
Qed.

Lemma course_of_update_ne cid cid' f pm :
  cid ≠ cid' → course_of cid' (update_course cid f pm) = course_of cid' pm.
Proof.
  intros H. unfold course_of, update_course. simpl.
  by rewrite lookup_alter_ne.
Qed.

(** The completed list of a course after [mark_activity_completed]. *)
Lemma mark_activity_completed_list now cid url pm :
  completed_activities (course_of cid (mark_activity_completed now cid url pm)) =
  if str_in url (completed_activities (course_of cid pm))
  then completed_activities (course_of cid pm)
  else completed_activities (course_of cid pm) ++ [url].
Proof.
  unfold mark_activity_completed. rewrite get_course_progress_eq.
  rewrite course_of_save.
  destruct (str_in url _) eqn:E; simpl.
  - by rewrite course_of_ensure.
  - rewrite course_of_update.
    + by rewrite course_of_ensure.
    + by rewrite ensure_course_present, course_of_ensure.
Qed.

Lemma mark_activity_completed_other now cid cid' url pm :
  cid ≠ cid' →
  course_of cid' (mark_activity_completed now cid url pm) = course_of cid' pm.
Proof.
  intros H. unfold mark_activity_completed. rewrite get_course_progress_eq.
  rewrite course_of_save.
  destruct (negb _); [rewrite course_of_update_ne by done|];
    by rewrite course_of_ensure_other.
Qed.

Lemma mark_activity_completed_present now cid url pm :
  courses (data (mark_activity_completed now cid url pm)) !! cid =
  Some (course_of cid (mark_activity_completed now cid url pm)).
Proof.
  unfold course_of.
  destruct (courses (data (mark_activity_completed now cid url pm)) !! cid) eqn:E; [done|].
  exfalso. revert E. unfold mark_activity_completed. rewrite get_course_progress_eq.
  simpl. destruct (negb _); simpl.
  - rewrite lookup_alter_eq, ensure_course_present. done.
  - rewrite ensure_course_present. done.
Qed.

Lemma str_in_spec url (l : list string) : str_in url l = true ↔ url ∈ l.
Proof. unfold str_in. apply bool_decide_eq_true. Qed.

Lemma mark_activity_completed_elem now cid url pm :
  url ∈ completed_activities (course_of cid (mark_activity_completed now cid url pm)).
Proof.
  rewrite mark_activity_completed_list.
  destruct (str_in url _) eqn:E.
  - by apply str_in_spec.
  - set_solver.
Qed.
End Ledger.

(** ** The completed list is a set *)

Section CompletedSet.
Implicit Types (pm : ProgressManager) (cid url : string).

Lemma ledger_wf_fresh : ledger_wf fresh_manager.
Proof. intros cid. unfold course_of. simpl. rewrite lookup_empty. constructor. Qed.

Lemma ledger_wf_mark_completed now cid url pm :
  ledger_wf pm → ledger_wf (mark_activity_completed now cid url pm).
Proof.
  intros H cid'. destruct (decide (cid = cid')) as [<-|Hne].
  - rewrite mark_activity_completed_list.
    destruct (str_in url _) eqn:E; [apply H|].
    apply NoDup_app. split_and!; [apply H| |apply NoDup_singleton].
    intros x Hx ->%list_elem_of_singleton.
    apply str_in_spec in Hx. congruence.
  - rewrite mark_activity_completed_other by done. apply H.
Qed.

Lemma ledger_wf_mark_failed now cid url e pm :
  ledger_wf pm → ledger_wf (mark_activity_failed now cid url e pm).
Proof.
  intros H cid'. unfold mark_activity_failed. rewrite get_course_progress_eq.
  rewrite course_of_save. destruct (decide (cid = cid')) as [<-|Hne].
  - rewrite course_of_update by (by rewrite ensure_course_present, course_of_ensure).
    simpl. rewrite course_of_ensure. apply H.
  - rewrite course_of_update_ne, course_of_ensure_other by done. apply H.
Qed.

Lemma ledger_wf_ensure cid pm : ledger_wf pm → ledger_wf (ensure_course cid pm).
Proof. intros H cid'. rewrite course_of_ensure_other. apply H. Qed.

Lemma entries_not_elem url (l : list string) : url ∉ l → entries url l = 0.
Proof.
  unfold entries. induction l as [|x l IH]; intros Hn; [done|].
  apply not_elem_of_cons in Hn as [Hne Hn].
  rewrite filter_cons. case_decide; [congruence | by apply IH].
Qed.

Lemma entries_NoDup url (l : list string) :
  NoDup l → url ∈ l → entries url l = 1.
Proof.
  induction 1 as [|x l Hx Hl IH]; intros Hin.
  - by apply elem_of_nil in Hin.
  - unfold entries. rewrite filter_cons. case_decide as Hd.
    + subst x. simpl. f_equal. by apply entries_not_elem.
    + apply IH. apply elem_of_cons in Hin as [->|]; done.
Qed.

Lemma ensure_course_present_id cid pm c :
  courses (data pm) !! cid = Some c → ensure_course cid pm = pm.
Proof. intros H. unfold ensure_course. by rewrite H. Qed.

(** Marking a url that the list already holds changes no course record. *)
Lemma mark_activity_completed_again now cid url pm :
  url ∈ completed_activities (course_of cid pm) →
  courses (data (mark_activity_completed now cid url pm)) = courses (data pm).
Proof.
  intros Hin. unfold mark_activity_completed. rewrite get_course_progress_eq.
  apply str_in_spec in Hin as Hb. rewrite Hb. simpl.
  unfold ensure_course, course_of in *.
  destruct (courses (data pm) !! cid); [done|].
  simpl in Hin. by apply elem_of_nil in Hin.
Qed.
End CompletedSet.

(** C3. Calling [mark_activity_completed] twice with the same course id and
    url, on a ledger whose completed lists hold no duplicates (as every
    ledger the program builds does), leaves the completed list of the course
    with exactly one entry for the url, and the second call changes neither
    that list nor any other course record. *)
Theorem mark_activity_completed_idempotent (now1 now2 : timestamp) (cid url : string)
    (pm : ProgressManager) :
  ledger_wf pm →
  let pm1 := mark_activity_completed now1 cid url pm in
  let pm2 := mark_activity_completed now2 cid url pm1 in
  entries url (completed_activities (course_of cid pm2)) = 1
  ∧ completed_activities (course_of cid pm2) = completed_activities (course_of cid pm1)
  ∧ courses (data pm2) = courses (data pm1).
Proof.
  intros Hwf pm1 pm2.
  assert (Hin : url ∈ completed_activities (course_of cid pm1))
    by apply mark_activity_completed_elem.
  assert (Hsame : courses (data pm2) = courses (data pm1))
    by (by apply mark_activity_completed_again).
  assert (Hc : course_of cid pm2 = course_of cid pm1)
    by (unfold course_of; by rewrite Hsame).
  rewrite Hc. split_and!; [|done|done].
  apply entries_NoDup; [|done].
  by apply ledger_wf_mark_completed.
Qed.

Lemma mark_activity_completed_idempotent_witness :
  let pm1 := mark_activity_completed 1 "12" "https://lms.miva.university/mod/page/view.php?id=7"
               fresh_manager in
  let pm2 := mark_activity_completed 2 "12" "https://lms.miva.university/mod/page/view.php?id=7"
               pm1 in
  entries "https://lms.miva.university/mod/page/view.php?id=7"
    (completed_activities (course_of "12" pm2)) = 1
  ∧ completed_activities (course_of "12" pm2) = completed_activities (course_of "12" pm1)
  ∧ courses (data pm2) = courses (data pm1).
Proof.
  apply (mark_activity_completed_idempotent 1 2 "12"
           "https://lms.miva.university/mod/page/view.php?id=7" fresh_manager).
  apply ledger_wf_fresh.
Defined.

(** ** Completion percent *)

Lemma percent_nonneg (done total : nat) : (0 <= percent done total)%Q.
Proof.
  unfold percent. destruct total as [|t].
  - unfold Qdiv, Qinv. simpl. rewrite Qmult_0_r. done.
  - unfold Qle, Qdiv, Qmult, Qinv, inject_Z. simpl. lia.
Qed.

Lemma percent_le_100 (done total : nat) :
  total ≠ 0 → (percent done total <= 100)%Q ↔ done ≤ total.
Proof.
  intros Ht. destruct total as [|t]; [done|].
  unfold percent, Qle, Qdiv, Qmult, Qinv, inject_Z. simpl.
  rewrite !Z.mul_1_r. pose proof (Zpos_P_of_succ_nat t). lia.
Qed.

Lemma percent_pos (done total : nat) :
  total ≠ 0 → (0 < percent done total)%Q ↔ 0 < done.
Proof.
  intros Ht. destruct total as [|t]; [done|].
  unfold percent, Qlt, Qdiv, Qmult, Qinv, inject_Z. simpl. lia.
Qed.

Lemma get_course_completion_percent_eq (cid : string) (pm : ProgressManager) :
  get_course_completion_percent cid pm =
  (if (total_activities (course_of cid pm) =? 0)%nat then 0%Q
   else percent (length (completed_activities (course_of cid pm)))
          (total_activities (course_of cid pm)),
   ensure_course cid pm).
Proof.
  unfold get_course_completion_percent. rewrite get_course_progress_eq.
  by destruct (_ =? _)%nat.
Qed.

(** C1, as amended.  The completion percent is 0 when [total_activities] is
    0, whatever the completed list holds, and [len(completed) / total * 100]
    otherwise; it is never negative, and it is at most 100 exactly when
    [total_activities] is 0 or the completed list holds no more urls than
    [total_activities]. *)
Theorem get_course_completion_percent_range (cid : string) (pm : ProgressManager) :
  let pct := (get_course_completion_percent cid pm).1 in
  let c := course_of cid pm in
  pct = (if (total_activities c =? 0)%nat then 0%Q
         else percent (length (completed_activities c)) (total_activities c))
  ∧ (0 <= pct)%Q
  ∧ ((pct <= 100)%Q ↔
     total_activities c = 0 ∨ length (completed_activities c) ≤ total_activities c).
Proof.
  intros pct c. subst pct. rewrite get_course_completion_percent_eq. simpl. fold c.
  destruct (Nat.eqb_spec (total_activities c) 0) as [H0|Hn].
  - split_and!; [done|done|]. split; [by left | done].
  - split_and!; [done|apply percent_nonneg|].
    rewrite percent_le_100 by done. split; [by right | by intros [?|?]].
Qed.

(** C1, the claim as stated fails: with two urls completed and
    [total_activities] 1 the percent is 200. *)
Lemma get_course_completion_percent_exceeds_100 :
  (get_course_completion_percent "12" overfull_manager).1 = 200%Q
  ∧ ¬ ((get_course_completion_percent "12" overfull_manager).1 <= 100)%Q.
Proof.
  assert (H : (get_course_completion_percent "12" overfull_manager).1 = 200%Q)
    by (by vm_compute).
  split; [done|]. rewrite H. vm_compute. intros Hle. by apply Hle.
Qed.

(** ** Loading the ledger *)

(** C5, as amended.  A load from an absent backing file yields the default
    document (no last run, no courses, the three global counters 0); a load
    from a file that holds a document yields that document; a load from a
    file that does not parse raises [JSONDecodeError], and so does the
    construction of the manager. *)
Theorem load_cases :
  load None = Ok default_data
  ∧ last_run default_data = None
  ∧ courses default_data = ∅
  ∧ global_stats default_data =
      {| total_completed := 0; total_skipped := 0; total_failed := 0 |}
  ∧ (∀ d, load (Some (Document d)) = Ok d)
  ∧ load (Some Unparseable) = Raise JSONDecodeError
  ∧ ProgressManager_init (Some Unparseable) = Raise JSONDecodeError
  ∧ initial_world (Some Unparseable) = Raise JSONDecodeError.
Proof. by split_and!. Qed.

(** C5, the claim as stated fails: a backing file that does not parse does
    not load as the default document. *)
Lemma load_unparseable_not_default :
  load (Some Unparseable) ≠ Ok default_data.
Proof. discriminate. Qed.

(** ** Queries write to the in-memory ledger *)

Section Queries.
Implicit Types (pm : ProgressManager) (cid url : string).

Lemma is_activity_completed_eq cid url pm :
  is_activity_completed cid url pm =
  (str_in url (completed_activities (course_of cid pm)), ensure_course cid pm).
Proof. unfold is_activity_completed. by rewrite get_course_progress_eq. Qed.

Lemma completion_of_ensure cid cid' pm :
  completion_of (ensure_course cid pm) cid' = completion_of pm cid'.
Proof.
  unfold completion_of. rewrite !get_course_completion_percent_eq. simpl.
  by rewrite course_of_ensure_other.
Qed.

Lemma assign_priority_eq (c : Course) pm :
  assign_priority c pm = (annotate pm c, ensure_course (course_id c) pm).
Proof.
  unfold annotate, assign_priority.
  rewrite get_course_completion_percent_eq.
  destruct (Qleb 100 _); [done|]. by destruct (Qltb 0 _).
Qed.

Lemma annotate_ensure cid pm (c : Course) :
  annotate (ensure_course cid pm) c = annotate pm c.
Proof.
  unfold annotate, assign_priority.
  rewrite !get_course_completion_percent_eq, course_of_ensure_other.
  destruct (Qleb 100 _); [done|]. by destruct (Qltb 0 _).
Qed.

(** The loop annotates every course from the ledger as it was on entry,
    and leaves behind the ledger with a record ensured for every id. *)
Lemma assign_priorities_eq (l : list Course) pm :
  assign_priorities l pm =
  (map (annotate pm) l, foldl (λ pm c, ensure_course (course_id c) pm) pm l).
Proof.
  revert pm. induction l as [|c l IH]; intros pm; [done|].
  simpl. rewrite assign_priority_eq, IH. simpl. f_equal. f_equal.
  apply map_ext. intros c'. apply annotate_ensure.
Qed.

Lemma foldl_ensure_lookup (l : list Course) pm cid :
  courses (data (foldl (λ pm c, ensure_course (course_id c) pm) pm l)) !! cid =
  match courses (data pm) !! cid with
  | Some c => Some c
  | None => if bool_decide (cid ∈ map course_id l) then Some default_course else None
  end.
Proof.
  revert pm. induction l as [|c l IH]; intros pm; simpl.
  - by destruct (courses (data pm) !! cid).
  - rewrite IH, ensure_course_lookup.
    destruct (courses (data pm) !! cid) as [x|] eqn:E; [done|].
    destruct (decide (course_id c = cid)) as [Hd|Hd].
    + subst. rewrite bool_decide_eq_true_2; [done | apply elem_of_cons; by left].
    + destruct (bool_decide (cid ∈ map course_id l)) eqn:Hb.
      * apply bool_decide_eq_true in Hb.
        rewrite bool_decide_eq_true_2; [done | apply elem_of_cons; by right].
      * apply bool_decide_eq_false in Hb.
        rewrite bool_decide_eq_false_2; [done|].
        intros [?|?]%elem_of_cons; congruence.
Qed.

Lemma foldl_ensure_file (l : list Course) pm :
  file (foldl (λ pm c, ensure_course (course_id c) pm) pm l) = file pm.
Proof.
  revert pm. induction l as [|c l IH]; intros pm; simpl; [done|].
  by rewrite IH, ensure_course_file.
Qed.

Lemma ensure_course_absent cid pm :
  courses (data pm) !! cid = None →
  courses (data (ensure_course cid pm)) = <[cid := default_course]> (courses (data pm)).
Proof. intros H. unfold ensure_course. by rewrite H. Qed.
End Queries.

(** C10.  For a course id that the courses map does not hold,
    [get_course_progress], [is_activity_completed] and
    [get_course_completion_percent] insert the default record under that id
    into the in-memory document, and so does [prioritize_courses] on a list
    that holds a course with that id; the in-memory document differs from
    the one before the call, while the backing file is left as it was. *)
Theorem queries_insert_default_record (cid url : string) (pm : ProgressManager)
    (course : Course) (l : list Course) :
  courses (data pm) !! cid = None →
  course_id course = cid →
  course ∈ l →
  let inserted := <[cid := default_course]> (courses (data pm)) in
  inserted ≠ courses (data pm)
  ∧ default_course =
      {| cp_name := ""; cp_status := not_started; completed_activities := [];
         failed_activities := []; total_activities := 0; last_activity_index := 0 |}
  ∧ courses (data (get_course_progress cid pm).2) = inserted
  ∧ courses (data (is_activity_completed cid url pm).2) = inserted
  ∧ courses (data (get_course_completion_percent cid pm).2) = inserted
  ∧ courses (data (prioritize_courses l pm).2) !! cid = Some default_course
  ∧ file (get_course_progress cid pm).2 = file pm
  ∧ file (is_activity_completed cid url pm).2 = file pm
  ∧ file (get_course_completion_percent cid pm).2 = file pm
  ∧ file (prioritize_courses l pm).2 = file pm.
Proof.
  intros Habs Hid Hin inserted.
  rewrite get_course_progress_eq, is_activity_completed_eq,
    get_course_completion_percent_eq.
  unfold prioritize_courses. rewrite assign_priorities_eq. simpl.
  rewrite !ensure_course_file, foldl_ensure_file, foldl_ensure_lookup, Habs.
  rewrite ensure_course_absent by done.
  split_and!; try done.
  - intros Heq. assert (inserted !! cid = Some default_course) as Hl
      by apply lookup_insert_eq.
    rewrite Heq in Hl. congruence.
  - rewrite bool_decide_eq_true_2; [done|].
    apply list_elem_of_fmap. exists course. by split.
Qed.

Lemma queries_insert_default_record_witness :
  let course := {| course_name := "Algebra"; course_url := "https://lms.miva.university/course/view.php?id=12";
                   course_id := "12"; _priority := None; _completion := None |} in
  courses (data (get_course_progress "12" fresh_manager).2) = {[ "12" := default_course ]}
  ∧ courses (data (prioritize_courses [course] fresh_manager).2) !! "12" = Some default_course
  ∧ file (prioritize_courses [course] fresh_manager).2 = None.
Proof.
  intros course.
  destruct (queries_insert_default_record "12" "" fresh_manager course [course])
    as (_ & _ & H1 & _ & _ & H2 & _ & _ & _ & H3).
  - reflexivity.
  - reflexivity.
  - apply elem_of_cons; by left.
  - split_and!; [exact H1 | exact H2 | exact H3].
Defined.

(** * The stable sort *)

Section SortedFacts.
Context {A K : Type} (key : A → K) (lt : K → K → bool).

Lemma sorted_insert_perm (x : A) (l : list A) : sorted_insert key lt x l ≡ₚ x :: l.
Proof.
  induction l as [|y l IH]; simpl; [done|].
  destruct (lt (key y) (key x)); [|done].
  rewrite IH. apply Permutation_swap.
Qed.

Lemma sorted_perm (l : list A) : sorted key lt l ≡ₚ l.
Proof.
  induction l as [|x l IH]; simpl; [done|].
  by rewrite sorted_insert_perm, IH.
Qed.

(** Elements among which [lt] never holds keep their relative order. *)
Lemma sorted_insert_filter (P : A → Prop) `{∀ a, Decision (P a)} (x : A) (l : list A) :
  (∀ a b, P a → P b → lt (key a) (key b) = false) →
  filter P (sorted_insert key lt x l) = filter P (x :: l).
Proof.
  intros Hinc. induction l as [|y l IH]; simpl; [done|].
  destruct (lt (key y) (key x)) eqn:E; [|done].
  rewrite filter_cons, IH, !filter_cons.
  destruct (decide (P y)) as [Hy|Hy]; [|done].
  destruct (decide (P x)) as [Hx|Hx]; [|done].
  rewrite Hinc in E by done. done.
Qed.

Lemma sorted_filter (P : A → Prop) `{∀ a, Decision (P a)} (l : list A) :
  (∀ a b, P a → P b → lt (key a) (key b) = false) →
  filter P (sorted key lt l) = filter P l.
Proof.
  intros Hinc. induction l as [|x l IH]; simpl; [done|].
  rewrite sorted_insert_filter by done.
  by rewrite !filter_cons, IH.
Qed.

Hypothesis lt_asym : ∀ a b, lt a b = true → lt b a = false.
Hypothesis le_trans : ∀ a b c, lt b a = false → lt c b = false → lt c a = false.

Lemma sorted_insert_sorted (x : A) (l : list A) :
  StronglySorted (key_le key lt) l → StronglySorted (key_le key lt) (sorted_insert key lt x l).
Proof.
  induction 1 as [|y l Hl IH Hy]; simpl.
  - repeat constructor.
  - destruct (lt (key y) (key x)) eqn:E.
    + constructor; [done|].
      rewrite sorted_insert_perm. constructor; [|done].
      by apply lt_asym.
    + constructor; [by constructor|].
      constructor; [done|].
      eapply Forall_impl; [exact Hy|]. intros z Hz.
      unfold key_le in *. by eapply le_trans.
Qed.

Lemma sorted_sorted (l : list A) : StronglySorted (key_le key lt) (sorted key lt l).
Proof.
  induction l as [|x l IH]; simpl; [constructor|].
  by apply sorted_insert_sorted.
Qed.

(** A sorted list on which another stable sort of the same input could
    differ does not exist: the order of the keys and the order of the tied
    elements fix every position. *)
Lemma stable_sorted_unique (l1 l2 : list A) :
  StronglySorted (key_le key lt) l1 → StronglySorted (key_le key lt) l2 →
  (∀ a, filter (λ b, lt (key a) (key b) = false ∧ lt (key b) (key a) = false) l1 =
        filter (λ b, lt (key a) (key b) = false ∧ lt (key b) (key a) = false) l2) →
  l1 = l2.
Proof.
  intros H1. revert l2. induction H1 as [|x l1 Hl1 IH Hx]; intros l2 H2 Hf.
  - destruct l2 as [|y l2]; [done|]. specialize (Hf y).
    rewrite filter_nil, filter_cons in Hf.
    assert (Hyy : lt (key y) (key y) = false).
    { destruct (lt (key y) (key y)) eqn:E; [|done]. by rewrite (lt_asym _ _ E) in E. }
    rewrite decide_True in Hf by done. done.
  - assert (Hxx : lt (key x) (key x) = false).
    { destruct (lt (key x) (key x)) eqn:E; [|done]. by rewrite (lt_asym _ _ E) in E. }
    destruct l2 as [|y l2].
    { specialize (Hf x). rewrite filter_cons, decide_True in Hf by done. done. }
    assert (Hyy : lt (key y) (key y) = false).
    { destruct (lt (key y) (key y)) eqn:E; [|done]. by rewrite (lt_asym _ _ E) in E. }
    apply StronglySorted_inv in H2 as [H2 Hy].
    assert (Hxy : lt (key x) (key y) = false ∧ lt (key y) (key x) = false).
    { split.
      - pose proof (Hf x) as Hfx. rewrite filter_cons, decide_True in Hfx by done.
        assert (Hin : x ∈ filter (λ b, lt (key x) (key b) = false ∧ lt (key b) (key x) = false)
                           (y :: l2)) by (rewrite <- Hfx; apply elem_of_cons; by left).
        apply list_elem_of_filter in Hin as [_ Hin].
        apply elem_of_cons in Hin as [->|Hin]; [done|].
        rewrite Forall_forall in Hy. specialize (Hy _ Hin).
        destruct (lt (key x) (key y)) eqn:E; [|done].
        (* y <= x in l2 and x < y is impossible *)
        unfold key_le in Hy. congruence.
      - pose proof (Hf y) as Hfy.
        rewrite (filter_cons _ y l2), decide_True in Hfy by done.
        assert (Hin : y ∈ filter (λ b, lt (key y) (key b) = false ∧ lt (key b) (key y) = false)
                           (x :: l1)) by (rewrite Hfy; apply elem_of_cons; by left).
        apply list_elem_of_filter in Hin as [_ Hin].
        apply elem_of_cons in Hin as [->|Hin]; [done|].
        rewrite Forall_forall in Hx. specialize (Hx _ Hin).
        destruct (lt (key y) (key x)) eqn:E; [|done].
        unfold key_le in Hx. congruence. }
    assert (x = y) as <-.
    { pose proof (Hf x) as Hfx.
      rewrite !filter_cons, !decide_True in Hfx by done. congruence. }
    f_equal. apply IH; [done|]. intros a. specialize (Hf a).
    rewrite !filter_cons in Hf. case_decide; [congruence | done].
Qed.
End SortedFacts.

(** * The course prioritizer *)

Lemma Qltb_spec (x y : Q) : Qltb x y = true ↔ (x < y)%Q.
Proof.
  unfold Qltb. rewrite Qlt_alt. destruct (x ?= y)%Q; split; congruence.
Qed.

Lemma Qleb_spec (x y : Q) : Qleb x y = true ↔ (x <= y)%Q.
Proof.
  unfold Qleb. rewrite Qle_alt. destruct (x ?= y)%Q; split; congruence.
Qed.

Lemma Qltb_false (x y : Q) : Qltb x y = false ↔ (y <= x)%Q.
Proof.
  rewrite <- not_true_iff_false, Qltb_spec. split.
  - apply Qnot_lt_le.
  - apply Qle_not_lt.
Qed.

Lemma Qleb_false (x y : Q) : Qleb x y = false ↔ (y < x)%Q.
Proof.
  rewrite <- not_true_iff_false, Qleb_spec. split.
  - apply Qnot_le_lt.
  - apply Qlt_not_le.
Qed.

Lemma key_lt_spec (k1 k2 : nat * Q) :
  key_lt k1 k2 = true ↔ k1.1 < k2.1 ∨ (k1.1 = k2.1 ∧ (k1.2 < k2.2)%Q).
Proof.
  unfold key_lt. destruct (Nat.eqb_spec k1.1 k2.1) as [He|Hne].
  - destruct (Qeq_bool k1.2 k2.2) eqn:E.
    + apply Qeq_bool_iff in E. split; [done|].
      intros [?|[_ Hlt]]; [lia|]. rewrite E in Hlt. by apply Qlt_irrefl in Hlt.
    + rewrite Qltb_spec. split; [by right|]. intros [?|[_ ?]]; [lia | done].
  - rewrite Nat.ltb_lt. split; [by left|]. intros [?|[? _]]; done.
Qed.

Lemma key_lt_false (k1 k2 : nat * Q) :
  key_lt k1 k2 = false ↔ k2.1 < k1.1 ∨ (k1.1 = k2.1 ∧ (k2.2 <= k1.2)%Q).
Proof.
  rewrite <- not_true_iff_false, key_lt_spec. split.
  - intros H. destruct (lt_eq_lt_dec k1.1 k2.1) as [[Hlt|Heq]|Hgt].
    + exfalso. apply H. by left.
    + right. split; [done|]. apply Qnot_lt_le. intros Hq. apply H. by right.
    + by left.
  - intros [Hgt|[Heq Hle]] [Hlt|[Heq' Hlt]]; try lia.
    by apply Qle_not_lt in Hle.
Qed.

Lemma key_lt_asym (a b : nat * Q) : key_lt a b = true → key_lt b a = false.
Proof.
  rewrite key_lt_spec, key_lt_false. intros [?|[? ?]]; [by left|].
  right. split; [done|]. by apply Qlt_le_weak.
Qed.

Lemma key_le_trans (a b c : nat * Q) :
  key_lt b a = false → key_lt c b = false → key_lt c a = false.
Proof.
  rewrite !key_lt_false. intros [?|[? Hq1]] [?|[? Hq2]].
  - left; lia.
  - left; lia.
  - left; lia.
  - right. split; [lia|]. by eapply Qle_trans.
Qed.

Lemma key_le_precedes (c1 c2 : Course) :
  key_le sort_key key_lt c1 c2 ↔ precedes c1 c2.
Proof.
  unfold key_le, precedes. rewrite key_lt_false. unfold sort_key, rank, stored_completion.
  simpl. split.
  - intros [?|[? Hq]]; [by left|]. right. split; [done|].
    by apply Qopp_le_compat in Hq; rewrite !Qopp_involutive in Hq.
  - intros [?|[? Hq]]; [by left|]. right. split; [done|].
    by apply Qopp_le_compat.
Qed.

Lemma StronglySorted_impl {A} (R R' : A → A → Prop) (l : list A) :
  (∀ x y, R x y → R' x y) → StronglySorted R l → StronglySorted R' l.
Proof.
  intros HR. induction 1 as [|x l Hl IH Hx]; constructor; [done|].
  eapply Forall_impl; [exact Hx|]. auto.
Qed.

Lemma ties_incomparable (c a b : Course) :
  ties c a = true → ties c b = true → key_lt (sort_key a) (sort_key b) = false.
Proof.
  unfold ties. rewrite !andb_true_iff, !Nat.eqb_eq, !Qeq_bool_iff.
  intros [Hr1 Hq1] [Hr2 Hq2]. rewrite key_lt_false. right.
  unfold sort_key, rank, stored_completion in *. simpl. split; [congruence|].
  apply Qopp_le_compat. rewrite <- Hq1, <- Hq2. apply Qle_refl.
Qed.

(** What the loop writes on a course, from the percent of the course in
    the ledger as it is when [prioritize_courses] is called. *)
Lemma annotate_eq (pm : ProgressManager) (c : Course) :
  annotate pm c =
  let pct := completion_of pm (course_id c) in
  if Qleb 100 pct then set_priority 3 pct c
  else if Qltb 0 pct then set_priority 1 pct c
  else set_priority 2 0%Q c.
Proof.
  unfold annotate, assign_priority, completion_of.
  destruct (get_course_completion_percent (course_id c) pm) as [pct pm1]. simpl.
  destruct (Qleb 100 pct); [done|]. by destruct (Qltb 0 pct).
Qed.

Lemma completion_of_nonneg (pm : ProgressManager) (cid : string) :
  (0 <= completion_of pm cid)%Q.
Proof.
  unfold completion_of. rewrite get_course_completion_percent_eq. simpl.
  destruct (_ =? _)%nat; [done | apply percent_nonneg].
Qed.

Lemma annotate_bucket (pm : ProgressManager) (c : Course) :
  plain (annotate pm c) = plain c
  ∧ in_bucket (completion_of pm (course_id c)) (rank (annotate pm c))
  ∧ (stored_completion (annotate pm c) == completion_of pm (course_id c))%Q.
Proof.
  rewrite annotate_eq. simpl.
  pose proof (completion_of_nonneg pm (course_id c)) as Hnn.
  destruct (Qleb 100 _) eqn:E1; [|destruct (Qltb 0 _) eqn:E2].
  - apply Qleb_spec in E1. split_and!; [done| |done].
    right; right. done.
  - apply Qleb_false in E1. apply Qltb_spec in E2. split_and!; [done| |done].
    left. done.
  - apply Qltb_false in E2.
    assert (completion_of pm (course_id c) == 0)%Q as H0 by (by apply Qle_antisym).
    split_and!; [done| |by rewrite H0].
    right; left. done.
Qed.

Lemma Qleb_proper (x y y' : Q) : (y == y')%Q → Qleb x y = Qleb x y'.
Proof. intros H. unfold Qleb. by rewrite H. Qed.

Lemma Qltb_proper (x y y' : Q) : (y == y')%Q → Qltb x y = Qltb x y'.
Proof. intros H. unfold Qltb. by rewrite H. Qed.

(** C4.  [prioritize_courses] returns the courses of its input, each with
    the bucket of its completion percent (bucket 1: above 0 and below 100;
    bucket 2: 0; bucket 3: at least 100) and that percent written on it;
    the output is a permutation of the input so annotated, sorted by
    ascending bucket and then by descending percent, and courses of equal
    bucket and percent stand in their input order.  In particular, in a
    ledger where course A is at 40 percent and course B at 0, the list
    [B, A] comes back as [A, B]. *)
Theorem prioritize_courses_order (l : list Course) (pm : ProgressManager) :
  let out := (prioritize_courses l pm).1 in
  let annotated := map (annotate pm) l in
  Forall2 (λ c c', plain c' = plain c
                   ∧ in_bucket (completion_of pm (course_id c)) (rank c')
                   ∧ (stored_completion c' == completion_of pm (course_id c))%Q)
          l annotated
  ∧ out ≡ₚ annotated
  ∧ StronglySorted precedes out
  ∧ (∀ c, filter (λ c', ties c c' = true) out = filter (λ c', ties c c' = true) annotated)
  ∧ (∀ A B, (completion_of pm (course_id A) == 40)%Q →
            (completion_of pm (course_id B) == 0)%Q →
            (prioritize_courses [B; A] pm).1 = [annotate pm A; annotate pm B]
            ∧ map plain (prioritize_courses [B; A] pm).1 = [plain A; plain B]).
Proof.
  intros out annotated.
  assert (out = sorted sort_key key_lt annotated) as ->.
  { subst out. unfold prioritize_courses. by rewrite assign_priorities_eq. }
  split_and!.
  - subst annotated. apply Forall2_fmap_r, Forall_Forall2_diag, Forall_forall.
    intros c _. apply annotate_bucket.
  - apply sorted_perm.
  - eapply StronglySorted_impl; [intros x y; apply key_le_precedes|].
    apply sorted_sorted; [apply key_lt_asym | apply key_le_trans].
  - intros c. apply sorted_filter. intros a b. apply ties_incomparable.
  - intros A B HA HB. unfold prioritize_courses.
    rewrite assign_priorities_eq. cbn [fst map sorted sorted_insert].
    assert (key_lt (sort_key (annotate pm A)) (sort_key (annotate pm B)) = true) as Hlt.
    { apply key_lt_spec. left. rewrite !annotate_eq. simpl.
      rewrite (Qleb_proper _ _ _ HA), (Qltb_proper _ _ _ HA).
      rewrite (Qleb_proper _ _ _ HB), (Qltb_proper _ _ _ HB).
      vm_compute. lia. }
    rewrite Hlt. split; [done|]. cbn [map].
    by rewrite !(proj1 (annotate_bucket _ _)).
Qed.

Lemma prioritize_courses_order_witness :
  (prioritize_courses [course_B; course_A] resumed_manager).1 =
    [annotate resumed_manager course_A; annotate resumed_manager course_B]
  ∧ map plain (prioritize_courses [course_B; course_A] resumed_manager).1 =
    [course_A; course_B].
Proof.
  apply (prioritize_courses_order [] resumed_manager); vm_compute; reflexivity.
Defined.

(** The output is the only list that is sorted by the key and keeps the
    tied courses of the annotated input in their order: whichever stable
    sort [sorted] runs, this is its answer. *)
Lemma prioritize_courses_unique (l out' : list Course) (pm : ProgressManager) :
  StronglySorted (key_le sort_key key_lt) out' →
  (∀ a, filter (λ c, key_lt (sort_key a) (sort_key c) = false
                     ∧ key_lt (sort_key c) (sort_key a) = false) out' =
        filter (λ c, key_lt (sort_key a) (sort_key c) = false
                     ∧ key_lt (sort_key c) (sort_key a) = false) (map (annotate pm) l)) →
  out' = (prioritize_courses l pm).1.
Proof.
  intros Hsorted Hstable. unfold prioritize_courses. rewrite assign_priorities_eq. simpl.
  apply (stable_sorted_unique sort_key key_lt key_lt_asym); [done| |].
  - apply sorted_sorted; [apply key_lt_asym | apply key_le_trans].
  - intros a. rewrite Hstable. symmetry. apply sorted_filter.
    intros x y [_ Hx] [Hy _]. by eapply key_le_trans.
Qed.

(** * The retry controller *)

Section Retry.
Context (cfg : Config) (b : Browser) (page : nat) (a : Activity) (cn cid : string).

Lemma dispatch_eq (w : World) :
  dispatch b page a cn cid w =
  resume_kind (kind_of a) (error_prefix a) b a cn cid (await (Goto page (a_url a)) w).
Proof.
  unfold dispatch, kind_of, error_prefix, process_page, process_url, process_forum,
    process_kind.
  repeat case_bool_decide; done.
Qed.

Lemma resume_dispatch_eq (w : World) :
  resume_dispatch b a cn cid w = resume_kind (kind_of a) (error_prefix a) b a cn cid w.
Proof.
  unfold resume_dispatch, kind_of, error_prefix.
  repeat case_bool_decide; done.
Qed.

Lemma advance_cons (e : Event) (evs : list Event) (w : World) :
  advance (e :: evs) w = advance evs (await e w).
Proof. done. Qed.

Lemma advance_fields (evs : list Event) (w : World) :
  progress (advance evs w) = progress w
  ∧ stats (advance evs w) = stats w
  ∧ next_page (advance evs w) = next_page w
  ∧ clock (advance evs w) = clock w + length evs
  ∧ trace (advance evs w) = trace w ++ evs.
Proof.
  revert w. induction evs as [|e evs IH]; intros w.
  - simpl. by rewrite Nat.add_0_r, app_nil_r.
  - rewrite advance_cons. destruct (IH (await e w)) as (-> & -> & -> & -> & ->).
    simpl. split_and!; first [done | lia | by rewrite <- app_assoc].
Qed.

Lemma length_retry_events (url : string) (n : nat) :
  length (retry_events page url n) = 2 * n.
Proof. induction n as [|n IH]; simpl; [done|]. rewrite IH. lia. Qed.

(** The loop when the visit fails at [k] attempts and then succeeds. *)
Lemma retry_loop_success (k remaining attempt : nat) (w : World) :
  attempt + remaining = max_retries cfg + 1 →
  k < remaining →
  (∀ i, i < k → navigate b (a_url a) (clock w + 2 * i + 1) ≠ None) →
  navigate b (a_url a) (clock w + 2 * k + 1) = None →
  retry_loop cfg b page a cn cid remaining attempt w =
  (true, record_completed (kind_of a) a cn cid
           (advance (Goto page (a_url a) :: retry_events page (a_url a) k) w)).
Proof.
  revert remaining attempt w. induction k as [|k IH]; intros remaining attempt w Hsum Hk Hfail Hok.
  - destruct remaining as [|r]; [lia|]. simpl.
    rewrite dispatch_eq. unfold resume_kind. simpl.
    assert (S (clock w) = clock w + 2 * 0 + 1) as -> by lia. by rewrite Hok.
  - destruct remaining as [|r]; [lia|]. simpl.
    rewrite dispatch_eq. unfold resume_kind. simpl.
    destruct (navigate b (a_url a) (S (clock w))) as [e|] eqn:E.
    2:{ exfalso. apply (Hfail 0); [lia|]. rewrite <- E. f_equal. lia. }
    assert ((attempt <? max_retries cfg) = true) as -> by (apply Nat.ltb_lt; lia).
    rewrite (IH r (S attempt)).
    + done.
    + lia.
    + lia.
    + intros i Hi Hn. apply (Hfail (S i)); [lia|]. rewrite <- Hn. f_equal. simpl. lia.
    + rewrite <- Hok. f_equal. simpl. lia.
Qed.

(** The loop when every visit fails. *)
Lemma retry_loop_exhausted (n attempt : nat) (w : World) :
  attempt + S n = max_retries cfg + 1 →
  (∀ t, navigate b (a_url a) t ≠ None) →
  ∃ e, navigate b (a_url a) (clock w + 2 * n + 1) = Some e
       ∧ retry_loop cfg b page a cn cid (S n) attempt w =
         (false, record_failure page a cn cid (error_prefix a +:+ e)
                   (advance (Goto page (a_url a) :: retry_events page (a_url a) n) w)).
Proof.
  intros Hsum Hfail. revert attempt w Hsum.
  induction n as [|n IH]; intros attempt w Hsum.
  - cbn [retry_loop]. rewrite dispatch_eq. unfold resume_kind. cbn [clock await].
    destruct (navigate b (a_url a) (S (clock w))) as [e|] eqn:E; [|by apply Hfail in E].
    assert ((attempt <? max_retries cfg) = false) as -> by (apply Nat.ltb_ge; lia).
    exists e. split; [|done]. rewrite <- E. f_equal. lia.
  - remember (S n) as m eqn:Hm. cbn [retry_loop]. subst m.
    rewrite dispatch_eq. unfold resume_kind. cbn [clock await].
    destruct (navigate b (a_url a) (S (clock w))) as [e|] eqn:E; [|by apply Hfail in E].
    assert ((attempt <? max_retries cfg) = true) as -> by (apply Nat.ltb_lt; lia).
    destruct (IH (S attempt) (await (RetrySleep page) (await (Goto page (a_url a)) w)))
      as (e' & He' & ->); [lia|].
    exists e'. split; [|reflexivity]. rewrite <- He'. f_equal. cbn [clock await]. lia.
Qed.
End Retry.

Section RetryEffects.
Context (page : nat) (a : Activity) (cn cid : string).

Lemma mark_activity_failed_course (now : timestamp) (url e : string) (pm : ProgressManager) :
  course_of cid (mark_activity_failed now cid url e pm) =
  append_failed {| f_url := url; f_error := e; f_timestamp := now |} (course_of cid pm).
Proof.
  unfold mark_activity_failed. rewrite get_course_progress_eq, course_of_save.
  rewrite course_of_update by (by rewrite ensure_course_present, course_of_ensure).
  by rewrite course_of_ensure.
Qed.

Lemma mark_activity_failed_other (now : timestamp) (cid' url e : string) (pm : ProgressManager) :
  cid' ≠ cid → course_of cid' (mark_activity_failed now cid url e pm) = course_of cid' pm.
Proof.
  intros Hne. unfold mark_activity_failed. rewrite get_course_progress_eq, course_of_save.
  by rewrite course_of_update_ne, course_of_ensure_other.
Qed.

Lemma attempts_made_retry_events (url : string) (n : nat) (tail : list Event) :
  attempts_made page url (retry_events page url n ++ tail) = n + attempts_made page url tail.
Proof.
  unfold attempts_made. induction n as [|n IH]; [done|].
  cbn [retry_events app]. rewrite !filter_cons.
  rewrite decide_False by done. rewrite decide_True by done.
  simpl. by rewrite IH.
Qed.

Lemma pauses_made_retry_events (url : string) (n : nat) (tail : list Event) :
  pauses_made page (retry_events page url n ++ tail) = n + pauses_made page tail.
Proof.
  unfold pauses_made. induction n as [|n IH]; [done|].
  cbn [retry_events app]. rewrite !filter_cons.
  rewrite decide_True by done. rewrite decide_False by done.
  simpl. by rewrite IH.
Qed.
End RetryEffects.

(** C2.  For an activity that is neither completed nor skip-eligible and a
    positive [max_retries]: if every visit fails, the work is executed
    exactly [max_retries] times with a one-second pause between two
    attempts, exactly one failure record (url, error, timestamp) is appended
    to the failed list of the course, nothing else in the ledger changes,
    and the answer is [False]; if the visit succeeds at some attempt after
    failing at the ones before, the answer is [True] right after that
    attempt, with no failure record. *)
Theorem retry_ceiling (cfg : Config) (b : Browser) (page : nat) (a : Activity)
    (cn cid : string) (w : World) :
  is_completed a = false →
  should_skip a = false →
  max_retries cfg ≠ 0 →
  let url := a_url a in
  let run := process_activity_with_retry cfg b page a cn cid w in
  ((∀ t, navigate b url t ≠ None) →
   ∃ e t added,
     run.1 = false
     ∧ trace run.2 = trace w ++ added
     ∧ added = Goto page url :: retry_events page url (max_retries cfg - 1)
                 ++ [Screenshot page (screenshot_name cid a)]
     ∧ attempts_made page url added = max_retries cfg
     ∧ pauses_made page added = max_retries cfg - 1
     ∧ failed_activities (course_of cid (progress run.2)) =
         failed_activities (course_of cid (progress w))
           ++ [ {| f_url := url; f_error := e; f_timestamp := t |} ]
     ∧ completed_activities (course_of cid (progress run.2)) =
         completed_activities (course_of cid (progress w))
     ∧ (∀ cid', cid' ≠ cid → course_of cid' (progress run.2) = course_of cid' (progress w))
     ∧ activities_failed (stats run.2) = activities_failed (stats w) + 1
     ∧ activities_completed (stats run.2) = activities_completed (stats w))
  ∧ (∀ k, k < max_retries cfg →
          (∀ i, i < k → navigate b url (clock w + 2 * i + 1) ≠ None) →
          navigate b url (clock w + 2 * k + 1) = None →
          run.1 = true
          ∧ trace run.2 = trace w ++ Goto page url :: retry_events page url k
          ∧ attempts_made page url (Goto page url :: retry_events page url k) = S k
          ∧ failed_activities (course_of cid (progress run.2)) =
              failed_activities (course_of cid (progress w))
          ∧ url ∈ completed_activities (course_of cid (progress run.2))
          ∧ activities_failed (stats run.2) = activities_failed (stats w)).
Proof.
  intros Hc Hs Hmax url run. subst url run.
  unfold process_activity_with_retry. rewrite Hc, Hs.
  destruct (max_retries cfg) as [|n] eqn:Hn; [done|]. split.
  - intros Hfail.
    destruct (retry_loop_exhausted cfg b page a cn cid n 1 w) as (e & He & Hrun);
      [lia | done |].
    rewrite Hrun. cbn [fst snd].
    destruct (advance_fields (Goto page (a_url a) :: retry_events page (a_url a) n) w)
      as (Hp & Hst & _ & Hclk & Htr).
    remember (advance (Goto page (a_url a) :: retry_events page (a_url a) n) w) as w1 eqn:Hw1.
    exists (error_prefix a +:+ e), (clock w1), (Goto page (a_url a) :: retry_events page (a_url a) n
                                                   ++ [Screenshot page (screenshot_name cid a)]).
    unfold record_failure. cbn [trace progress stats await with_progress with_stats clock].
    rewrite Nat.sub_succ, Nat.sub_0_r. split_and!.
    + done.
    + rewrite Htr. by rewrite <- app_assoc.
    + done.
    + unfold attempts_made at 1. rewrite filter_cons, decide_True by done.
      cbn [length]. fold (attempts_made page (a_url a) (retry_events page (a_url a) n
                                                  ++ [Screenshot page (screenshot_name cid a)])).
      rewrite attempts_made_retry_events. unfold attempts_made.
      rewrite filter_cons, decide_False by done. simpl. lia.
    + unfold pauses_made at 1. rewrite filter_cons, decide_False by done.
      fold (pauses_made page (retry_events page (a_url a) n
                              ++ [Screenshot page (screenshot_name cid a)])).
      rewrite pauses_made_retry_events. unfold pauses_made.
      rewrite filter_cons, decide_False by done. simpl. lia.
    + rewrite mark_activity_failed_course. simpl. by rewrite Hp.
    + rewrite mark_activity_failed_course. simpl. by rewrite Hp.
    + intros cid' Hne. rewrite mark_activity_failed_other by done. by rewrite Hp.
    + simpl. by rewrite Hst.
    + simpl. by rewrite Hst.
  - intros k Hk Hfail Hok.
    rewrite (retry_loop_success cfg b page a cn cid k (S n) 1 w) by (done || lia).
    cbn [fst snd].
    destruct (advance_fields (Goto page (a_url a) :: retry_events page (a_url a) k) w)
      as (Hp & Hst & _ & Hclk & Htr).
    remember (advance (Goto page (a_url a) :: retry_events page (a_url a) k) w) as w1 eqn:Hw1.
    unfold record_completed. cbn [trace progress stats with_progress with_stats clock].
    split_and!.
    + done.
    + done.
    + unfold attempts_made. rewrite filter_cons, decide_True by done.
      cbn [length]. f_equal.
      pose proof (attempts_made_retry_events page (a_url a) k []) as Hcount.
      rewrite app_nil_r in Hcount. unfold attempts_made in Hcount.
      rewrite Hcount. simpl. lia.
    + unfold mark_activity_completed. rewrite get_course_progress_eq.
      rewrite course_of_save. rewrite Hp.
      destruct (negb _).
      * rewrite course_of_update by (by rewrite ensure_course_present, course_of_ensure).
        simpl. by rewrite course_of_ensure.
      * by rewrite course_of_ensure.
    + apply mark_activity_completed_elem.
    + simpl. by rewrite Hst.
Qed.

Lemma retry_ceiling_witness :
  let run := process_activity_with_retry CONFIG failing_browser 7 page_activity
               "Algebra" "12" fresh_world in
  run.1 = false
  ∧ attempts_made 7 (a_url page_activity) (trace run.2) = 3
  ∧ pauses_made 7 (trace run.2) = 2
  ∧ length (failed_activities (course_of "12" (progress run.2))) = 1.
Proof.
  intros run.
  destruct (retry_ceiling CONFIG failing_browser 7 page_activity "Algebra" "12" fresh_world)
    as [Hfail _].
  - reflexivity.
  - reflexivity.
  - simpl. lia.
  - destruct Hfail as (e & t & added & Hr & Htr & Hadd & Hn & Hp & Hf & _).
    + intros t. simpl. discriminate.
    + fold run in Hr, Htr, Hf. rewrite Htr, Hf. split_and!; [exact Hr|exact Hn|exact Hp|reflexivity].
Defined.

(** * The short-circuit of skipped and completed activities *)

(** C8.  For an activity that is skip-eligible or already completed,
    [process_activity_with_retry] answers [True] without a single call on
    the browser and without a pause: the trace, the clock and the ledger
    are as before, so no attempt is made and no failure record is written;
    the counters of completed and failed activities and the error list are
    as before.  An already completed activity changes no statistic at all;
    a skip-eligible one that is not completed adds one to the skipped tally
    and its name to the quiz or the assignment list when its type says
    quiz or assign, and nothing otherwise. *)
Theorem skip_short_circuit (cfg : Config) (b : Browser) (page : nat) (a : Activity)
    (cn cid : string) (w : World) :
  should_skip a = true ∨ is_completed a = true →
  let run := process_activity_with_retry cfg b page a cn cid w in
  let counted := contains "quiz" (a_type a) || contains "assign" (a_type a) in
  run.1 = true
  ∧ trace run.2 = trace w
  ∧ clock run.2 = clock w
  ∧ progress run.2 = progress w
  ∧ activities_completed (stats run.2) = activities_completed (stats w)
  ∧ stats_completed_activities (stats run.2) = stats_completed_activities (stats w)
  ∧ activities_failed (stats run.2) = activities_failed (stats w)
  ∧ errors (stats run.2) = errors (stats w)
  ∧ courses_processed (stats run.2) = courses_processed (stats w)
  ∧ (if is_completed a then stats run.2 = stats w
     else activities_skipped (stats run.2) =
            activities_skipped (stats w) + (if counted then 1 else 0)
          ∧ quizzes_found (stats run.2) =
              (if contains "quiz" (a_type a)
               then quizzes_found (stats w) ++ [(cn, a_name a)]
               else quizzes_found (stats w))
          ∧ assignments_found (stats run.2) =
              (if contains "quiz" (a_type a) then assignments_found (stats w)
               else if contains "assign" (a_type a)
                    then assignments_found (stats w) ++ [(cn, a_name a)]
                    else assignments_found (stats w))).
Proof.
  intros Hskip run counted. subst run counted.
  unfold process_activity_with_retry.
  destruct (is_completed a) eqn:Hc.
  - by split_and!.
  - destruct Hskip as [Hs|Hs]; [|done]. rewrite Hs.
    destruct (contains "quiz" (a_type a)) eqn:Hq;
      [|destruct (contains "assign" (a_type a)) eqn:Ha].
    + split_and!; first [done | simpl; lia].
    + split_and!; first [done | simpl; lia].
    + split_and!; first [done | simpl; lia].
Qed.

Lemma skip_short_circuit_witness :
  let run := process_activity_with_retry CONFIG failing_browser 7 quiz_activity
               "Algebra" "12" fresh_world in
  run.1 = true
  ∧ trace run.2 = []
  ∧ progress run.2 = fresh_manager
  ∧ activities_failed (stats run.2) = 0
  ∧ activities_skipped (stats run.2) = 1
  ∧ quizzes_found (stats run.2) = [("Algebra", "Quiz 1")].
Proof.
  intros run.
  destruct (skip_short_circuit CONFIG failing_browser 7 quiz_activity "Algebra" "12" fresh_world)
    as (H1 & H2 & _ & H3 & _ & _ & H4 & _ & _ & H5 & H6 & _).
  - left. reflexivity.
  - split_and!; [exact H1 | exact H2 | exact H3 | exact H4 | exact H5 | exact H6].
Defined.

(** * The status of a processed course *)

Lemma update_course_status_eq (cid : string) (w : World) :
  progress (update_course_status cid w) =
  save (clock w)
    (update_course cid (update_status (completion_of (progress w) cid))
       (ensure_course cid (progress w))).
Proof.
  unfold update_course_status, completion_of.
  rewrite get_course_completion_percent_eq. done.
Qed.

Lemma process_activities_parallel_run_ok (cfg : Config) (b : Browser)
    (activities : list Activity) (cn cid : string) (w : World) :
  parallel_tabs cfg ≠ 0 →
  (process_activities_parallel cfg b activities cn cid w).1.1 = None.
Proof.
  intros Hw. unfold process_activities_parallel.
  destruct (filter _ activities); [done|].
  rewrite (proj2 (Nat.eqb_neq _ _) Hw).
  by destruct (run_batches _ _ _ _ _ _ _).
Qed.

(** When the course page opens, activities are found and the batch loop
    does not raise (a positive [parallel_tabs]), [process_course] ends its
    [try] block in the status update. *)
Lemma process_course_body_reaches_update (cfg : Config) (b : Browser) (page : nat)
    (course : Course) (w : World) (activities : list Activity) (pm1 : ProgressManager) :
  navigate b (course_url course) (S (clock w)) = None →
  discover_activities cfg (locate_activities b (course_url course)) (course_id course)
    (progress w) = (activities, pm1) →
  activities ≠ [] →
  parallel_tabs cfg ≠ 0 →
  let pm4 :=
    update_course (course_id course)
      (set_total_activities (length (filter (λ a, should_skip a = false) activities)))
      (update_course (course_id course) (set_name (course_name course))
         (ensure_course (course_id course) pm1)) in
  let w4 := with_progress pm4 (await (Goto page (course_url course)) w) in
  process_course_body cfg b page course w =
  update_course_status (course_id course)
    (process_activities_parallel cfg b activities (course_name course) (course_id course) w4).2.
Proof.
  intros Hnav Hdisc Hne Hw pm4 w4. unfold process_course_body.
  cbn [clock await progress]. rewrite Hnav, Hdisc.
  destruct activities as [|a0 rest]; [done|].
  rewrite get_course_progress_eq.
  match goal with
  | |- context [process_activities_parallel cfg b _ _ _ ?w0] => change w0 with w4
  end.
  pose proof (process_activities_parallel_run_ok cfg b (a0 :: rest)
                (course_name course) (course_id course) w4 Hw) as Hexn.
  destruct (process_activities_parallel cfg b (a0 :: rest) _ _ w4) as [[exn res] w5].
  simpl in Hexn. by rewrite Hexn.
Qed.

(** C6, as amended.  The status update that ends the processing of a
    course writes "completed" when the completion percent is at least 100
    and "in_progress" when it is above 0 and below 100; when the percent is
    0 the status is left as it was.  The ledger is saved right after, so
    the persisted record is the in-memory one. *)
Theorem update_course_status_cases (cid : string) (w : World) :
  let pct := completion_of (progress w) cid in
  let w' := update_course_status cid w in
  persisted_course cid w' = Some (course_of cid (progress w'))
  ∧ ((100 <= pct)%Q → cp_status (course_of cid (progress w')) = completed)
  ∧ ((0 < pct)%Q → (pct < 100)%Q → cp_status (course_of cid (progress w')) = in_progress)
  ∧ ((pct == 0)%Q →
       cp_status (course_of cid (progress w')) = cp_status (course_of cid (progress w))).
Proof.
  intros pct w'. subst w'.
  assert (Hc : course_of cid (progress (update_course_status cid w)) =
               update_status pct (course_of cid (progress w))).
  { rewrite update_course_status_eq, course_of_save.
    rewrite course_of_update by (by rewrite ensure_course_present, course_of_ensure).
    by rewrite course_of_ensure. }
  split_and!.
  - unfold persisted_course, course_of. rewrite update_course_status_eq. simpl.
    rewrite lookup_alter_eq, ensure_course_present. done.
  - intros H. rewrite Hc. unfold update_status.
    by rewrite (proj2 (Qleb_spec 100 pct) H).
  - intros H0 H100. rewrite Hc. unfold update_status.
    by rewrite (proj2 (Qleb_false 100 pct) H100), (proj2 (Qltb_spec 0 pct) H0).
  - intros H0. rewrite Hc. unfold update_status.
    rewrite (Qleb_proper _ _ _ H0), (Qltb_proper _ _ _ H0). done.
Qed.

Lemma update_course_status_cases_witness :
  let w := with_progress resumed_manager fresh_world in
  cp_status (course_of "1" (progress (update_course_status "1" w))) = in_progress
  ∧ persisted_course "1" (update_course_status "1" w)
    = Some (course_of "1" (progress (update_course_status "1" w))).
Proof.
  intros w.
  destruct (update_course_status_cases "1" w) as (Hp & _ & Hin & _).
  split; [|exact Hp].
  apply Hin; vm_compute; reflexivity.
Defined.

(** C6, the claim as stated fails: a course whose only activity fails at
    every attempt is processed, its completion percent is 0, and its
    persisted status is still "not_started". *)
Lemma process_course_all_failed_not_started :
  let w' := process_course CONFIG stuck_browser course_12 fresh_world in
  courses_processed (stats w') = 1
  ∧ (completion_of (progress w') "12" == 0)%Q
  ∧ cp_status <$> persisted_course "12" w' = Some not_started
  ∧ cp_status <$> persisted_course "12" w' ≠ Some in_progress.
Proof. vm_compute. split_and!; done. Qed.

(** * Resuming across runs *)

(** C7, at a relative href, along the course loop of [main].  The course
    has two activities behind relative links.  In the first run the first
    one is completed and stored with the base url in front, the second one
    fails, and the course is left at 50 percent.  The program is started
    again on the ledger file: the course loop does not skip the course, the
    discovery looks the bare href up, does not find it, and the completed
    activity is visited and counted once more. *)
Theorem resume_misses_relative_href :
  let w1 := process_courses CONFIG half_working_browser [course_12] fresh_world in
  ∃ restarted,
    initial_world (file (progress w1)) = Ok restarted
    ∧ let w2 := process_courses CONFIG half_working_browser [course_12] restarted in
      completed_activities (course_of "12" (progress restarted)) =
        ["https://lms.miva.university/mod/page/view.php?id=7"]
      ∧ (completion_of (progress restarted) "12" == 50)%Q
      ∧ (is_activity_completed "12" "/mod/page/view.php?id=7" (progress restarted)).1
        = false
      ∧ map is_completed
          (discover_activities CONFIG
             (locate_activities half_working_browser (course_url course_12)) "12"
             (progress restarted)).1 = [false; false]
      ∧ trace w2 =
          [NewPage 0; Goto 0 "https://lms.miva.university/course/view.php?id=12";
           NewPage 1; NewPage 2;
           Start 1 "https://lms.miva.university/mod/page/view.php?id=7";
           Goto 1 "https://lms.miva.university/mod/page/view.php?id=7"; Done 1 true;
           Start 2 "https://lms.miva.university/mod/page/view.php?id=8";
           Goto 2 "https://lms.miva.university/mod/page/view.php?id=8"; RetrySleep 2;
           Goto 2 "https://lms.miva.university/mod/page/view.php?id=8"; RetrySleep 2;
           Goto 2 "https://lms.miva.university/mod/page/view.php?id=8";
           Screenshot 2 "error_12_page"; Done 2 false;
           ClosePage 1; ClosePage 2; BatchDelay; ClosePage 0; CourseDelay]
      ∧ activities_completed (stats w2) = 1
      ∧ completed_activities (course_of "12" (progress w2)) =
          ["https://lms.miva.university/mod/page/view.php?id=7"].
Proof.
  eexists. split; [vm_compute; reflexivity|].
  vm_compute. split_and!; reflexivity.
Qed.

(** For an absolute href the stored url is the href, and the round trip
    holds. *)
Lemma resume_finds_absolute_href (cfg : Config) (now : timestamp) (cid href : string)
    (pm : ProgressManager) :
  startswith "http" href = true →
  (is_activity_completed cid href
     (mark_activity_completed now cid (absolute_url cfg href) pm)).1 = true.
Proof.
  intros H. unfold absolute_url. rewrite H.
  rewrite is_activity_completed_eq. simpl.
  apply str_in_spec, mark_activity_completed_elem.
Qed.

(** * The batch scheduler *)

(** ** The slices *)

Lemma batches_eq (width : nat) (l : list Activity) :
  batches width l =
  map (λ k, take width (drop (k * width) l)) (seq 0 ((length l + width - 1) / width)).
Proof. unfold batches, range_step. by rewrite map_map. Qed.

Lemma concat_slices {A} (width m : nat) (l : list A) :
  concat (map (λ k, take width (drop (k * width) l)) (seq 0 m)) = take (m * width) l.
Proof.
  induction m as [|m IH]; [done|].
  rewrite seq_S, map_app, concat_app, IH. simpl. rewrite app_nil_r.
  rewrite take_take_drop. f_equal. lia.
Qed.

Lemma slices_cover (n width : nat) : width ≠ 0 → n ≤ (n + width - 1) / width * width.
Proof.
  intros Hw. pose proof (Nat.div_mod_eq (n + width - 1) width) as Hd.
  pose proof (Nat.mod_upper_bound (n + width - 1) width Hw). lia.
Qed.

Lemma slices_tight (n width k : nat) :
  width ≠ 0 → k < (n + width - 1) / width → k * width < n.
Proof.
  intros Hw Hk.
  pose proof (Nat.div_mod_eq (n + width - 1) width) as Hd.
  assert (S k * width ≤ (n + width - 1) / width * width) by (apply Nat.mul_le_mono_r; lia).
  lia.
Qed.

Lemma concat_batches (width : nat) (l : list Activity) :
  width ≠ 0 → concat (batches width l) = l.
Proof.
  intros Hw. rewrite batches_eq, concat_slices.
  apply take_ge. by apply slices_cover.
Qed.

Lemma batches_lookup (width : nat) (l : list Activity) (i : nat) (batch : list Activity) :
  width ≠ 0 →
  batches width l !! i = Some batch →
  batch = take width (drop (i * width) l)
  ∧ length batch = width `min` (length l - i * width)
  ∧ 0 < length batch.
Proof.
  intros Hw. rewrite batches_eq, list_lookup_fmap.
  destruct (seq 0 _ !! i) as [k|] eqn:E; [|done]. simpl. intros [= <-].
  apply lookup_seq in E as [-> Hlt]. simpl in *.
  apply slices_tight in Hlt; [|done].
  rewrite length_take, length_drop. split_and!; [done|done|lia].
Qed.

Lemma batches_sizes_2_5 (l : list Activity) :
  length l = 5 → map length (batches 2 l) = [2; 2; 1].
Proof.
  intros H. do 6 (destruct l as [|? l]; try done).
Qed.

(** ** One task *)

Section TaskMachine.
Context (cfg : Config) (b : Browser) (cn cid : string).

Lemma process_activity_with_retry_quiet (page : nat) (a : Activity) (w : World) :
  is_completed a || should_skip a || (max_retries cfg =? 0) = true →
  trace (process_activity_with_retry cfg b page a cn cid w).2 = trace w
  ∧ next_page (process_activity_with_retry cfg b page a cn cid w).2 = next_page w.
Proof.
  intros H. unfold process_activity_with_retry.
  destruct (is_completed a); [done|].
  destruct (should_skip a).
  - destruct (contains "quiz" (a_type a)); [done|].
    by destruct (contains "assign" (a_type a)).
  - simpl in H. apply Nat.eqb_eq in H. by rewrite H.
Qed.

Lemma resume_kind_trace (kind prefix : string) (a : Activity) (w : World) :
  trace (resume_kind kind prefix b a cn cid w).2 = trace w
  ∧ next_page (resume_kind kind prefix b a cn cid w).2 = next_page w.
Proof. unfold resume_kind. by destruct (navigate b (a_url a) (clock w)). Qed.

Lemma task_step_spec (page : nat) (a : Activity) (st st' : TaskState) (w w' : World) :
  task_step cfg b cn cid page a st w = (st', w') →
  ∃ evs,
    trace w' = trace w ++ evs
    ∧ next_page w' = next_page w
    ∧ (∀ p u, Start p u ∈ evs → p = page)
    ∧ (task_wf cfg st → task_wf cfg st')
    ∧ (∀ r, st' = Returned r → st = Returned r ∨ Done page r ∈ evs)
    ∧ (∀ r, st = Returned r → st' = Returned r)
    ∧ (task_wf cfg st → (∃ r, st = Returned r) ∨ task_measure cfg st' < task_measure cfg st)
    ∧ (st = Created → Start page (a_url a) ∈ evs).
Proof.
  destruct st as [|n|n| |r]; cbn [task_step].
  - destruct (is_completed a || should_skip a || (max_retries cfg =? 0)) eqn:Hq.
    + destruct (process_activity_with_retry_quiet page a (emit (Start page (a_url a)) w) Hq)
        as [Htr Hnp].
      destruct (process_activity_with_retry cfg b page a cn cid _) as [r w1].
      intros [= <- <-]. simpl in Htr, Hnp.
      exists [Start page (a_url a); Done page r]. split_and!.
      * simpl. rewrite Htr. by rewrite <- app_assoc.
      * simpl. by rewrite Hnp.
      * intros p u [[= -> _]|[?|?%elem_of_nil]%elem_of_cons]%elem_of_cons; done.
      * done.
      * intros r' [= <-]. right. set_solver.
      * done.
      * intros _. right. simpl. lia.
      * intros _. set_solver.
    + intros [= <- <-].
      apply orb_false_iff in Hq as [_ Hm]. apply Nat.eqb_neq in Hm.
      exists [Start page (a_url a); Goto page (a_url a)]. split_and!.
      * simpl. by rewrite <- app_assoc.
      * done.
      * intros p u [[= -> _]|[?|?%elem_of_nil]%elem_of_cons]%elem_of_cons; done.
      * intros _. simpl. lia.
      * done.
      * done.
      * intros _. right. simpl. lia.
      * intros _. set_solver.
  - rewrite resume_dispatch_eq.
    destruct (resume_kind_trace (kind_of a) (error_prefix a) a w) as [Htr Hnp].
    destruct (resume_kind _ _ b a cn cid w) as [[e|] w1]; simpl in Htr, Hnp.
    + destruct (n <? max_retries cfg) eqn:Hn.
      * intros [= <- <-]. apply Nat.ltb_lt in Hn.
        exists [RetrySleep page]. split_and!; simpl; try done.
        -- by rewrite Htr.
        -- intros p u [?|?%elem_of_nil]%elem_of_cons; done.
        -- intros _. right. lia.
      * intros [= <- <-].
        exists [Screenshot page (screenshot_name cid a)]. split_and!; simpl; try done.
        -- by rewrite Htr.
        -- intros p u [?|?%elem_of_nil]%elem_of_cons; done.
        -- intros _. right. lia.
    + intros [= <- <-].
      exists [Done page true]. split_and!; simpl; try done.
      * by rewrite Htr.
      * intros p u [?|?%elem_of_nil]%elem_of_cons; done.
      * intros r [= <-]. right. set_solver.
      * intros _. right. lia.
  - intros [= <- <-].
    exists [Goto page (a_url a)]. split_and!; simpl; try done.
    + intros p u [?|?%elem_of_nil]%elem_of_cons; done.
    + lia.
    + intros Hn. right. lia.
  - intros [= <- <-].
    exists [Done page false]. split_and!; simpl; try done.
    + intros p u [?|?%elem_of_nil]%elem_of_cons; done.
    + intros r [= <-]. right. set_solver.
    + intros _. right. lia.
  - intros [= <- <-].
    exists []. split_and!; simpl; try done.
    + by rewrite app_nil_r.
    + intros p u ?%elem_of_nil. done.
    + intros r' [= <-]. by left.
    + intros _. left. by exists r.
Qed.
End TaskMachine.

(** ** The tasks of one batch *)

Section Gather.
Context (cfg : Config) (b : Browser) (cn cid : string).

Lemma task_rel_refl (evs : list Event) (t : Task) : task_rel cfg evs t t.
Proof. unfold task_rel. split_and!; auto. Qed.

Lemma task_rel_trans (evs1 evs2 : list Event) (t1 t2 t3 : Task) :
  task_rel cfg evs1 t1 t2 → task_rel cfg evs2 t2 t3 → task_rel cfg (evs1 ++ evs2) t1 t3.
Proof.
  intros (Hp1 & Ha1 & Hw1 & Hr1 & Hd1 & Hs1) (Hp2 & Ha2 & Hw2 & Hr2 & Hd2 & Hs2).
  unfold task_rel. split_and!.
  - congruence.
  - congruence.
  - auto.
  - auto.
  - intros r Hr. destruct (Hd2 r Hr) as [H|H].
    + destruct (Hd1 r H) as [?|?]; [by left|]. right. apply elem_of_app. by left.
    + right. apply elem_of_app. right. by rewrite <- Hp1.
  - intros Hc. destruct (Hs1 Hc) as [H|H].
    + destruct (Hs2 H) as [?|?]; [by left|]. right. apply elem_of_app. right.
      by rewrite <- Hp1, <- Ha1.
    + right. apply elem_of_app. by left.
Qed.

Lemma Forall2_task_rel_refl (evs : list Event) (tasks : list Task) :
  Forall2 (task_rel cfg evs) tasks tasks.
Proof. apply Forall_Forall2_diag, Forall_forall. intros t _. apply task_rel_refl. Qed.

Lemma Forall2_task_rel_trans (evs1 evs2 : list Event) (l1 l2 l3 : list Task) :
  Forall2 (task_rel cfg evs1) l1 l2 → Forall2 (task_rel cfg evs2) l2 l3 →
  Forall2 (task_rel cfg (evs1 ++ evs2)) l1 l3.
Proof.
  intros H12. revert l3. induction H12 as [|t1 t2 l1 l2 Ht Hl IH]; intros l3 H23.
  - inversion H23. constructor.
  - inversion H23 as [|? t3 ? l3' Ht3 Hl3]; subst. constructor.
    + by eapply task_rel_trans.
    + by apply IH.
Qed.

Lemma Forall2_task_rel_pages (evs : list Event) (l1 l2 : list Task) :
  Forall2 (task_rel cfg evs) l1 l2 →
  map t_page l2 = map t_page l1 ∧ map t_activity l2 = map t_activity l1.
Proof.
  induction 1 as [|t1 t2 l1 l2 (Hp & Ha & _) Hl [IH1 IH2]]; [done|].
  simpl. by rewrite Hp, Ha, IH1, IH2.
Qed.

(** One resumption of the [i]-th task. *)
Lemma step_nth_spec (i : nat) (tasks tasks' : list Task) (w w' : World) :
  step_nth cfg b cn cid i tasks w = (tasks', w') →
  ∃ evs,
    trace w' = trace w ++ evs
    ∧ next_page w' = next_page w
    ∧ Forall2 (task_rel cfg evs) tasks tasks'
    ∧ (∀ p u, Start p u ∈ evs → p ∈ map t_page tasks)
    ∧ (∀ t, tasks !! i = Some t → task_wf cfg (t_state t) →
         ∃ t', tasks' !! i = Some t'
               ∧ ((∃ r, t_state t = Returned r)
                  ∨ task_measure cfg (t_state t') < task_measure cfg (t_state t))).
Proof.
  unfold step_nth. destruct (tasks !! i) as [t|] eqn:Hi.
  - unfold step_task.
    destruct (task_step cfg b cn cid (t_page t) (t_activity t) (t_state t) w)
      as [st' w1] eqn:Hstep.
    intros [= <- <-].
    destruct (task_step_spec cfg b cn cid _ _ _ _ _ _ Hstep)
      as (evs & Htr & Hnp & Hstart & Hwf & Hdone & Hret & Hmeas & Hcr).
    exists evs. split_and!; [done|done| | |].
    + apply Forall2_same_length_lookup. split; [by rewrite length_insert|].
      intros j t1 t2 H1 H2. destruct (decide (i = j)) as [<-|Hne].
      * rewrite list_lookup_insert_eq in H2 by (by eapply lookup_lt_Some).
        rewrite Hi in H1. injection H1 as <-. injection H2 as <-.
        unfold task_rel. simpl. split_and!; auto.
      * rewrite list_lookup_insert_ne in H2 by done.
        rewrite H1 in H2. injection H2 as <-. apply task_rel_refl.
    + intros p u Hin. apply Hstart in Hin as ->.
      apply list_elem_of_fmap. exists t. split; [done|]. by eapply list_elem_of_lookup_2.
    + intros t0 [= <-] Hw. eexists. split.
      * apply list_lookup_insert_eq. by eapply lookup_lt_Some.
      * simpl. auto.
  - intros [= <- <-]. exists []. split_and!.
    + by rewrite app_nil_r.
    + done.
    + apply Forall2_task_rel_refl.
    + intros p u ?%elem_of_nil. done.
    + done.
Qed.

Lemma run_schedule_app (s1 s2 : list nat) (tasks : list Task) (w : World) :
  run_schedule cfg b cn cid (s1 ++ s2) tasks w =
  let '(tasks1, w1) := run_schedule cfg b cn cid s1 tasks w in
  run_schedule cfg b cn cid s2 tasks1 w1.
Proof.
  revert tasks w. induction s1 as [|i s1 IH]; intros tasks w; [done|].
  simpl. destruct (step_nth cfg b cn cid i tasks w) as [tasks1 w1]. apply IH.
Qed.

(** Any number of resumptions, in any order. *)
Lemma run_schedule_spec (sched : list nat) (tasks tasks' : list Task) (w w' : World) :
  run_schedule cfg b cn cid sched tasks w = (tasks', w') →
  ∃ evs,
    trace w' = trace w ++ evs
    ∧ next_page w' = next_page w
    ∧ Forall2 (task_rel cfg evs) tasks tasks'
    ∧ (∀ p u, Start p u ∈ evs → p ∈ map t_page tasks).
Proof.
  revert tasks w. induction sched as [|i sched IH]; intros tasks w; simpl.
  - intros [= <- <-]. exists []. split_and!.
    + by rewrite app_nil_r.
    + done.
    + apply Forall2_task_rel_refl.
    + intros p u ?%elem_of_nil. done.
  - destruct (step_nth cfg b cn cid i tasks w) as [tasks1 w1] eqn:Hstep.
    intros Hrun.
    destruct (step_nth_spec _ _ _ _ _ Hstep) as (evs1 & Htr1 & Hnp1 & Hrel1 & Hst1 & _).
    destruct (IH _ _ Hrun) as (evs2 & Htr2 & Hnp2 & Hrel2 & Hst2).
    exists (evs1 ++ evs2). split_and!.
    + rewrite Htr2, Htr1. by rewrite <- app_assoc.
    + congruence.
    + by eapply Forall2_task_rel_trans.
    + intros p u [?|Hin]%elem_of_app; [by eapply Hst1|].
      apply Hst2 in Hin. by rewrite (proj1 (Forall2_task_rel_pages _ _ _ Hrel1)) in Hin.
Qed.
End Gather.

Section Drain.
Context (cfg : Config) (b : Browser) (cn cid : string).

Lemma task_measure_bound (st : TaskState) :
  task_wf cfg st → task_measure cfg st ≤ task_bound cfg.
Proof. unfold task_bound. destruct st; simpl; lia. Qed.

Lemma task_measure_0 (st : TaskState) :
  task_measure cfg st = 0 → ∃ r, st = Returned r.
Proof. destruct st; simpl; try lia. by eexists. Qed.

(** Resuming one task often enough makes it return. *)
Lemma run_schedule_replicate (n i : nat) (tasks tasks' : list Task) (w w' : World) (t : Task) :
  tasks !! i = Some t →
  task_wf cfg (t_state t) →
  task_measure cfg (t_state t) ≤ n →
  run_schedule cfg b cn cid (replicate n i) tasks w = (tasks', w') →
  ∃ t', tasks' !! i = Some t' ∧ returned t'.
Proof.
  revert tasks w t. induction n as [|n IH]; intros tasks w t Hi Hwf Hm; simpl.
  - intros [= <- <-]. exists t. split; [done|]. apply task_measure_0. lia.
  - destruct (step_nth cfg b cn cid i tasks w) as [tasks1 w1] eqn:Hstep.
    destruct (step_nth_spec _ _ _ _ _ _ _ _ _ Hstep) as (evs & _ & _ & Hrel & _ & Hdec).
    destruct (Hdec t Hi Hwf) as (t1 & Hi1 & Hcase).
    pose proof (Forall2_lookup_lr _ _ _ _ _ _ Hrel Hi Hi1) as (_ & _ & Hwf1 & Hret1 & _).
    apply (IH tasks1 w1 t1); [done|auto|].
    destruct Hcase as [[r Hr]|Hlt]; [|lia].
    rewrite (Hret1 r Hr). simpl. lia.
Qed.

Lemma Forall2_task_rel_wf (evs : list Event) (l1 l2 : list Task) :
  Forall2 (task_rel cfg evs) l1 l2 →
  Forall (λ t, task_wf cfg (t_state t)) l1 → Forall (λ t, task_wf cfg (t_state t)) l2.
Proof.
  induction 1 as [|t1 t2 l1 l2 (_ & _ & Hw & _) Hl IH]; [done|].
  intros [H1 H2]%Forall_cons. constructor; auto.
Qed.

(** Draining the tasks with the given indices makes each of them return. *)
Lemma run_schedule_drain (idx : list nat) (tasks tasks' : list Task) (w w' : World) :
  Forall (λ t, task_wf cfg (t_state t)) tasks →
  run_schedule cfg b cn cid (flat_map (λ i, replicate (task_bound cfg) i) idx) tasks w
    = (tasks', w') →
  ∀ i, i ∈ idx → i < length tasks → ∃ t', tasks' !! i = Some t' ∧ returned t'.
Proof.
  revert tasks w. induction idx as [|j idx IH]; intros tasks w Hwf Hrun i Hin Hlt.
  - by apply elem_of_nil in Hin.
  - simpl in Hrun. rewrite run_schedule_app in Hrun.
    destruct (run_schedule cfg b cn cid (replicate (task_bound cfg) j) tasks w)
      as [tasks1 w1] eqn:Hrun1.
    destruct (run_schedule_spec _ _ _ _ _ _ _ _ _ Hrun1) as (evs1 & _ & _ & Hrel1 & _).
    destruct (run_schedule_spec _ _ _ _ _ _ _ _ _ Hrun) as (evs2 & _ & _ & Hrel2 & _).
    pose proof (Forall2_task_rel_wf _ _ _ Hrel1 Hwf) as Hwf1.
    pose proof (Forall2_length _ _ _ Hrel1) as Hlen1.
    destruct (decide (i = j)) as [->|Hne].
    + destruct (lookup_lt_is_Some_2 tasks j Hlt) as [t Ht].
      assert (Hwt : task_wf cfg (t_state t))
        by (eapply Forall_lookup_1 in Hwf; [|exact Ht]; done).
      destruct (run_schedule_replicate _ _ _ _ _ _ t Ht Hwt (task_measure_bound _ Hwt) Hrun1)
        as (t1 & Ht1 & r & Hr).
      destruct (Forall2_lookup_l _ _ _ _ _ Hrel2 Ht1) as (t2 & Ht2 & _ & _ & _ & Hret & _).
        exists t2. split; [done|]. exists r. auto.
    + apply (IH tasks1 w1); [done|done| |lia].
      apply elem_of_cons in Hin as [?|?]; done.
Qed.

(** [gather] on freshly created tasks: every task has returned, and the
    return of each is among the calls issued. *)
Lemma gather_spec (sched : list nat) (tasks tasks' : list Task) (w w' : World) :
  Forall (λ t, t_state t = Created) tasks →
  gather cfg b cn cid sched tasks w = (tasks', w') →
  ∃ evs,
    trace w' = trace w ++ evs
    ∧ next_page w' = next_page w
    ∧ map t_page tasks' = map t_page tasks
    ∧ map t_activity tasks' = map t_activity tasks
    ∧ (∀ p u, Start p u ∈ evs → p ∈ map t_page tasks)
    ∧ Forall (λ t', Start (t_page t') (a_url (t_activity t')) ∈ evs
                    ∧ ∃ r, t_state t' = Returned r ∧ Done (t_page t') r ∈ evs) tasks'.
Proof.
  intros Hcreated. unfold gather, drain.
  destruct (run_schedule cfg b cn cid sched tasks w) as [tasks1 w1] eqn:Hrun1.
  intros Hrun2.
  destruct (run_schedule_spec _ _ _ _ _ _ _ _ _ Hrun1) as (evs1 & Htr1 & Hnp1 & Hrel1 & Hst1).
  destruct (run_schedule_spec _ _ _ _ _ _ _ _ _ Hrun2) as (evs2 & Htr2 & Hnp2 & Hrel2 & Hst2).
  pose proof (Forall2_task_rel_trans _ _ _ _ _ _ Hrel1 Hrel2) as Hrel.
  destruct (Forall2_task_rel_pages _ _ _ _ Hrel) as [Hpages Hacts].
  destruct (Forall2_task_rel_pages _ _ _ _ Hrel1) as [Hpages1 _].
  assert (Hwf : Forall (λ t, task_wf cfg (t_state t)) tasks).
  { eapply Forall_impl; [exact Hcreated|]. intros t Ht. by rewrite Ht. }
  pose proof (Forall2_task_rel_wf _ _ _ Hrel1 Hwf) as Hwf1.
  exists (evs1 ++ evs2). split_and!.
  - rewrite Htr2, Htr1. by rewrite <- app_assoc.
  - congruence.
  - done.
  - done.
  - intros p u [?|Hin]%elem_of_app; [by eapply Hst1|].
    apply Hst2 in Hin. by rewrite Hpages1 in Hin.
  - apply Forall_lookup. intros i t' Hi'.
    assert (Hlt : i < length tasks1).
    { rewrite (Forall2_length _ _ _ Hrel2). by eapply lookup_lt_Some. }
    destruct (run_schedule_drain _ _ _ _ _ Hwf1 Hrun2 i) as (t'' & Hi'' & r & Hr);
      [by apply elem_of_seq; lia | done |].
    rewrite Hi' in Hi''. injection Hi'' as <-.
    destruct (Forall2_lookup_r _ _ _ _ _ Hrel Hi')
      as (t & Hi & Hp & Ha & _ & _ & Hdone & Hstart).
    eapply Forall_lookup_1 in Hcreated; [|exact Hi]. split.
    + destruct (Hstart Hcreated) as [Hc|Hs]; [congruence|]. by rewrite Hp, Ha.
    + exists r. split; [done|].
      destruct (Hdone r Hr) as [Hc|Hd]; [congruence|]. by rewrite Hp.
Qed.
End Drain.

(** ** A task alone is the retry controller

    The task machine and [process_activity_with_retry] are two readings of
    the same coroutine; gathered alone, the machine does what the function
    does, between the marks of its start and of its return. *)

Section Alone.
Context (cfg : Config) (b : Browser) (cn cid : string) (page : nat) (a : Activity).

Lemma task_steps_returned (n : nat) (r : bool) (w : World) :
  task_steps cfg b cn cid page a n (Returned r) w = (Returned r, w).
Proof. induction n as [|n IH]; [done|]. simpl. apply IH. Qed.

Lemma task_steps_add (n m : nat) (st : TaskState) (w : World) :
  task_steps cfg b cn cid page a (n + m) st w =
  let '(st1, w1) := task_steps cfg b cn cid page a n st w in
  task_steps cfg b cn cid page a m st1 w1.
Proof.
  revert st w. induction n as [|n IH]; intros st w; [done|].
  simpl. destruct (task_step cfg b cn cid page a st w) as [st1 w1]. apply IH.
Qed.

(** The machine inside the loop, at the awaited visit of [attempt]. *)
Lemma task_steps_retry_loop (remaining attempt fuel : nat) (w : World) :
  attempt + remaining = max_retries cfg + 1 →
  remaining ≠ 0 →
  2 * remaining ≤ fuel →
  task_steps cfg b cn cid page a fuel (InAttempt attempt) (await (Goto page (a_url a)) w) =
  let '(r, w1) := retry_loop cfg b page a cn cid remaining attempt w in
  (Returned r, emit (Done page r) w1).
Proof.
  revert attempt fuel w. induction remaining as [|rem IH]; intros attempt fuel w Hsum Hrem Hfuel;
    [done|].
  destruct fuel as [|fuel]; [lia|].
  cbn [task_steps task_step retry_loop].
  rewrite resume_dispatch_eq, dispatch_eq.
  destruct (resume_kind (kind_of a) (error_prefix a) b a cn cid
              (await (Goto page (a_url a)) w)) as [[e|] w1].
  - destruct (attempt <? max_retries cfg) eqn:Hlt.
    + apply Nat.ltb_lt in Hlt.
      destruct fuel as [|fuel]; [lia|]. cbn [task_steps task_step].
      apply IH; lia.
    + destruct fuel as [|fuel]; [lia|]. cbn [task_steps task_step].
      apply task_steps_returned.
  - apply task_steps_returned.
Qed.

Lemma task_steps_created (fuel : nat) (w : World) :
  task_bound cfg ≤ fuel →
  task_steps cfg b cn cid page a fuel Created w =
  let '(r, w1) :=
    process_activity_with_retry cfg b page a cn cid (emit (Start page (a_url a)) w) in
  (Returned r, emit (Done page r) w1).
Proof.
  unfold task_bound. intros Hfuel. destruct fuel as [|fuel]; [lia|].
  cbn [task_steps task_step].
  destruct (is_completed a || should_skip a || (max_retries cfg =? 0)) eqn:Hq.
  - destruct (process_activity_with_retry cfg b page a cn cid _) as [r w1].
    apply task_steps_returned.
  - apply orb_false_iff in Hq as [Hq Hm]. apply orb_false_iff in Hq as [Hc Hs].
    apply Nat.eqb_neq in Hm.
    unfold process_activity_with_retry. rewrite Hc, Hs.
    apply task_steps_retry_loop; lia.
Qed.

(** On a batch of one task a schedule can only say how often the task is
    resumed before the drain. *)
Lemma run_schedule_single (sched : list nat) (st : TaskState) (w : World) :
  run_schedule cfg b cn cid sched [ {| t_page := page; t_activity := a; t_state := st |} ] w =
  let '(st1, w1) :=
    task_steps cfg b cn cid page a (length (filter (λ i, i = 0) sched)) st w in
  ([ {| t_page := page; t_activity := a; t_state := st1 |} ], w1).
Proof.
  revert st w. induction sched as [|i sched IH]; intros st w; [done|].
  cbn [run_schedule]. destruct i as [|i].
  - rewrite filter_cons, decide_True by done. cbn [length task_steps].
    unfold step_nth, step_task. cbn.
    destruct (task_step cfg b cn cid page a st w) as [st1 w1]. apply IH.
  - rewrite filter_cons, decide_False by done.
    unfold step_nth. cbn. apply IH.
Qed.

Lemma gather_single (sched : list nat) (w : World) :
  gather cfg b cn cid sched [make_task (page, a)] w =
  let '(r, w1) :=
    process_activity_with_retry cfg b page a cn cid (emit (Start page (a_url a)) w) in
  ([ {| t_page := page; t_activity := a; t_state := Returned r |} ], emit (Done page r) w1).
Proof.
  unfold gather, drain, make_task. cbn [fst snd].
  rewrite run_schedule_single.
  destruct (task_steps cfg b cn cid page a _ Created w) as [st1 w1] eqn:H1.
  cbn [length seq flat_map]. rewrite app_nil_r, run_schedule_single.
  assert (length (filter (λ i, i = 0) (replicate (task_bound cfg) 0)) = task_bound cfg) as ->.
  { induction (task_bound cfg) as [|n IH]; [done|].
    cbn [replicate]. rewrite filter_cons, decide_True by done. simpl. by rewrite IH. }
  pose proof (task_steps_add (length (filter (λ i, i = 0) sched)) (task_bound cfg) Created w)
    as Hadd.
  rewrite H1 in Hadd. rewrite <- Hadd.
  rewrite task_steps_created by lia.
  by destruct (process_activity_with_retry cfg b page a cn cid _) as [r w2].
Qed.
End Alone.

(** ** The batch loop *)

Section Batches.
Context (cfg : Config) (b : Browser) (cn cid : string).

Lemma new_pages_spec (n : nat) (w : World) :
  (new_pages n w).1 = seq (next_page w) n
  ∧ trace (new_pages n w).2 = trace w ++ map NewPage (seq (next_page w) n)
  ∧ next_page (new_pages n w).2 = next_page w + n.
Proof.
  revert w. induction n as [|n IH]; intros w; simpl.
  - by rewrite app_nil_r, Nat.add_0_r.
  - destruct (IH (new_page w).2) as (H1 & H2 & H3).
    destruct (new_pages n _) as [ps w2]. simpl in *.
    rewrite H1, H2, H3. split_and!; [done| |lia]. by rewrite <- app_assoc.
Qed.

Lemma close_pages_spec (pages : list nat) (w : World) :
  trace (close_pages pages w) = trace w ++ map ClosePage pages
  ∧ next_page (close_pages pages w) = next_page w.
Proof.
  revert w. induction pages as [|p pages IH]; intros w; simpl.
  - by rewrite app_nil_r.
  - destruct (IH (await (ClosePage p) w)) as [-> ->]. simpl.
    by rewrite <- app_assoc.
Qed.

Lemma make_tasks_fields (pages : list nat) (batch : list Activity) :
  length pages = length batch →
  map t_page (map make_task (zip pages batch)) = pages
  ∧ map t_activity (map make_task (zip pages batch)) = batch
  ∧ Forall (λ t, t_state t = Created) (map make_task (zip pages batch)).
Proof.
  intros Hlen. rewrite !map_map. split_and!.
  - change (map (λ x, t_page (make_task x))) with (map (@fst nat Activity)).
    apply fst_zip. lia.
  - change (map (λ x, t_activity (make_task x))) with (map (@snd nat Activity)).
    apply snd_zip. lia.
  - apply Forall_forall. intros t (pa & -> & _)%list_elem_of_fmap. done.
Qed.

(** One batch: its pages are the next free ones, only its own tasks start
    in it, and each of its tasks returns in it. *)
Lemma run_batch_spec (k : nat) (batch : list Activity) (w w' : World) (tasks : list Task) :
  run_batch cfg b cn cid k batch w = (tasks, w') →
  ∃ seg,
    trace w' = trace w ++ seg
    ∧ next_page w' = next_page w + length batch
    ∧ map t_page tasks = seq (next_page w) (length batch)
    ∧ map t_activity tasks = batch
    ∧ (∀ p u, Start p u ∈ seg → next_page w ≤ p < next_page w')
    ∧ Forall (λ t, Start (t_page t) (a_url (t_activity t)) ∈ seg
                   ∧ ∃ r, t_state t = Returned r ∧ Done (t_page t) r ∈ seg) tasks.
Proof.
  unfold run_batch.
  destruct (new_pages_spec (length batch) w) as (Hps & Htr1 & Hnp1).
  destruct (new_pages (length batch) w) as [pages w1]. simpl in Hps, Htr1, Hnp1.
  destruct (make_tasks_fields pages batch) as (Hpg & Hac & Hcr).
  { rewrite Hps. by rewrite length_seq. }
  destruct (gather cfg b cn cid (schedule b k) _ w1) as [results w2] eqn:Hg.
  destruct (gather_spec _ _ _ _ _ _ _ _ _ Hcr Hg)
    as (evs & Htr2 & Hnp2 & Hpg2 & Hac2 & Hst & Hdone).
  destruct (close_pages_spec pages w2) as [Htr3 Hnp3].
  intros [= <- <-].
  exists (map NewPage pages ++ evs ++ map ClosePage pages ++ [BatchDelay]).
  cbn [trace next_page await]. split_and!.
  - rewrite Htr3, Htr2, Htr1, Hps. by rewrite <- !app_assoc.
  - lia.
  - by rewrite Hpg2, Hpg.
  - by rewrite Hac2, Hac.
  - intros p u Hin.
    assert (Hp : p ∈ pages).
    { rewrite !elem_of_app in Hin. destruct Hin as [Hin|[Hin|[Hin|Hin]]].
      - apply list_elem_of_fmap in Hin as (? & [=] & _).
      - apply Hst in Hin. by rewrite Hpg in Hin.
      - apply list_elem_of_fmap in Hin as (? & [=] & _).
      - apply list_elem_of_singleton in Hin. done. }
    rewrite Hps in Hp. apply elem_of_seq in Hp. lia.
  - eapply Forall_impl; [exact Hdone|]. intros t (Hs & r & Hr & Hd).
    split; [rewrite !elem_of_app; auto|].
    exists r. split; [done|]. rewrite !elem_of_app. auto.
Qed.

(** The batches in a row. *)
Lemma run_batches_spec (bs : list (list Activity)) (k : nat) (w w' : World)
    (results : list (list Task)) :
  run_batches cfg b cn cid k bs w = (results, w') →
  ∃ added,
    trace w' = trace w ++ added
    ∧ next_page w ≤ next_page w'
    ∧ map (map t_activity) results = bs
    ∧ Forall (Forall returned) results
    ∧ (∀ batch t, batch ∈ results → t ∈ batch → next_page w ≤ t_page t < next_page w')
    ∧ (∀ p u, Start p u ∈ added → next_page w ≤ p < next_page w')
    ∧ (∀ batch t, batch ∈ results → t ∈ batch →
         Start (t_page t) (a_url (t_activity t)) ∈ added ∧ ∃ r, Done (t_page t) r ∈ added)
    ∧ barrier results added.
Proof.
  revert k w results. induction bs as [|batch bs IH]; intros k w results; simpl.
  - intros [= <- <-]. exists []. split_and!.
    + by rewrite app_nil_r.
    + done.
    + done.
    + done.
    + intros batch t ?%elem_of_nil. done.
    + intros p u ?%elem_of_nil. done.
    + intros batch t ?%elem_of_nil. done.
    + intros i j bi bj ti tj pre u post _ Hi. by rewrite lookup_nil in Hi.
  - destruct (run_batch cfg b cn cid k batch w) as [tasks w1] eqn:Hb.
    destruct (run_batches cfg b cn cid (S k) bs w1) as [more w2] eqn:Hbs.
    intros [= <- <-].
    destruct (run_batch_spec _ _ _ _ _ Hb) as (seg & Htr1 & Hnp1 & Hpg1 & Hac1 & Hst1 & Hd1).
    destruct (IH _ _ _ Hbs)
      as (added & Htr2 & Hnp2 & Hac2 & Hret2 & Hpg2 & Hst2 & Hev2 & Hbar2).
    assert (Hpages1 : ∀ t, t ∈ tasks → next_page w ≤ t_page t < next_page w1).
    { intros t Ht.
      assert (t_page t ∈ map t_page tasks) as Hin
        by (apply list_elem_of_fmap; by exists t).
      rewrite Hpg1 in Hin. apply elem_of_seq in Hin. lia. }
    exists (seg ++ added). split_and!.
    + rewrite Htr2, Htr1. by rewrite <- app_assoc.
    + lia.
    + simpl. by rewrite Hac1, Hac2.
    + constructor; [|done]. eapply Forall_impl; [exact Hd1|].
      intros t (_ & r & Hr & _). by exists r.
    + intros bt t [->|Hin]%elem_of_cons Ht.
      * apply Hpages1 in Ht. lia.
      * pose proof (Hpg2 bt t Hin Ht). lia.
    + intros p u [Hin|Hin]%elem_of_app.
      * apply Hst1 in Hin. lia.
      * apply Hst2 in Hin. lia.
    + intros bt t [->|Hin]%elem_of_cons Ht.
      * rewrite Forall_forall in Hd1. destruct (Hd1 t Ht) as (Hs & r & _ & Hd).
        split; [|exists r]; apply elem_of_app; by left.
      * destruct (Hev2 bt t Hin Ht) as (Hs & r & Hd).
        split; [|exists r]; apply elem_of_app; by right.
    + intros i j bi bj ti tj pre u post Hij Hi Hj Hti Htj Hsplit.
      destruct j as [|j]; [lia|]. simpl in Hj.
      assert (Hpj : next_page w1 ≤ t_page tj).
      { apply (Hpg2 bj tj); [by eapply list_elem_of_lookup_2 | done]. }
      (* the start of a later task lies in the calls of the later batches *)
      assert (∃ pre2, pre = seg ++ pre2 ∧ added = pre2 ++ Start (t_page tj) u :: post)
        as (pre2 & -> & Hadded).
      { apply app_eq_inv in Hsplit as [(m & -> & Hm)|(m & -> & Hm)].
        - destruct m as [|e m].
          + exists []. rewrite !app_nil_r. split; [done|]. simpl in Hm. by rewrite <- Hm.
          + simpl in Hm. injection Hm as <- _.
            assert (Start (t_page tj) u ∈ pre ++ Start (t_page tj) u :: m) as Hin
              by (rewrite elem_of_app, elem_of_cons; auto).
            apply Hst1 in Hin. lia.
        - by exists m. }
      destruct i as [|i]; simpl in Hi.
      * injection Hi as <-.
        rewrite Forall_forall in Hd1. destruct (Hd1 ti Hti) as (_ & r & _ & Hd).
        exists r. apply elem_of_app. by left.
      * destruct (Hbar2 i j bi bj ti tj pre2 u post) as (r & Hr); try done; [lia|].
        exists r. apply elem_of_app. by right.
Qed.
End Batches.

(** C9.  For a positive [parallel_tabs], [process_activities_parallel]
    keeps the activities that are neither completed nor skip-eligible, cuts
    that list into consecutive slices of [parallel_tabs] activities, the
    last one possibly shorter and none empty, and runs one batch per slice
    in that order; every task of every batch returns, and wherever a task
    of a later batch starts, every task of every earlier batch has returned
    before.  With two tabs and five outstanding activities the batches have
    the sizes 2, 2 and 1. *)
Theorem process_activities_parallel_batches (cfg : Config) (b : Browser)
    (activities : list Activity) (cn cid : string) (w : World) :
  parallel_tabs cfg ≠ 0 →
  let width := parallel_tabs cfg in
  let to_process := filter (λ a, outstanding a = true) activities in
  let bs := batches width to_process in
  let run := process_activities_parallel cfg b activities cn cid w in
  let results := run.1.2 in
  run.1.1 = None
  ∧ (∀ a, a ∈ to_process ↔ a ∈ activities ∧ is_completed a = false ∧ should_skip a = false)
  ∧ concat bs = to_process
  ∧ (∀ i batch, bs !! i = Some batch →
       batch = take width (drop (i * width) to_process)
       ∧ length batch = width `min` (length to_process - i * width)
       ∧ 0 < length batch)
  ∧ map (map t_activity) results = bs
  ∧ Forall (Forall returned) results
  ∧ (∃ added,
       trace run.2 = trace w ++ added
       ∧ (∀ batch t, batch ∈ results → t ∈ batch →
            Start (t_page t) (a_url (t_activity t)) ∈ added
            ∧ ∃ r, Done (t_page t) r ∈ added)
       ∧ barrier results added)
  ∧ (width = 2 → length to_process = 5 → map length results = [2; 2; 1]).
Proof.
  intros Hw width to_process bs run results.
  assert (Hfilter : ∀ a, a ∈ to_process ↔
                         a ∈ activities ∧ is_completed a = false ∧ should_skip a = false).
  { intros a. subst to_process. rewrite list_elem_of_filter. unfold outstanding.
    rewrite andb_true_iff, !negb_true_iff. tauto. }
  assert (Hrun : run.1.1 = None ∧ map (map t_activity) results = bs
                 ∧ Forall (Forall returned) results
                 ∧ ∃ added,
                     trace run.2 = trace w ++ added
                     ∧ (∀ batch t, batch ∈ results → t ∈ batch →
                          Start (t_page t) (a_url (t_activity t)) ∈ added
                          ∧ ∃ r, Done (t_page t) r ∈ added)
                     ∧ barrier results added).
  { subst results run. unfold process_activities_parallel. fold to_process.
    destruct to_process as [|a0 rest] eqn:Htp.
    - simpl. split_and!; [done| |done|].
      + subst bs. rewrite batches_eq. simpl.
        rewrite Nat.div_small by (fold width; lia). done.
      + exists []. split_and!; [by rewrite app_nil_r| |].
        * intros batch t ?%elem_of_nil. done.
        * intros i j bi bj ti tj pre u post _ Hi. by rewrite lookup_nil in Hi.
    - rewrite (proj2 (Nat.eqb_neq _ _) Hw). fold width. fold bs.
      destruct (run_batches cfg b cn cid 0 bs w) as [res w1] eqn:Hb.
      destruct (run_batches_spec _ _ _ _ _ _ _ _ _ Hb)
        as (added & Htr & _ & Hac & Hret & _ & _ & Hev & Hbar).
      simpl. split_and!; [done|done|done|]. by exists added. }
  destruct Hrun as (Hexn & Hacts & Hret & Hbar).
  split_and!; try done.
  - by apply concat_batches.
  - intros i batch. by apply batches_lookup.
  - intros H2 H5.
    assert (map length results = map length (map (map t_activity) results)) as ->.
    { rewrite map_map. apply map_ext. intros l. by rewrite length_map. }
    rewrite Hacts. subst bs. rewrite H2. by apply batches_sizes_2_5.
Qed.

Lemma process_activities_parallel_batches_witness :
  let run := process_activities_parallel two_tabs failing_browser five_pages
               "Algebra" "12" fresh_world in
  map (map t_activity) run.1.2 =
    [[page_number "1"; page_number "2"]; [page_number "3"; page_number "4"];
     [page_number "5"]]
  ∧ map length run.1.2 = [2; 2; 1]
  ∧ Forall (Forall returned) run.1.2.
Proof.
  intros run.
  destruct (process_activities_parallel_batches two_tabs failing_browser five_pages
              "Algebra" "12" fresh_world)
    as (_ & _ & _ & _ & Hacts & Hret & _ & Hsizes).
  - simpl. lia.
  - split_and!; [exact Hacts | | exact Hret].
    apply Hsizes; reflexivity.
Defined.


Lemma append_length (s1 s2 : string) :
  String.length (s1 +:+ s2) = String.length s1 + String.length s2.
Proof. induction s1 as [|c s1 IH]; simpl; [done | by rewrite IH]. Qed.

(** For a relative href the stored url is longer than the href that is
    looked up: the round trip fails whenever the base url is not empty and
    the bare href is not in the list for another reason. *)
Lemma resume_misses_every_relative_href (cfg : Config) (now : timestamp) (cid href : string)
    (pm : ProgressManager) :
  startswith "http" href = false →
  base_url cfg ≠ "" →
  href ∉ completed_activities (course_of cid pm) →
  (is_activity_completed cid href
     (mark_activity_completed now cid (absolute_url cfg href) pm)).1 = false.
Proof.
  intros Hrel Hbase Hnot. unfold absolute_url. rewrite Hrel.
  rewrite is_activity_completed_eq. cbn [fst].
  apply not_true_iff_false. rewrite str_in_spec, mark_activity_completed_list.
  destruct (str_in _ _); [done|].
  intros [?|Heq%list_elem_of_singleton]%elem_of_app; [done|].
  apply (f_equal String.length) in Heq. rewrite append_length in Heq.
  destruct (base_url cfg); [done|]. simpl in Heq. lia.
Qed.

(** Three outstanding activities on two tabs, the second task of a batch
    resumed first: the calls of the two tasks of the first batch interleave,
    and the page of the second batch is opened only after both have
    returned and their pages are closed. *)
Example interleaved_batches_trace :
  trace (process_activities_parallel two_tabs interleaving_browser
           [page_number "1"; page_number "2"; page_number "3"] "Algebra" "12" fresh_world).2 =
  [NewPage 0; NewPage 1;
   Start 1 (a_url (page_number "2")); Goto 1 (a_url (page_number "2"));
   Start 0 (a_url (page_number "1")); Goto 0 (a_url (page_number "1"));
   Done 1 true; Done 0 true;
   ClosePage 0; ClosePage 1; BatchDelay;
   NewPage 2;
   Start 2 (a_url (page_number "3")); Goto 2 (a_url (page_number "3")); Done 2 true;
   ClosePage 2; BatchDelay].
Proof. vm_compute. reflexivity. Qed.

(** * Further properties of the ledger *)

Lemma save_init (now : timestamp) (pm : ProgressManager) :
  ProgressManager_init (file (save now pm)) = Ok (save now pm).
Proof. reflexivity. Qed.

(** X1.  The ledger is written through: right after
    [mark_activity_completed] or [mark_activity_failed] the backing file
    holds the in-memory document, so a manager constructed from that file
    is the manager that was left, and it finds the url that was marked
    completed. *)
Theorem marks_are_written_through (now : timestamp) (cid url e : string)
    (pm : ProgressManager) :
  let pm1 := mark_activity_completed now cid url pm in
  let pm2 := mark_activity_failed now cid url e pm in
  ProgressManager_init (file pm1) = Ok pm1
  ∧ ProgressManager_init (file pm2) = Ok pm2
  ∧ last_run (data pm1) = Some now
  ∧ last_run (data pm2) = Some now
  ∧ (∀ pm', ProgressManager_init (file pm1) = Ok pm' →
            (is_activity_completed cid url pm').1 = true).
Proof.
  intros pm1 pm2. subst pm1 pm2. split_and!.
  - unfold mark_activity_completed. rewrite get_course_progress_eq. apply save_init.
  - unfold mark_activity_failed. rewrite get_course_progress_eq. apply save_init.
  - unfold mark_activity_completed. rewrite get_course_progress_eq. reflexivity.
  - unfold mark_activity_failed. rewrite get_course_progress_eq. reflexivity.
  - intros pm' H.
    assert (pm' = mark_activity_completed now cid url pm) as ->.
    { revert H. unfold mark_activity_completed. rewrite get_course_progress_eq.
      rewrite save_init. congruence. }
    rewrite is_activity_completed_eq. simpl.
    apply str_in_spec, mark_activity_completed_elem.
Qed.

(** X2.  Failure records pile up and are never retracted: every call of
    [mark_activity_failed] appends one record, also for a url that already
    has one, and a later [mark_activity_completed] of the url leaves the
    failed list as it is, so a url can stand in both lists. *)
Theorem failures_accumulate (t1 t2 t3 : timestamp) (cid url e1 e2 : string)
    (pm : ProgressManager) :
  let pm1 := mark_activity_failed t1 cid url e1 pm in
  let pm2 := mark_activity_failed t2 cid url e2 pm1 in
  let pm3 := mark_activity_completed t3 cid url pm2 in
  failed_activities (course_of cid pm2) =
    failed_activities (course_of cid pm)
      ++ [ {| f_url := url; f_error := e1; f_timestamp := t1 |};
           {| f_url := url; f_error := e2; f_timestamp := t2 |} ]
  ∧ failed_activities (course_of cid pm3) = failed_activities (course_of cid pm2)
  ∧ url ∈ completed_activities (course_of cid pm3)
  ∧ completed_activities (course_of cid pm2) = completed_activities (course_of cid pm).
Proof.
  intros pm1 pm2 pm3. subst pm1 pm2 pm3.
  rewrite !mark_activity_failed_course.
  cbn [failed_activities completed_activities append_failed].
  split_and!.
  - by rewrite <- app_assoc.
  - unfold mark_activity_completed. rewrite get_course_progress_eq, course_of_save.
    destruct (negb _).
    + rewrite course_of_update by (by rewrite ensure_course_present, course_of_ensure).
      cbn [failed_activities append_completed].
      by rewrite course_of_ensure, !mark_activity_failed_course.
    + by rewrite course_of_ensure, !mark_activity_failed_course.
  - apply mark_activity_completed_elem.
  - reflexivity.
Qed.

(** * Relations kept along a run *)

Section Preserved.
Context (skips : Prop) (C : string → Prop)
  (Rp : ProgressManager → ProgressManager → Prop)
  (Rs : Statistics → Statistics → Prop)
  (HP : preserved skips C Rp Rs).
Context (cfg : Config) (b : Browser).

Lemma world_rel_refl (w : World) : world_rel Rp Rs w w.
Proof. split; [apply (pr_refl _ _ _ _ HP) | apply (ps_refl _ _ _ _ HP)]. Qed.

Lemma world_rel_trans (w1 w2 w3 : World) : world_rel Rp Rs w1 w2 → world_rel Rp Rs w2 w3 → world_rel Rp Rs w1 w3.
Proof.
  intros [H1 H2] [H3 H4]. split.
  - by eapply (pr_trans _ _ _ _ HP).
  - by eapply (ps_trans _ _ _ _ HP).
Qed.

(** A step that leaves the ledger and the statistics alone. *)
Lemma world_rel_same (w w' : World) :
  progress w' = progress w → stats w' = stats w → world_rel Rp Rs w w'.
Proof.
  intros Hp Hs. split; [rewrite Hp; apply (pr_refl _ _ _ _ HP)|rewrite Hs; apply (ps_refl _ _ _ _ HP)].
Qed.

Lemma record_completed_rel (kind : string) (a : Activity) (cn cid : string) (w : World) :
  C cid → world_rel Rp Rs w (record_completed kind a cn cid w).
Proof.
  intros Hc. split; cbn.
  - by apply (pr_completed _ _ _ _ HP).
  - apply (ps_completed _ _ _ _ HP).
Qed.

Lemma record_failure_rel (page : nat) (a : Activity) (cn cid e : string) (w : World) :
  C cid → world_rel Rp Rs w (record_failure page a cn cid e w).
Proof.
  intros Hc. split; cbn.
  - by apply (pr_failed _ _ _ _ HP).
  - apply (ps_error _ _ _ _ HP).
Qed.

Lemma resume_kind_rel (kind prefix : string) (a : Activity) (cn cid : string) (w : World) :
  C cid → world_rel Rp Rs w (resume_kind kind prefix b a cn cid w).2.
Proof.
  intros Hc. unfold resume_kind. destruct (navigate b (a_url a) (clock w)).
  - apply world_rel_refl.
  - by apply record_completed_rel.
Qed.

Lemma dispatch_rel (page : nat) (a : Activity) (cn cid : string) (w : World) :
  C cid → world_rel Rp Rs w (dispatch b page a cn cid w).2.
Proof.
  intros Hc. rewrite dispatch_eq.
  eapply world_rel_trans; [|by apply resume_kind_rel].
  by apply world_rel_same.
Qed.

Lemma retry_loop_rel (page : nat) (a : Activity) (cn cid : string)
    (remaining attempt : nat) (w : World) :
  C cid → world_rel Rp Rs w (retry_loop cfg b page a cn cid remaining attempt w).2.
Proof.
  intros Hc. revert attempt w. induction remaining as [|r IH]; intros attempt w.
  - apply world_rel_refl.
  - cbn [retry_loop]. pose proof (dispatch_rel page a cn cid w Hc) as Hd.
    destruct (dispatch b page a cn cid w) as [[e|] w1]; cbn [snd] in Hd; [|done].
    destruct (attempt <? max_retries cfg).
    + eapply world_rel_trans; [exact Hd|].
      eapply world_rel_trans; [|apply IH]. by apply world_rel_same.
    + eapply world_rel_trans; [exact Hd|]. by apply record_failure_rel.
Qed.

Lemma process_activity_with_retry_rel (page : nat) (a : Activity) (cn cid : string)
    (w : World) :
  C cid → skips ∨ outstanding a = true →
  world_rel Rp Rs w (process_activity_with_retry cfg b page a cn cid w).2.
Proof.
  intros Hc Hs. unfold process_activity_with_retry.
  destruct (is_completed a) eqn:Ec; [apply world_rel_refl|].
  destruct (should_skip a) eqn:Es; [|by apply retry_loop_rel].
  assert (skips) as Hsk.
  { destruct Hs as [?|Ho]; [done|]. unfold outstanding in Ho. by rewrite Ec, Es in Ho. }
  destruct (contains "quiz" (a_type a)).
  { split; [apply (pr_refl _ _ _ _ HP) | by apply (ps_skipped _ _ _ _ HP)]. }
  destruct (contains "assign" (a_type a)).
  { split; [apply (pr_refl _ _ _ _ HP) | by apply (ps_skipped _ _ _ _ HP)]. }
  apply world_rel_refl.
Qed.

Lemma task_step_rel (cn cid : string) (page : nat) (a : Activity) (st : TaskState)
    (w : World) :
  C cid → skips ∨ outstanding a = true →
  world_rel Rp Rs w (task_step cfg b cn cid page a st w).2.
Proof.
  intros Hc Hs. destruct st as [|n|n| |r]; cbn [task_step].
  - destruct (is_completed a || should_skip a || (max_retries cfg =? 0)).
    + pose proof (process_activity_with_retry_rel page a cn cid
                    (emit (Start page (a_url a)) w) Hc Hs) as H.
      destruct (process_activity_with_retry cfg b page a cn cid _) as [r w1].
      cbn [snd] in *. eapply world_rel_trans; [by apply world_rel_same|].
      eapply world_rel_trans; [exact H|]. by apply world_rel_same.
    + by apply world_rel_same.
  - rewrite resume_dispatch_eq.
    pose proof (resume_kind_rel (kind_of a) (error_prefix a) a cn cid w Hc) as H.
    destruct (resume_kind _ _ b a cn cid w) as [[e|] w1]; cbn [snd] in *.
    + destruct (n <? max_retries cfg); cbn [snd].
      * eapply world_rel_trans; [exact H|]. by apply world_rel_same.
      * eapply world_rel_trans; [exact H|]. by apply record_failure_rel.
    + eapply world_rel_trans; [exact H|]. by apply world_rel_same.
  - by apply world_rel_same.
  - by apply world_rel_same.
  - apply world_rel_refl.
Qed.

Lemma run_schedule_activities (cn cid : string) (sched : list nat) (tasks : list Task)
    (w : World) :
  map t_activity (run_schedule cfg b cn cid sched tasks w).1 = map t_activity tasks.
Proof.
  destruct (run_schedule cfg b cn cid sched tasks w) as [tasks1 w1] eqn:Hrun.
  destruct (run_schedule_spec _ _ _ _ _ _ _ _ _ Hrun) as (evs & _ & _ & Hrel & _).
  apply (Forall2_task_rel_pages _ _ _ _ Hrel).
Qed.

Lemma run_schedule_rel (cn cid : string) (sched : list nat) (tasks : list Task) (w : World) :
  C cid → skips ∨ Forall (λ a, outstanding a = true) (map t_activity tasks) →
  world_rel Rp Rs w (run_schedule cfg b cn cid sched tasks w).2.
Proof.
  intros Hc. revert tasks w. induction sched as [|i sched IH]; intros tasks w Hs.
  - apply world_rel_refl.
  - cbn [run_schedule].
    pose proof (run_schedule_activities cn cid [i] tasks w) as Hact.
    cbn [run_schedule] in Hact.
    assert (world_rel Rp Rs w (step_nth cfg b cn cid i tasks w).2) as Hstep.
    { unfold step_nth. destruct (tasks !! i) as [t|] eqn:Hi; [|apply world_rel_refl].
      unfold step_task.
      assert (skips ∨ outstanding (t_activity t) = true) as Hst.
      { destruct Hs as [?|Hs]; [by left|]. right.
        rewrite Forall_forall in Hs. apply Hs, list_elem_of_fmap. exists t.
        split; [done|]. by eapply list_elem_of_lookup_2. }
      pose proof (task_step_rel cn cid (t_page t) (t_activity t) (t_state t) w Hc Hst) as H.
      by destruct (task_step cfg b cn cid _ _ _ w). }
    destruct (step_nth cfg b cn cid i tasks w) as [tasks1 w1]. cbn [fst snd] in *.
    eapply world_rel_trans; [exact Hstep | apply IH]. by rewrite Hact.
Qed.

Lemma gather_rel (cn cid : string) (sched : list nat) (tasks : list Task) (w : World) :
  C cid → skips ∨ Forall (λ a, outstanding a = true) (map t_activity tasks) →
  world_rel Rp Rs w (gather cfg b cn cid sched tasks w).2.
Proof.
  intros Hc Hs. unfold gather, drain.
  pose proof (run_schedule_rel cn cid sched tasks w Hc Hs) as H1.
  pose proof (run_schedule_activities cn cid sched tasks w) as Hact.
  destruct (run_schedule cfg b cn cid sched tasks w) as [tasks1 w1]. cbn [fst snd] in *.
  eapply world_rel_trans; [exact H1 | apply run_schedule_rel; [done | by rewrite Hact]].
Qed.

Lemma new_pages_rel (n : nat) (w : World) : world_rel Rp Rs w (new_pages n w).2.
Proof.
  revert w. induction n as [|n IH]; intros w; [apply world_rel_refl|].
  cbn [new_pages]. unfold new_page.
  match goal with |- context [new_pages n ?w0] => pose proof (IH w0) as H;
    destruct (new_pages n w0) as [ps w2] end.
  cbn [snd] in *. eapply world_rel_trans; [|exact H]. by apply world_rel_same.
Qed.

Lemma close_pages_rel (pages : list nat) (w : World) : world_rel Rp Rs w (close_pages pages w).
Proof.
  revert w. induction pages as [|p pages IH]; intros w; [apply world_rel_refl|].
  cbn [close_pages]. eapply world_rel_trans; [|apply IH]. by apply world_rel_same.
Qed.

Lemma run_batch_rel (cn cid : string) (k : nat) (batch : list Activity) (w : World) :
  C cid → skips ∨ Forall (λ a, outstanding a = true) batch →
  world_rel Rp Rs w (run_batch cfg b cn cid k batch w).2.
Proof.
  intros Hc Hs. unfold run_batch.
  pose proof (new_pages_rel (length batch) w) as H1.
  destruct (new_pages_spec (length batch) w) as (Hps & _ & _).
  destruct (new_pages (length batch) w) as [pages w1]. cbn [fst snd] in H1, Hps.
  destruct (make_tasks_fields pages batch) as (_ & Hac & _).
  { rewrite Hps. by rewrite length_seq. }
  rewrite <- Hac in Hs.
  match goal with |- context [gather cfg b cn cid ?s ?t w1] =>
    pose proof (gather_rel cn cid s t w1 Hc Hs) as H2;
    destruct (gather cfg b cn cid s t w1) as [results w2] end.
  cbn [snd] in *.
  eapply world_rel_trans; [exact H1|]. eapply world_rel_trans; [exact H2|].
  eapply world_rel_trans; [apply close_pages_rel|]. by apply world_rel_same.
Qed.

Lemma run_batches_rel (cn cid : string) (bs : list (list Activity)) (k : nat) (w : World) :
  C cid → skips ∨ Forall (Forall (λ a, outstanding a = true)) bs →
  world_rel Rp Rs w (run_batches cfg b cn cid k bs w).2.
Proof.
  intros Hc Hs. revert k w. induction bs as [|batch bs IH]; intros k w;
    [apply world_rel_refl|].
  cbn [run_batches].
  assert (skips ∨ Forall (λ a, outstanding a = true) batch) as Hs1.
  { destruct Hs as [?|Hs]; [by left|]. right. by apply Forall_cons in Hs as [? _]. }
  assert (skips ∨ Forall (Forall (λ a, outstanding a = true)) bs) as Hs2.
  { destruct Hs as [?|Hs]; [by left|]. right. by apply Forall_cons in Hs as [_ ?]. }
  specialize (IH Hs2).
  pose proof (run_batch_rel cn cid k batch w Hc Hs1) as H1.
  destruct (run_batch cfg b cn cid k batch w) as [results w1]. cbn [snd] in H1.
  pose proof (IH (S k) w1) as H2.
  destruct (run_batches cfg b cn cid (S k) bs w1) as [more w2]. cbn [snd] in *.
  by eapply world_rel_trans.
Qed.

Lemma process_activities_parallel_rel (activities : list Activity) (cn cid : string)
    (w : World) :
  C cid → world_rel Rp Rs w (process_activities_parallel cfg b activities cn cid w).2.
Proof.
  intros Hc. unfold process_activities_parallel.
  destruct (filter _ activities) as [|a0 rest] eqn:Heql; [apply world_rel_refl|].
  destruct (parallel_tabs cfg =? 0) eqn:Hw; [apply world_rel_refl|].
  apply Nat.eqb_neq in Hw.
  match goal with |- context [run_batches cfg b cn cid 0 ?bs w] =>
    assert (Forall (Forall (λ a, outstanding a = true)) bs) as Hall;
    [| pose proof (run_batches_rel cn cid bs 0 w Hc (or_intror Hall)) as H;
       destruct (run_batches cfg b cn cid 0 bs w) as [results w1] ] end.
  { apply Forall_forall. intros batch Hin.
    apply list_elem_of_lookup in Hin as [i Hi].
    apply batches_lookup in Hi as (-> & _ & _); [|done].
    apply Forall_forall. intros a Ha.
    apply subseteq_take, subseteq_drop in Ha.
    rewrite <- Heql in Ha. by apply list_elem_of_filter in Ha as [? _]. }
  exact H.
Qed.

Lemma discover_loop_rel (cid : string) (elements : list Element) (seen : gset string)
    (pm : ProgressManager) :
  C cid → Rp pm (discover_loop cfg cid elements seen pm).2.
Proof.
  intros Hc. revert seen pm. induction elements as [|el rest IH]; intros seen pm.
  - apply (pr_refl _ _ _ _ HP).
  - cbn [discover_loop].
    destruct (get_attribute_href el) as [[href|]|]; [|apply IH|apply IH].
    destruct (_ || _ || _); [apply IH|].
    destruct (inner_text el) as [text|]; [|apply IH].
    destruct (bool_decide (strip text = "")); [apply IH|].
    rewrite is_activity_completed_eq.
    match goal with |- context [discover_loop cfg cid rest ?s ?p] =>
      pose proof (IH s p) as H; destruct (discover_loop cfg cid rest s p) as [acts pm2] end.
    cbn [snd] in *. eapply (pr_trans _ _ _ _ HP); [|exact H].
    by apply (pr_ensure _ _ _ _ HP).
Qed.

Lemma discover_activities_rel (located : result (list Element)) (cid : string)
    (pm : ProgressManager) :
  C cid → Rp pm (discover_activities cfg located cid pm).2.
Proof.
  intros Hc. destruct located; [by apply discover_loop_rel | apply (pr_refl _ _ _ _ HP)].
Qed.

Lemma update_course_status_rel (cid : string) (w : World) :
  C cid → world_rel Rp Rs w (update_course_status cid w).
Proof.
  intros Hc. unfold update_course_status.
  rewrite get_course_completion_percent_eq. split; cbn.
  - eapply (pr_trans _ _ _ _ HP); [by apply (pr_ensure _ _ _ _ HP)|].
    eapply (pr_trans _ _ _ _ HP); [by apply (pr_status _ _ _ _ HP)|].
    apply (pr_save _ _ _ _ HP).
  - apply (ps_processed _ _ _ _ HP).
Qed.

Lemma course_error_rel (course : Course) (w : World) : world_rel Rp Rs w (course_error course w).
Proof. split; cbn; [apply (pr_refl _ _ _ _ HP) | apply (ps_error _ _ _ _ HP)]. Qed.

Lemma process_course_body_rel (page : nat) (course : Course) (w : World) :
  C (course_id course) → world_rel Rp Rs w (process_course_body cfg b page course w).
Proof.
  intros Hc. unfold process_course_body.
  set (w2 := await (Goto page (course_url course)) w).
  assert (world_rel Rp Rs w w2) as H2 by (by apply world_rel_same).
  eapply world_rel_trans; [exact H2|].
  destruct (navigate b (course_url course) (clock w2)); [apply course_error_rel|].
  pose proof (discover_activities_rel (locate_activities b (course_url course))
                (course_id course) (progress w2) Hc) as Hd.
  destruct (discover_activities cfg _ (course_id course) (progress w2)) as [acts pm1].
  cbn [snd] in Hd.
  assert (world_rel Rp Rs w2 (with_progress pm1 w2)) as H3 by (split; [exact Hd | apply (ps_refl _ _ _ _ HP)]).
  eapply world_rel_trans; [exact H3|].
  destruct acts as [|a0 rest]; [by apply world_rel_same|].
  rewrite get_course_progress_eq.
  match goal with |- context [process_activities_parallel cfg b ?l ?n ?i ?w0] =>
    assert (world_rel Rp Rs (with_progress pm1 w2) w0) as H4;
    [| pose proof (process_activities_parallel_rel l n i w0 Hc) as H5;
       destruct (process_activities_parallel cfg b l n i w0) as [[exn res] w5] ] end.
  { split; [|apply (ps_refl _ _ _ _ HP)]. cbn.
    eapply (pr_trans _ _ _ _ HP); [by apply (pr_ensure _ _ _ _ HP)|].
    eapply (pr_trans _ _ _ _ HP); [by apply (pr_name _ _ _ _ HP)|].
    by apply (pr_total _ _ _ _ HP). }
  cbn [snd] in H5.
  eapply world_rel_trans; [exact H4|]. eapply world_rel_trans; [exact H5|].
  destruct exn; [apply course_error_rel | by apply update_course_status_rel].
Qed.

Lemma process_course_rel (course : Course) (w : World) :
  C (course_id course) → world_rel Rp Rs w (process_course cfg b course w).
Proof.
  intros Hc. unfold process_course, new_page.
  match goal with |- context [process_course_body cfg b ?p course ?w0] =>
    pose proof (process_course_body_rel p course w0 Hc) as H end.
  eapply world_rel_trans; [|by apply world_rel_same].
  eapply world_rel_trans; [|by apply world_rel_same].
  eapply world_rel_trans; [|exact H]. by apply world_rel_same.
Qed.

Lemma process_courses_rel (courses : list Course) (w : World) :
  (∀ c, c ∈ courses → C (course_id c)) → world_rel Rp Rs w (process_courses cfg b courses w).
Proof.
  revert w. induction courses as [|c courses IH]; intros w Hc; [apply world_rel_refl|].
  cbn [process_courses]. rewrite get_course_completion_percent_eq.
  assert (C (course_id c)) as Hcc by (apply Hc, elem_of_cons; by left).
  assert (∀ c', c' ∈ courses → C (course_id c')) as Hrest
    by (intros c' Hin; apply Hc, elem_of_cons; by right).
  assert (world_rel Rp Rs w (with_progress (ensure_course (course_id c) (progress w)) w)) as H1.
  { split; cbn; [by apply (pr_ensure _ _ _ _ HP) | apply (ps_refl _ _ _ _ HP)]. }
  destruct (Qleb 100 _).
  - eapply world_rel_trans; [exact H1 | by apply IH].
  - eapply world_rel_trans; [exact H1|].
    eapply world_rel_trans; [by apply process_course_rel | by apply IH].
Qed.

Lemma recon_loop_rel (page : nat) (courses : list Course) (r : ReconData) (w : World) :
  (∀ c, c ∈ courses → C (course_id c)) → world_rel Rp Rs w (recon_loop cfg b page courses r w).2.
Proof.
  revert r w. induction courses as [|c courses IH]; intros r w Hc; [apply world_rel_refl|].
  cbn [recon_loop].
  assert (C (course_id c)) as Hcc by (apply Hc, elem_of_cons; by left).
  assert (∀ c', c' ∈ courses → C (course_id c')) as Hrest
    by (intros c' Hin; apply Hc, elem_of_cons; by right).
  set (w1 := await (Goto page (course_url c)) w).
  assert (world_rel Rp Rs w w1) as H1 by (by apply world_rel_same).
  eapply world_rel_trans; [exact H1|].
  destruct (navigate b (course_url c) (clock w1)); [by apply IH|].
  destruct (locate_activities b (course_url c)) as [links|]; [|by apply IH].
  unfold recon_course. rewrite get_course_progress_eq.
  eapply world_rel_trans; [|by apply IH].
  split; cbn; [by apply (pr_ensure _ _ _ _ HP) | apply (ps_refl _ _ _ _ HP)].
Qed.

Lemma run_reconnaissance_rel (page : nat) (courses : list Course) (w : World) :
  (∀ c, c ∈ courses → C (course_id c)) →
  world_rel Rp Rs w (run_reconnaissance cfg b page courses w).2.
Proof.
  intros Hc. unfold run_reconnaissance.
  match goal with |- context [recon_loop cfg b page courses ?r0 w] =>
    pose proof (recon_loop_rel page courses r0 w Hc) as H;
    destruct (recon_loop cfg b page courses r0 w) as [r w1] end.
  cbn [snd] in H. by destruct (parallel_tabs cfg =? 0).
Qed.
End Preserved.

(** * What a run keeps *)

Lemma course_of_update_cases (cid cid' : string) (f : CourseProgress → CourseProgress)
    (pm : ProgressManager) :
  course_of cid' (update_course cid f pm) = course_of cid' pm
  ∨ (cid' = cid ∧ course_of cid' (update_course cid f pm) = f (course_of cid' pm)).
Proof.
  destruct (decide (cid = cid')) as [<-|Hne].
  - unfold course_of, update_course. cbn. rewrite lookup_alter_eq.
    destruct (courses (data pm) !! cid); cbn; auto.
  - left. by apply course_of_update_ne.
Qed.

Lemma update_status_lists (q : Q) (c : CourseProgress) :
  completed_activities (update_status q c) = completed_activities c
  ∧ failed_activities (update_status q c) = failed_activities c.
Proof. unfold update_status. destruct (Qleb 100 q); [done|]. by destruct (Qltb 0 q). Qed.

Lemma ensure_course_global_stats (cid : string) (pm : ProgressManager) :
  global_stats (data (ensure_course cid pm)) = global_stats (data pm).
Proof. unfold ensure_course. by destruct (courses (data pm) !! cid). Qed.

Lemma mark_activity_completed_course (now : timestamp) (cid url : string)
    (pm : ProgressManager) :
  course_of cid (mark_activity_completed now cid url pm) =
  if str_in url (completed_activities (course_of cid pm))
  then course_of cid pm
  else append_completed url (course_of cid pm).
Proof.
  unfold mark_activity_completed. rewrite get_course_progress_eq, course_of_save.
  destruct (str_in url _); cbn [negb].
  - by rewrite course_of_ensure.
  - rewrite course_of_update by (by rewrite ensure_course_present, course_of_ensure).
    by rewrite course_of_ensure.
Qed.

Lemma mark_activity_completed_global_stats (now : timestamp) (cid url : string)
    (pm : ProgressManager) :
  global_stats (data (mark_activity_completed now cid url pm)) = global_stats (data pm).
Proof.
  unfold mark_activity_completed. rewrite get_course_progress_eq.
  unfold ensure_course. destruct (negb _); destruct (courses (data pm) !! cid); reflexivity.
Qed.

Lemma mark_activity_failed_global_stats (now : timestamp) (cid url e : string)
    (pm : ProgressManager) :
  global_stats (data (mark_activity_failed now cid url e pm)) = global_stats (data pm).
Proof.
  unfold mark_activity_failed. rewrite get_course_progress_eq.
  unfold ensure_course. destruct (courses (data pm) !! cid); reflexivity.
Qed.

Lemma ledger_grows_update (cid : string) (f : CourseProgress → CourseProgress)
    (pm : ProgressManager) :
  (∀ c, completed_activities (f c) = completed_activities c
        ∧ failed_activities (f c) = failed_activities c) →
  ledger_grows pm (update_course cid f pm).
Proof.
  intros Hf. split; [|done]. intros cid'.
  destruct (course_of_update_cases cid cid' f pm) as [->|[_ ->]]; [done|].
  destruct (Hf (course_of cid' pm)) as [-> ->]. done.
Qed.

Lemma ledger_grows_preserved : preserved True (λ _, True) ledger_grows stats_grow.
Proof.
  split.
  - intros pm. split; [|done]. intros cid. done.
  - intros pm1 pm2 pm3 [H1 G1] [H2 G2]. split; [|congruence].
    intros cid. destruct (H1 cid), (H2 cid). split; by etrans.
  - intros cid pm _. split; [|apply ensure_course_global_stats].
    intros cid'. by rewrite course_of_ensure_other.
  - intros now cid url pm _. split; [|apply mark_activity_completed_global_stats].
    intros cid'. destruct (decide (cid' = cid)) as [->|Hne].
    + rewrite mark_activity_completed_course. destruct (str_in _ _); [done|].
      split; [by apply prefix_app_r | done].
    + by rewrite mark_activity_completed_other.
  - intros now cid url e pm _. split; [|apply mark_activity_failed_global_stats].
    intros cid'. destruct (decide (cid' = cid)) as [->|Hne].
    + rewrite mark_activity_failed_course. split; [done | by apply prefix_app_r].
    + by rewrite mark_activity_failed_other.
  - intros cid n pm _. by apply ledger_grows_update.
  - intros cid n pm _. by apply ledger_grows_update.
  - intros cid q pm _. apply ledger_grows_update. intros c. apply update_status_lists.
  - intros now pm. split; [|done]. intros cid. done.
  - intros s. by split_and!.
  - intros s1 s2 s3 (?&?&?&?&?&?&?&?) (?&?&?&?&?&?&?&?).
    split_and!; first [lia | by etrans].
  - intros now cn an ty s. unfold stats_grow. cbn. split_and!; try done; try lia.
    by apply prefix_app_r.
  - intros _ cn an ty s. unfold stats_grow. cbn. split_and!; try done; try lia.
    + destruct (contains "quiz" _); [by apply prefix_app_r | done].
    + destruct (contains "quiz" _); [done|].
      destruct (contains "assign" _); [by apply prefix_app_r | done].
  - intros now msg s. unfold stats_grow. cbn. split_and!; try done; try lia.
    by apply prefix_app_r.
  - intros s. unfold stats_grow. cbn. split_and!; try done; lia.
Qed.

(** X5.  Nothing is ever taken out of the ledger or of the statistics:
    across [process_course], the course loop of [main] and the
    reconnaissance, the completed and the failed list of every course are
    extended at their end only, the counters and lists of the statistics
    only grow, and [global_stats] of the ledger, which no function writes,
    is as before. *)
Theorem run_only_grows (cfg : Config) (b : Browser) (page : nat) (course : Course)
    (courses : list Course) (w : World) :
  world_rel ledger_grows stats_grow w (process_course cfg b course w)
  ∧ world_rel ledger_grows stats_grow w (process_courses cfg b courses w)
  ∧ world_rel ledger_grows stats_grow w (run_reconnaissance cfg b page courses w).2.
Proof.
  split_and!.
  - by apply (process_course_rel _ _ _ _ ledger_grows_preserved).
  - by apply (process_courses_rel _ _ _ _ ledger_grows_preserved).
  - by apply (run_reconnaissance_rel _ _ _ _ ledger_grows_preserved).
Qed.

Lemma ensure_course_lookup_ne (cid cid' : string) (pm : ProgressManager) :
  cid ≠ cid' → courses (data (ensure_course cid pm)) !! cid' = courses (data pm) !! cid'.
Proof.
  intros Hne. rewrite ensure_course_lookup.
  destruct (courses (data pm) !! cid'); [done|]. by rewrite decide_False.
Qed.

Lemma update_course_lookup_ne (cid cid' : string) (f : CourseProgress → CourseProgress)
    (pm : ProgressManager) :
  cid ≠ cid' → courses (data (update_course cid f pm)) !! cid' = courses (data pm) !! cid'.
Proof. intros Hne. unfold update_course. cbn. by rewrite lookup_alter_ne. Qed.

Lemma mark_activity_completed_lookup_ne (now : timestamp) (cid cid' url : string)
    (pm : ProgressManager) :
  cid ≠ cid' →
  courses (data (mark_activity_completed now cid url pm)) !! cid' = courses (data pm) !! cid'.
Proof.
  intros Hne. unfold mark_activity_completed. rewrite get_course_progress_eq.
  destruct (negb _); cbn [save data courses].
  - by rewrite update_course_lookup_ne, ensure_course_lookup_ne.
  - by rewrite ensure_course_lookup_ne.
Qed.

Lemma mark_activity_failed_lookup_ne (now : timestamp) (cid cid' url e : string)
    (pm : ProgressManager) :
  cid ≠ cid' →
  courses (data (mark_activity_failed now cid url e pm)) !! cid' = courses (data pm) !! cid'.
Proof.
  intros Hne. unfold mark_activity_failed. rewrite get_course_progress_eq.
  cbn [save data courses]. by rewrite update_course_lookup_ne, ensure_course_lookup_ne.
Qed.

Lemma others_untouched_preserved (C : string → Prop) :
  preserved True C (others_untouched C) (λ _ _, True).
Proof.
  split; try done.
  - intros pm1 pm2 pm3 H1 H2 cid Hc. by rewrite H2, H1.
  - intros cid pm Hc cid' Hn. apply ensure_course_lookup_ne. by intros ->.
  - intros now cid url pm Hc cid' Hn. apply mark_activity_completed_lookup_ne. by intros ->.
  - intros now cid url e pm Hc cid' Hn. apply mark_activity_failed_lookup_ne. by intros ->.
  - intros cid n pm Hc cid' Hn. apply update_course_lookup_ne. by intros ->.
  - intros cid n pm Hc cid' Hn. apply update_course_lookup_ne. by intros ->.
  - intros cid q pm Hc cid' Hn. apply update_course_lookup_ne. by intros ->.
Qed.

(** X6.  [process_course] reads and writes the record of its own course
    only: the entry of every other course id in the courses map is as
    before, whatever the browser answers and in whatever order the tasks
    run. *)
Theorem process_course_touches_one_course (cfg : Config) (b : Browser) (course : Course)
    (w : World) (cid : string) :
  cid ≠ course_id course →
  courses (data (progress (process_course cfg b course w))) !! cid =
  courses (data (progress w)) !! cid.
Proof.
  intros Hne.
  destruct (process_course_rel _ _ _ _ (others_untouched_preserved (λ c, c = course_id course))
              cfg b course w eq_refl) as [H _].
  by apply H.
Qed.

Lemma ledger_wf_update (cid : string) (f : CourseProgress → CourseProgress)
    (pm : ProgressManager) :
  (∀ c, completed_activities (f c) = completed_activities c) →
  ledger_wf pm → ledger_wf (update_course cid f pm).
Proof.
  intros Hf Hwf cid'.
  destruct (course_of_update_cases cid cid' f pm) as [->|[_ ->]]; [apply Hwf|].
  rewrite Hf. apply Hwf.
Qed.

Lemma ledger_wf_preserved :
  preserved True (λ _, True) (λ pm pm', ledger_wf pm → ledger_wf pm') (λ _ _, True).
Proof.
  split; try done.
  - auto.
  - intros cid pm _. apply ledger_wf_ensure.
  - intros now cid url pm _. apply ledger_wf_mark_completed.
  - intros now cid url e pm _. apply ledger_wf_mark_failed.
  - intros cid n pm _. by apply ledger_wf_update.
  - intros cid n pm _. by apply ledger_wf_update.
  - intros cid q pm _. apply ledger_wf_update. intros c. apply update_status_lists.
Qed.

(** X7.  No duplicate ever enters a completed list: if the completed lists
    of the ledger are duplicate-free before, they are so after the
    reconnaissance, after the course loop, and after both in a row. *)
Theorem run_keeps_completed_lists_duplicate_free (cfg : Config) (b : Browser) (page : nat)
    (courses : list Course) (w : World) :
  ledger_wf (progress w) →
  ledger_wf (progress (run_reconnaissance cfg b page courses w).2)
  ∧ ledger_wf (progress (process_courses cfg b courses w))
  ∧ ledger_wf (progress (process_courses cfg b courses
                           (run_reconnaissance cfg b page courses w).2)).
Proof.
  intros Hwf.
  assert (H1 : ledger_wf (progress (run_reconnaissance cfg b page courses w).2)).
  { by apply (run_reconnaissance_rel _ _ _ _ ledger_wf_preserved cfg b page courses w). }
  split_and!; [done| |].
  - by apply (process_courses_rel _ _ _ _ ledger_wf_preserved cfg b courses w).
  - by apply (process_courses_rel _ _ _ _ ledger_wf_preserved cfg b courses).
Qed.

Lemma stats_wf_preserved :
  preserved True (λ _, True) (λ _ _, True) (λ s s', stats_wf s → stats_wf s').
Proof.
  split; try done.
  - auto.
  - intros now cn an ty s (H1 & H2 & H3). unfold stats_wf. cbn.
    rewrite length_app. cbn. split_and!; [done|lia|done].
  - intros _ cn an ty s (H1 & H2 & H3). unfold stats_wf. cbn. split_and!; [done|done|].
    destruct (contains "quiz" _); [rewrite length_app; cbn; lia|].
    destruct (contains "assign" _); [rewrite length_app; cbn; lia|lia].
  - intros now msg s (H1 & H2 & H3). unfold stats_wf. cbn.
    rewrite length_app. cbn. split_and!; [lia|done|done].
Qed.

(** X8.  The counters of the statistics stay in step with the lists: if
    [activities_failed] is the length of [errors] (course errors
    included), [activities_completed] the length of the completed list and
    the quiz and assignment lists together are no longer than
    [activities_skipped], then the same holds after the course loop. *)
Theorem run_keeps_counters_in_step (cfg : Config) (b : Browser) (courses : list Course)
    (w : World) :
  stats_wf (stats w) → stats_wf (stats (process_courses cfg b courses w)).
Proof.
  intros Hwf.
  by apply (process_courses_rel _ _ _ _ stats_wf_preserved cfg b courses w).
Qed.

Lemma skip_tally_preserved :
  preserved False (λ _, True) (λ _ _, True) skip_tally_same.
Proof. split; try done. intros s1 s2 s3 (?&?&?) (?&?&?). split_and!; congruence. Qed.

(** X9.  A run never tallies a skipped activity: the batch scheduler
    filters the skip-eligible activities out before it makes tasks, so the
    branch of [process_activity_with_retry] that logs them is not reached,
    and [activities_skipped], [quizzes_found] and [assignments_found] are
    after [process_course] and after the course loop what they were
    before. *)
Theorem run_never_tallies_skips (cfg : Config) (b : Browser) (course : Course)
    (courses : list Course) (w : World) :
  skip_tally_same (stats w) (stats (process_course cfg b course w))
  ∧ skip_tally_same (stats w) (stats (process_courses cfg b courses w)).
Proof.
  split.
  - by apply (process_course_rel _ _ _ _ skip_tally_preserved).
  - by apply (process_courses_rel _ _ _ _ skip_tally_preserved).
Qed.

Lemma process_course_touches_one_course_witness :
  courses (data (progress (process_course CONFIG stuck_browser course_12
                             (with_progress resumed_manager fresh_world)))) !! "1" =
  courses (data resumed_manager) !! "1".
Proof.
  apply (process_course_touches_one_course CONFIG stuck_browser course_12
           (with_progress resumed_manager fresh_world) "1").
  discriminate.
Defined.

Lemma run_keeps_completed_lists_duplicate_free_witness :
  ledger_wf (progress (process_courses CONFIG half_working_browser [course_12] fresh_world)).
Proof.
  apply (run_keeps_completed_lists_duplicate_free CONFIG half_working_browser 0 [course_12]
           fresh_world).
  apply ledger_wf_fresh.
Defined.

Lemma run_keeps_counters_in_step_witness :
  stats_wf (stats (process_courses CONFIG stuck_browser [course_12] fresh_world)).
Proof.
  apply (run_keeps_counters_in_step CONFIG stuck_browser [course_12] fresh_world).
  unfold stats_wf. simpl. lia.
Defined.

(** X3.  [mark_activity_completed] and [mark_activity_failed] change one
    list of one course and nothing else: the records of the other courses
    and the global counters are as before, and of the course itself the
    name, the status, the activity count and the other list are as
    before. *)
Theorem marks_touch_one_list (now : timestamp) (cid url e : string) (pm : ProgressManager) :
  let c := course_of cid pm in
  let c1 := course_of cid (mark_activity_completed now cid url pm) in
  let c2 := course_of cid (mark_activity_failed now cid url e pm) in
  (∀ cid', cid' ≠ cid →
     course_of cid' (mark_activity_completed now cid url pm) = course_of cid' pm
     ∧ course_of cid' (mark_activity_failed now cid url e pm) = course_of cid' pm)
  ∧ global_stats (data (mark_activity_completed now cid url pm)) = global_stats (data pm)
  ∧ global_stats (data (mark_activity_failed now cid url e pm)) = global_stats (data pm)
  ∧ (cp_name c1, cp_status c1, total_activities c1, last_activity_index c1,
     failed_activities c1) =
    (cp_name c, cp_status c, total_activities c, last_activity_index c,
     failed_activities c)
  ∧ (cp_name c2, cp_status c2, total_activities c2, last_activity_index c2,
     completed_activities c2) =
    (cp_name c, cp_status c, total_activities c, last_activity_index c,
     completed_activities c).
Proof.
  intros c c1 c2. subst c c1 c2. split_and!.
  - intros cid' Hne. split.
    + by apply mark_activity_completed_other.
    + by apply mark_activity_failed_other.
  - apply mark_activity_completed_global_stats.
  - apply mark_activity_failed_global_stats.
  - rewrite mark_activity_completed_course. by destruct (str_in _ _).
  - by rewrite mark_activity_failed_course.
Qed.

Lemma foldl_ensure_known (l : list Course) (pm : ProgressManager) :
  (∀ course, course ∈ l → is_Some (courses (data pm) !! course_id course)) →
  foldl (λ pm c, ensure_course (course_id c) pm) pm l = pm.
Proof.
  induction l as [|c l IH]; intros Hl; [done|]. cbn [foldl].
  destruct (Hl c) as [x Hx]; [apply elem_of_cons; by left|].
  rewrite (ensure_course_present_id _ _ _ Hx). apply IH.
  intros c' Hin. apply Hl, elem_of_cons. by right.
Qed.

(** X4.  On a course id that the courses map holds, the queries are free of
    effects: [get_course_progress] returns the stored record, and it,
    [is_activity_completed], [get_course_completion_percent] and
    [prioritize_courses] (on courses that are all known) leave the manager
    exactly as it was. *)
Theorem queries_on_known_course (cid url : string) (c : CourseProgress)
    (pm : ProgressManager) (l : list Course) :
  courses (data pm) !! cid = Some c →
  (∀ course, course ∈ l → is_Some (courses (data pm) !! course_id course)) →
  get_course_progress cid pm = (c, pm)
  ∧ (is_activity_completed cid url pm).2 = pm
  ∧ (get_course_completion_percent cid pm).2 = pm
  ∧ (prioritize_courses l pm).2 = pm.
Proof.
  intros Hc Hl.
  rewrite get_course_progress_eq, is_activity_completed_eq,
    get_course_completion_percent_eq.
  unfold prioritize_courses. rewrite assign_priorities_eq. cbn [fst snd].
  rewrite (ensure_course_present_id _ _ _ Hc), foldl_ensure_known by done.
  unfold course_of. rewrite Hc. done.
Qed.

Lemma queries_on_known_course_witness :
  (get_course_completion_percent "1" resumed_manager).2 = resumed_manager
  ∧ (prioritize_courses [course_A] resumed_manager).2 = resumed_manager.
Proof.
  destruct (queries_on_known_course "1" "" (course_of "1" resumed_manager)
              resumed_manager [course_A]) as (_ & _ & H1 & H2).
  - reflexivity.
  - intros course [->|Hin%elem_of_nil]%elem_of_cons; [|done]. by eexists.
  - by split.
Defined.

(** * The reconnaissance *)

Lemma length_filter_flag {A} (f : A → bool) (l : list A) :
  length (filter (λ a, f a = false) l) + length (filter (λ a, f a = true) l) = length l.
Proof.
  induction l as [|x l IH]; [done|].
  rewrite !filter_cons. destruct (f x); repeat case_decide; try done; cbn; lia.
Qed.

Lemma recon_course_eq (cfg : Config) (course : Course) (links : list Element)
    (pm : ProgressManager) :
  (recon_course cfg course links pm).2 = ensure_course (course_id course) pm
  ∧ detail_ok (recon_course cfg course links pm).1
  ∧ cd_already_done (recon_course cfg course links pm).1 =
      length (completed_activities (course_of (course_id course) pm)).
Proof.
  unfold recon_course. rewrite get_course_progress_eq. cbn [fst snd].
  split_and!; [done| |done]. unfold detail_ok. cbn.
  pose proof (length_filter_flag snd (recon_links cfg links ∅)) as H. cbn beta in H.
  split_and!; [symmetry; exact H | done | apply Nat.le_sub_l].
Qed.

Lemma estimate_minutes_eq (cfg : Config) (n : nat) :
  parallel_tabs cfg ≠ 0 →
  estimate_minutes cfg n = n * 3 / (parallel_tabs cfg * 60).
Proof.
  intros Hw. unfold estimate_minutes.
  destruct (parallel_tabs cfg) as [|t]; [done|].
  unfold Qdiv, Qmult, Qinv, inject_Z, Qfloor.
  change (Z.of_nat (S t)) with (Z.pos (Pos.of_succ_nat t)). cbn [Qnum Qden].
  rewrite !Z.mul_1_r, Pos.mul_1_l.
  rewrite <- (Nat2Z.id (n * 3 / (S t * 60))). f_equal.
  rewrite Nat2Z.inj_div. f_equal.
  rewrite Pos2Z.inj_mul. pose proof (Zpos_P_of_succ_nat t). lia.
Qed.

(** What the loop adds to the report data, and what it leaves alone. *)
Lemma recon_loop_spec (cfg : Config) (b : Browser) (page : nat) (courses : list Course)
    (r : ReconData) (w : World) :
  let r' := (recon_loop cfg b page courses r w).1 in
  let w' := (recon_loop cfg b page courses r w).2 in
  ∃ ds,
    courses_detail r' = courses_detail r ++ ds
    ∧ length ds ≤ length courses
    ∧ Forall detail_ok ds
    ∧ total_courses r' = total_courses r
    ∧ estimated_time_minutes r' = estimated_time_minutes r
    ∧ recon_total_activities r' = recon_total_activities r + sum_list_with cd_total_activities ds
    ∧ total_to_process r' = total_to_process r + sum_list_with cd_to_process ds
    ∧ total_to_skip r' = total_to_skip r + sum_list_with cd_to_skip ds
    ∧ trace w' = trace w ++ map (λ c, Goto page (course_url c)) courses
    ∧ stats w' = stats w
    ∧ next_page w' = next_page w
    ∧ file (progress w') = file (progress w)
    ∧ (∀ cid, course_of cid (progress w') = course_of cid (progress w)).
Proof.
  revert r w. induction courses as [|c courses IH]; intros r w; cbn zeta.
  - exists []. cbn. rewrite !app_nil_r, !Nat.add_0_r. by split_and!.
  - cbn [recon_loop].
    set (w1 := await (Goto page (course_url c)) w).
    assert (Hskip : ∀ r0 pm0,
      file pm0 = file (progress w) →
      (∀ cid, course_of cid pm0 = course_of cid (progress w)) →
      ∀ ds0, courses_detail r0 = courses_detail r ++ ds0 →
      length ds0 ≤ 1 → Forall detail_ok ds0 →
      total_courses r0 = total_courses r →
      estimated_time_minutes r0 = estimated_time_minutes r →
      recon_total_activities r0 = recon_total_activities r + sum_list_with cd_total_activities ds0 →
      total_to_process r0 = total_to_process r + sum_list_with cd_to_process ds0 →
      total_to_skip r0 = total_to_skip r + sum_list_with cd_to_skip ds0 →
      let r' := (recon_loop cfg b page courses r0 (with_progress pm0 w1)).1 in
      let w' := (recon_loop cfg b page courses r0 (with_progress pm0 w1)).2 in
      ∃ ds,
        courses_detail r' = courses_detail r ++ ds
        ∧ length ds ≤ S (length courses)
        ∧ Forall detail_ok ds
        ∧ total_courses r' = total_courses r
        ∧ estimated_time_minutes r' = estimated_time_minutes r
        ∧ recon_total_activities r' = recon_total_activities r + sum_list_with cd_total_activities ds
        ∧ total_to_process r' = total_to_process r + sum_list_with cd_to_process ds
        ∧ total_to_skip r' = total_to_skip r + sum_list_with cd_to_skip ds
        ∧ trace w' = trace w ++ Goto page (course_url c) :: map (λ c, Goto page (course_url c)) courses
        ∧ stats w' = stats w
        ∧ next_page w' = next_page w
        ∧ file (progress w') = file (progress w)
        ∧ (∀ cid, course_of cid (progress w') = course_of cid (progress w))).
    { intros r0 pm0 Hf Hc ds0 Hd Hl Hok Htc Het Hta Htp Hts. cbn zeta.
      destruct (IH r0 (with_progress pm0 w1))
        as (ds & E1 & E2 & E3 & E4 & E5 & E6 & E7 & E8 & E9 & E10 & E11 & E12 & E13).
      exists (ds0 ++ ds). rewrite !sum_list_with_app, length_app.
      split_and!.
      - by rewrite E1, Hd, <- app_assoc.
      - lia.
      - by apply Forall_app.
      - congruence.
      - congruence.
      - lia.
      - lia.
      - lia.
      - rewrite E9. cbn. by rewrite <- app_assoc.
      - by rewrite E10.
      - by rewrite E11.
      - by rewrite E12.
      - intros cid. by rewrite E13. }
    assert (Hnone : ∀ k,
      k = recon_loop cfg b page courses r w1 →
      ∃ ds,
        courses_detail k.1 = courses_detail r ++ ds
        ∧ length ds ≤ S (length courses)
        ∧ Forall detail_ok ds
        ∧ total_courses k.1 = total_courses r
        ∧ estimated_time_minutes k.1 = estimated_time_minutes r
        ∧ recon_total_activities k.1 = recon_total_activities r + sum_list_with cd_total_activities ds
        ∧ total_to_process k.1 = total_to_process r + sum_list_with cd_to_process ds
        ∧ total_to_skip k.1 = total_to_skip r + sum_list_with cd_to_skip ds
        ∧ trace k.2 = trace w ++ Goto page (course_url c) :: map (λ c, Goto page (course_url c)) courses
        ∧ stats k.2 = stats w
        ∧ next_page k.2 = next_page w
        ∧ file (progress k.2) = file (progress w)
        ∧ (∀ cid, course_of cid (progress k.2) = course_of cid (progress w))).
    { intros k ->.
      apply (Hskip r (progress w) eq_refl (λ _, eq_refl) []); cbn;
        rewrite ?app_nil_r, ?Nat.add_0_r; auto. }
    destruct (navigate b (course_url c) (clock w1)); [by apply Hnone|].
    destruct (locate_activities b (course_url c)) as [links|]; [|by apply Hnone].
    destruct (recon_course_eq cfg c links (progress w1)) as (Hpm & Hok & _).
    destruct (recon_course cfg c links (progress w1)) as [d pm1]. cbn [fst snd] in Hpm, Hok.
    subst pm1.
    apply (Hskip (add_detail d r) (ensure_course (course_id c) (progress w1))
             (ensure_course_file _ _) (λ cid, course_of_ensure_other _ cid _) [d]);
      cbn; rewrite ?Nat.add_0_r; auto.
Qed.

Lemma sum_details (ds : list CourseDetail) :
  Forall detail_ok ds →
  sum_list_with cd_total_activities ds =
  sum_list_with cd_to_process ds + sum_list_with cd_to_skip ds.
Proof.
  induction 1 as [|d ds (Hd & _) _ IH]; [done|]. cbn. lia.
Qed.

(** X10.  The report of the reconnaissance adds up.  When [parallel_tabs]
    is positive it has at most one entry per course; in every entry the
    activity count is the sum of the counts to process and to skip and
    [remaining] is the count to process minus the count already done, never
    below 0; the three totals are the sums over the entries; and the
    estimate is [total_to_process * 3] divided by [parallel_tabs * 60],
    rounded down.  When [parallel_tabs] is 0 the function scans all the
    courses and then fails on the division. *)
Theorem reconnaissance_report_adds_up (cfg : Config) (b : Browser) (page : nat)
    (courses : list Course) (w : World) :
  match (run_reconnaissance cfg b page courses w).1 with
  | None => parallel_tabs cfg = 0
  | Some r =>
      parallel_tabs cfg ≠ 0
      ∧ total_courses r = length courses
      ∧ length (courses_detail r) ≤ length courses
      ∧ Forall detail_ok (courses_detail r)
      ∧ recon_total_activities r = sum_list_with cd_total_activities (courses_detail r)
      ∧ total_to_process r = sum_list_with cd_to_process (courses_detail r)
      ∧ total_to_skip r = sum_list_with cd_to_skip (courses_detail r)
      ∧ recon_total_activities r = total_to_process r + total_to_skip r
      ∧ estimated_time_minutes r = total_to_process r * 3 / (parallel_tabs cfg * 60)
  end.
Proof.
  unfold run_reconnaissance.
  match goal with |- context [recon_loop cfg b page courses ?r0 w] =>
    destruct (recon_loop_spec cfg b page courses r0 w)
      as (ds & E1 & E2 & E3 & E4 & E5 & E6 & E7 & E8 & _);
    destruct (recon_loop cfg b page courses r0 w) as [r w1] end.
  cbn [fst snd courses_detail total_courses recon_total_activities total_to_process
       total_to_skip app] in *.
  destruct (Nat.eqb_spec (parallel_tabs cfg) 0) as [H0|Hn]; cbn [fst]; [done|].
  cbn [courses_detail total_courses recon_total_activities total_to_process
       total_to_skip estimated_time_minutes].
  rewrite E1, E6, E7, E8. cbn [Nat.add].
  split_and!; try done.
  - by apply sum_details.
  - by apply estimate_minutes_eq.
Qed.

(** X11.  The reconnaissance is read-only on what the ledger records: it
    visits every course page exactly once, in list order, also when a visit
    fails; it leaves the statistics, the backing file and the record of
    every course as they are (an unknown course gains the default record in
    memory, nothing more). *)
Theorem reconnaissance_is_read_only (cfg : Config) (b : Browser) (page : nat)
    (courses : list Course) (w : World) :
  let w' := (run_reconnaissance cfg b page courses w).2 in
  trace w' = trace w ++ map (λ c, Goto page (course_url c)) courses
  ∧ stats w' = stats w
  ∧ file (progress w') = file (progress w)
  ∧ (∀ cid, course_of cid (progress w') = course_of cid (progress w)).
Proof.
  unfold run_reconnaissance.
  match goal with |- context [recon_loop cfg b page courses ?r0 w] =>
    destruct (recon_loop_spec cfg b page courses r0 w)
      as (ds & _ & _ & _ & _ & _ & _ & _ & _ & E9 & E10 & _ & E12 & E13);
    destruct (recon_loop cfg b page courses r0 w) as [r w1] end.
  cbn [fst snd] in *. by destruct (parallel_tabs cfg =? 0).
Qed.




(** * Open tabs and visits *)

Lemma task_event_mono (urls urls' : list string) (e : Event) :
  urls ⊆ urls' → task_event urls e → task_event urls' e.
Proof. intros Hsub. destruct e; cbn; auto. Qed.

Section Tabs.
Context (cfg : Config) (b : Browser) (cn cid : string).

Lemma task_step_events (page : nat) (a : Activity) (st : TaskState) (w : World) :
  ∃ evs, trace (task_step cfg b cn cid page a st w).2 = trace w ++ evs
         ∧ Forall (task_event [a_url a]) evs.
Proof.
  assert (a_url a ∈ [a_url a]) as Hin by apply list_elem_of_singleton, eq_refl.
  destruct st as [|n|n| |r]; cbn [task_step].
  - destruct (is_completed a || should_skip a || (max_retries cfg =? 0)) eqn:Hq.
    + destruct (process_activity_with_retry_quiet cfg b cn cid page a
                  (emit (Start page (a_url a)) w) Hq) as [Htr _].
      destruct (process_activity_with_retry cfg b page a cn cid _) as [r w1].
      cbn [snd fst] in *. exists [Start page (a_url a); Done page r]. split.
      * cbn. rewrite Htr. cbn. by rewrite <- app_assoc.
      * by repeat constructor.
    + exists [Start page (a_url a); Goto page (a_url a)]. split.
      * cbn. by rewrite <- app_assoc.
      * by repeat constructor.
  - rewrite resume_dispatch_eq.
    destruct (resume_kind_trace b cn cid (kind_of a) (error_prefix a) a w) as [Htr _].
    destruct (resume_kind _ _ b a cn cid w) as [[e|] w1]; cbn [snd] in Htr.
    + destruct (n <? max_retries cfg); cbn [snd].
      * exists [RetrySleep page]. cbn. rewrite Htr. split; [done | by repeat constructor].
      * exists [Screenshot page (screenshot_name cid a)]. cbn. rewrite Htr.
        split; [done | by repeat constructor].
    + exists [Done page true]. cbn. rewrite Htr. split; [done | by repeat constructor].
  - exists [Goto page (a_url a)]. split; [done | by repeat constructor].
  - exists [Done page false]. split; [done | by repeat constructor].
  - exists []. cbn. by rewrite app_nil_r.
Qed.

Lemma step_nth_events (i : nat) (tasks : list Task) (w : World) :
  ∃ evs, trace (step_nth cfg b cn cid i tasks w).2 = trace w ++ evs
         ∧ Forall (task_event (map a_url (map t_activity tasks))) evs
         ∧ map t_activity (step_nth cfg b cn cid i tasks w).1 = map t_activity tasks.
Proof.
  unfold step_nth. destruct (tasks !! i) as [t|] eqn:Hi.
  - unfold step_task.
    destruct (task_step_events (t_page t) (t_activity t) (t_state t) w) as (evs & H & F).
    destruct (task_step cfg b cn cid _ _ _ w) as [st w1]. exists evs. split_and!; [done| |].
    + eapply Forall_impl; [exact F|]. intros e. apply task_event_mono.
      intros u ->%list_elem_of_singleton.
      apply list_elem_of_fmap. exists (t_activity t). split; [done|].
      apply list_elem_of_fmap. exists t. split; [done|]. by eapply list_elem_of_lookup_2.
    + cbn [fst]. rewrite list_fmap_insert. cbn. apply list_insert_id.
      by rewrite list_lookup_fmap, Hi.
  - exists []. cbn. by rewrite app_nil_r.
Qed.

Lemma run_schedule_events (sched : list nat) (tasks : list Task) (w : World) :
  ∃ evs, trace (run_schedule cfg b cn cid sched tasks w).2 = trace w ++ evs
         ∧ Forall (task_event (map a_url (map t_activity tasks))) evs
         ∧ map t_activity (run_schedule cfg b cn cid sched tasks w).1 = map t_activity tasks.
Proof.
  revert tasks w. induction sched as [|i sched IH]; intros tasks w.
  - exists []. cbn. by rewrite app_nil_r.
  - cbn [run_schedule].
    destruct (step_nth_events i tasks w) as (evs1 & H1 & F1 & A1).
    destruct (step_nth cfg b cn cid i tasks w) as [tasks1 w1]. cbn [fst snd] in H1, A1.
    destruct (IH tasks1 w1) as (evs2 & H2 & F2 & A2). rewrite A1 in F2, A2.
    exists (evs1 ++ evs2). split_and!; [|by apply Forall_app|done].
    by rewrite H2, H1, <- app_assoc.
Qed.

Lemma gather_events (sched : list nat) (tasks : list Task) (w : World) :
  ∃ evs, trace (gather cfg b cn cid sched tasks w).2 = trace w ++ evs
         ∧ Forall (task_event (map a_url (map t_activity tasks))) evs.
Proof.
  unfold gather, drain.
  destruct (run_schedule_events sched tasks w) as (evs1 & H1 & F1 & A1).
  destruct (run_schedule cfg b cn cid sched tasks w) as [tasks1 w1]. cbn [fst snd] in H1, A1.
  match goal with |- context [run_schedule cfg b cn cid ?s tasks1 w1] =>
    destruct (run_schedule_events s tasks1 w1) as (evs2 & H2 & F2 & _) end.
  rewrite A1 in F2.
  exists (evs1 ++ evs2). split; [|by apply Forall_app].
  by rewrite H2, H1, <- app_assoc.
Qed.

(** The calls of one batch: its pages are opened, its tasks run, its pages
    are closed, and the scheduler pauses. *)
Lemma run_batch_events (k : nat) (batch : list Activity) (w : World) :
  ∃ evs,
    trace (run_batch cfg b cn cid k batch w).2 =
      trace w ++ map NewPage (seq (next_page w) (length batch)) ++ evs
        ++ map ClosePage (seq (next_page w) (length batch)) ++ [BatchDelay]
    ∧ Forall (task_event (map a_url batch)) evs
    ∧ next_page (run_batch cfg b cn cid k batch w).2 = next_page w + length batch.
Proof.
  destruct (run_batch cfg b cn cid k batch w) as [tasks w'] eqn:Hb.
  destruct (run_batch_spec _ _ _ _ _ _ _ _ _ Hb) as (_ & _ & Hnp & _).
  revert Hb. unfold run_batch.
  destruct (new_pages_spec (length batch) w) as (Hps & Htr1 & Hnp1).
  destruct (new_pages (length batch) w) as [pages w1]. cbn [fst snd] in Hps, Htr1, Hnp1.
  match goal with |- context [gather cfg b cn cid ?s ?t w1] =>
    destruct (gather_events s t w1) as (evs & Htr2 & F);
    destruct (gather cfg b cn cid s t w1) as [results w2] end.
  cbn [snd] in Htr2. destruct (close_pages_spec pages w2) as [Htr3 _].
  intros [= <- <-]. exists evs. split_and!; [| |done].
  - cbn [snd trace await]. rewrite Htr3, Htr2, Htr1, Hps. by rewrite <- !app_assoc.
  - destruct (make_tasks_fields pages batch) as (_ & Hacts & _).
    { by rewrite Hps, length_seq. }
    by rewrite Hacts in F.
Qed.
End Tabs.

Lemma tabs_after_app (o : list nat) (t1 t2 : list Event) :
  tabs_after o (t1 ++ t2) = tabs_after (tabs_after o t1) t2.
Proof. apply foldl_app. Qed.

Lemma peak_tabs_app (o : list nat) (t1 t2 : list Event) :
  peak_tabs o (t1 ++ t2) = peak_tabs o t1 `max` peak_tabs (tabs_after o t1) t2.
Proof.
  unfold tabs_after. revert o. induction t1 as [|e t1 IH]; intros o; cbn.
  - destruct t2; cbn; lia.
  - rewrite IH. lia.
Qed.

Lemma tabs_task_events (urls : list string) (o : list nat) (evs : list Event) :
  Forall (task_event urls) evs → tabs_after o evs = o ∧ peak_tabs o evs = length o.
Proof.
  induction 1 as [|e evs He _ [IH1 IH2]]; [done|].
  assert (tab_step o e = o) as Hs by (by destruct e).
  cbn. fold (tabs_after (tab_step o e) evs). rewrite Hs, IH1, IH2. split; [done | lia].
Qed.

Lemma tabs_new_pages (o : list nat) (pages : list nat) :
  tabs_after o (map NewPage pages) = reverse pages ++ o
  ∧ peak_tabs o (map NewPage pages) = length pages + length o.
Proof.
  revert o. induction pages as [|p pages IH]; intros o; [done|].
  rewrite reverse_cons, <- app_assoc.
  change (tabs_after o (map NewPage (p :: pages)))
    with (tabs_after (p :: o) (map NewPage pages)).
  change (peak_tabs o (map NewPage (p :: pages)))
    with (length o `max` peak_tabs (p :: o) (map NewPage pages)).
  destruct (IH (p :: o)) as [-> ->]. cbn. split; [done | lia].
Qed.

Lemma filter_all {A} (P : A → Prop) `{∀ x, Decision (P x)} (l : list A) :
  (∀ x, x ∈ l → P x) → filter P l = l.
Proof.
  induction l as [|x l IH]; intros Hl; [done|].
  rewrite filter_cons_True by (apply Hl; set_solver).
  f_equal. apply IH. intros y Hy. apply Hl. set_solver.
Qed.

Lemma filter_none {A} (P : A → Prop) `{∀ x, Decision (P x)} (l : list A) :
  (∀ x, x ∈ l → ¬ P x) → filter P l = [].
Proof.
  induction l as [|x l IH]; intros Hl; [done|].
  rewrite filter_cons_False by (apply Hl; set_solver).
  apply IH. intros y Hy. apply Hl. set_solver.
Qed.

Lemma tabs_close_pages (o : list nat) (pages : list nat) :
  tabs_after o (map ClosePage pages) = filter (λ q, q ∉ pages) o
  ∧ peak_tabs o (map ClosePage pages) = length o.
Proof.
  revert o. induction pages as [|p pages IH]; intros o.
  - cbn. split; [|done]. symmetry. apply filter_all. intros q _. set_solver.
  - cbn. fold (tabs_after (filter (λ q, q ≠ p) o) (map ClosePage pages)).
    destruct (IH (filter (λ q, q ≠ p) o)) as [-> ->]. split.
    + rewrite list_filter_filter. apply list_filter_iff. intros q.
      rewrite not_elem_of_cons. tauto.
    + pose proof (length_filter (λ q, q ≠ p) o). lia.
Qed.

(** One batch on top of the tabs [o], none of which is a page of the
    batch: at most [length pages] more tabs are open, and in the end the
    tabs are [o] again. *)
Lemma tabs_batch (urls : list string) (o pages : list nat) (evs : list Event) :
  Forall (task_event urls) evs →
  (∀ q, q ∈ o → q ∉ pages) →
  let seg := map NewPage pages ++ evs ++ map ClosePage pages ++ [BatchDelay] in
  tabs_after o seg = o ∧ peak_tabs o seg = length pages + length o.
Proof.
  intros Hev Hfresh seg. subst seg.
  rewrite !tabs_after_app, !peak_tabs_app.
  destruct (tabs_new_pages o pages) as [-> ->].
  destruct (tabs_task_events urls (reverse pages ++ o) evs Hev) as [-> ->].
  destruct (tabs_close_pages (reverse pages ++ o) pages) as [-> ->].
  assert (filter (λ q, q ∉ pages) (reverse pages ++ o) = o) as ->.
  { rewrite filter_app, (filter_none _ (reverse pages)).
    - apply filter_all. intros q Hq. by apply Hfresh.
    - intros q Hq%elem_of_reverse. set_solver. }
  cbn. rewrite length_app, length_reverse. split; [done | lia].
Qed.

Lemma visits_app (t1 t2 : list Event) : visits (t1 ++ t2) = visits t1 ++ visits t2.
Proof. apply omap_app. Qed.

Lemma visits_task_events (urls : list string) (evs : list Event) :
  Forall (task_event urls) evs → visits evs ⊆ urls.
Proof.
  induction 1 as [|e evs He _ IH]; [set_solver|].
  destruct e; cbn in *; try done. intros u [->|Hu]%elem_of_cons; [done | by apply IH].
Qed.

Lemma visits_new_pages (pages : list nat) : visits (map NewPage pages) = [].
Proof. by induction pages. Qed.

Lemma visits_close_pages (pages : list nat) : visits (map ClosePage pages) = [].
Proof. by induction pages. Qed.

Section TabsOfARun.
Context (cfg : Config) (b : Browser).

Lemma run_batches_tabs (cn cid : string) (bs : list (list Activity)) (k : nat)
    (w : World) (o : list nat) (l : list Activity) :
  (∀ q, q ∈ o → q < next_page w) →
  Forall (λ batch, length batch ≤ parallel_tabs cfg ∧ batch ⊆ l) bs →
  ∃ added,
    trace (run_batches cfg b cn cid k bs w).2 = trace w ++ added
    ∧ tabs_after o added = o
    ∧ peak_tabs o added ≤ length o + parallel_tabs cfg
    ∧ next_page w ≤ next_page (run_batches cfg b cn cid k bs w).2
    ∧ visits added ⊆ map a_url l.
Proof.
  revert k w. induction bs as [|batch bs IH]; intros k w Ho Hbs.
  - exists []. cbn. rewrite app_nil_r. split_and!; [done | done | lia | done | set_solver].
  - apply Forall_cons in Hbs as [[Hlen Hsub] Hbs]. cbn [run_batches].
    destruct (run_batch_events cfg b cn cid k batch w) as (evs & Htr & Hev & Hnp).
    destruct (run_batch cfg b cn cid k batch w) as [results w1]. cbn [snd] in Htr, Hnp.
    destruct (IH (S k) w1) as (added & Htr2 & Hafter & Hpeak & Hnp2 & Hvis); [|done|].
    { intros q Hq. apply Ho in Hq. lia. }
    destruct (run_batches cfg b cn cid (S k) bs w1) as [more w2]. cbn [snd] in *.
    destruct (tabs_batch _ o (seq (next_page w) (length batch)) evs Hev) as [Hb1 Hb2].
    { intros q Hq Hin%elem_of_seq. apply Ho in Hq. lia. }
    eexists. split_and!.
    + rewrite Htr2, Htr, <- app_assoc. reflexivity.
    + by rewrite tabs_after_app, Hb1.
    + rewrite peak_tabs_app, Hb1, Hb2, length_seq. lia.
    + lia.
    + rewrite !visits_app, visits_new_pages, visits_close_pages. cbn.
      rewrite app_nil_r. intros u [Hu|Hu]%elem_of_app; [|by apply Hvis].
      apply (visits_task_events _ _ Hev) in Hu.
      apply list_elem_of_fmap in Hu as (a & -> & Ha).
      apply list_elem_of_fmap. exists a. split; [done | by apply Hsub].
Qed.

Lemma batches_width (width : nat) (l : list Activity) :
  Forall (λ batch, length batch ≤ width ∧ batch ⊆ l) (batches width l).
Proof.
  unfold batches. apply Forall_forall. intros batch (i & -> & _)%list_elem_of_fmap.
  rewrite length_take. split; [lia|].
  etrans; [apply subseteq_take | apply subseteq_drop].
Qed.

Lemma process_activities_parallel_tabs (activities : list Activity) (cn cid : string)
    (w : World) (o : list nat) :
  (∀ q, q ∈ o → q < next_page w) →
  ∃ added,
    trace (process_activities_parallel cfg b activities cn cid w).2 = trace w ++ added
    ∧ tabs_after o added = o
    ∧ peak_tabs o added ≤ length o + parallel_tabs cfg
    ∧ next_page w ≤ next_page (process_activities_parallel cfg b activities cn cid w).2
    ∧ visits added ⊆ map a_url (filter (λ a, outstanding a = true) activities).
Proof.
  intros Ho. unfold process_activities_parallel.
  destruct (filter _ activities) as [|a l] eqn:Hf.
  - exists []. cbn. rewrite app_nil_r. split_and!; [done | done | lia | done | done].
  - destruct (parallel_tabs cfg =? 0).
    + exists []. cbn. rewrite app_nil_r.
      split_and!; [done | done | lia | done | set_solver].
    + destruct (run_batches_tabs cn cid (batches (parallel_tabs cfg) (a :: l)) 0 w o
                  (a :: l) Ho (batches_width _ _)) as (added & H).
      destruct (run_batches cfg b cn cid 0 _ w) as [results w1]. by exists added.
Qed.

Lemma process_course_tabs (course : Course) (w : World) :
  ∃ added,
    trace (process_course cfg b course w) = trace w ++ added
    ∧ tabs_after [] added = []
    ∧ peak_tabs [] added ≤ parallel_tabs cfg + 1
    ∧ next_page w ≤ next_page (process_course cfg b course w)
    ∧ visits added ⊆
        course_url course ::
        map a_url
          (filter (λ a, outstanding a = true)
             (discover_activities cfg (locate_activities b (course_url course))
                (course_id course) (progress w)).1).
Proof.
  unfold process_course, new_page, process_course_body.
  set (p := next_page w).
  match goal with |- context [await (Goto p _) ?w0] => set (w1 := w0) end.
  set (w2 := await (Goto p (course_url course)) w1).
  assert (trace w2 = trace w ++ [NewPage p; Goto p (course_url course)]) as Htr2.
  { cbn. by rewrite <- app_assoc. }
  assert (next_page w2 = S p) as Hnp2 by done.
  change (progress w2) with (progress w).
  destruct (navigate b (course_url course) (clock w2)).
  { exists [NewPage p; Goto p (course_url course); ClosePage p; CourseDelay].
    split_and!.
    - cbn. by rewrite <- !app_assoc.
    - cbn. by rewrite decide_False by (intros H; by apply H).
    - cbn. rewrite decide_False by (intros H; by apply H). cbn. lia.
    - cbn. lia.
    - cbn. intros u Hu%list_elem_of_singleton. subst u. apply elem_of_cons. by left. }
  destruct (discover_activities cfg _ (course_id course) (progress w)) as [acts pm1].
  destruct acts as [|a acts].
  { exists [NewPage p; Goto p (course_url course); ClosePage p; ClosePage p; CourseDelay].
    split_and!.
    - cbn. by rewrite <- !app_assoc.
    - cbn. by rewrite decide_False by (intros H; by apply H).
    - cbn. rewrite decide_False by (intros H; by apply H). cbn. lia.
    - cbn. lia.
    - cbn. intros u Hu%list_elem_of_singleton. subst u. apply elem_of_cons. by left. }
  destruct (get_course_progress (course_id course) (progress (with_progress pm1 w2)))
    as [cp pm2].
  match goal with |- context [process_activities_parallel cfg b ?l ?cn ?cid ?w0] =>
    destruct (process_activities_parallel_tabs l cn cid w0 [p])
      as (added & Ht & Ha & Hp & Hn & Hv);
    [ intros q ->%list_elem_of_singleton; cbn; lia |
      destruct (process_activities_parallel cfg b l cn cid w0) as [[exn results] w5] ]
  end.
  cbn [snd] in Ht, Hn. cbn [trace with_progress next_page] in Ht, Hn.
  exists ([NewPage p; Goto p (course_url course)] ++ added ++ [ClosePage p; CourseDelay]).
  assert (tabs_after [] ([NewPage p; Goto p (course_url course)] ++ added) = [p]) as Hopen.
  { by rewrite tabs_after_app. }
  split_and!.
  - destruct exn; unfold update_course_status;
      [|destruct (get_course_completion_percent _ _)];
      cbn; rewrite Ht, Htr2, <- !app_assoc; reflexivity.
  - rewrite app_assoc, tabs_after_app, Hopen. cbn.
    by rewrite decide_False by (intros H; by apply H).
  - rewrite app_assoc, peak_tabs_app, peak_tabs_app, Hopen.
    change (tabs_after [] [NewPage p; Goto p (course_url course)]) with [p].
    cbn in Hp |- *. rewrite decide_False by (intros H; by apply H). cbn. lia.
  - destruct exn; unfold update_course_status;
      [|destruct (get_course_completion_percent _ _)]; cbn; cbn in Hn; lia.
  - rewrite !visits_app. cbn [fst]. change (visits [ClosePage p; CourseDelay]) with (@nil string).
    change (visits [NewPage p; Goto p (course_url course)]) with [course_url course].
    rewrite app_nil_r. cbn [app]. intros u [->|Hu]%elem_of_cons; [apply elem_of_cons; by left|].
    apply elem_of_cons. right. by apply Hv.
Qed.
End TabsOfARun.

(** X13.  The batch scheduler keeps to its ceiling and leaks no tab:
    counting the pages that [process_activities_parallel] opens with
    [context.new_page()] and closes, whatever the outcome of the visits and
    the order in which the event loop resumes the tasks, at no moment are
    more than [parallel_tabs] of them open, and when it returns every one
    of them is closed again. *)
Theorem scheduler_keeps_to_its_ceiling (cfg : Config) (b : Browser)
    (activities : list Activity) (cn cid : string) (w : World) :
  ∃ added,
    trace (process_activities_parallel cfg b activities cn cid w).2 = trace w ++ added
    ∧ peak_tabs [] added ≤ parallel_tabs cfg
    ∧ tabs_after [] added = [].
Proof.
  destruct (process_activities_parallel_tabs cfg b activities cn cid w [])
    as (added & Ht & Ha & Hp & _).
  { intros q Hq. by apply elem_of_nil in Hq. }
  exists added. split_and!; [done | exact Hp | done].
Qed.

(** X14.  The course loop of [main] leaks no tab either: over any list of
    courses, of the pages it opens with [context.new_page()] at no moment
    are more than [parallel_tabs + 1] open (the page of the course and the
    pages of one batch), and after the loop every one of them is closed,
    also when a course page fails to load, has no activity, or
    [parallel_tabs] is 0. *)
Theorem course_loop_closes_its_pages (cfg : Config) (b : Browser)
    (courses : list Course) (w : World) :
  ∃ added,
    trace (process_courses cfg b courses w) = trace w ++ added
    ∧ peak_tabs [] added ≤ parallel_tabs cfg + 1
    ∧ tabs_after [] added = [].
Proof.
  revert w. induction courses as [|course courses IH]; intros w.
  - exists []. cbn. rewrite app_nil_r. split_and!; [done | lia | done].
  - cbn [process_courses].
    destruct (get_course_completion_percent (course_id course) (progress w)) as [c pm1].
    destruct (Qleb 100 c).
    + destruct (IH (with_progress pm1 w)) as (added & Ht & Hp & Ha). by exists added.
    + destruct (process_course_tabs cfg b course (with_progress pm1 w))
        as (added1 & Ht1 & Ha1 & Hp1 & _).
      destruct (IH (process_course cfg b course (with_progress pm1 w)))
        as (added2 & Ht2 & Hp2 & Ha2).
      exists (added1 ++ added2). split_and!.
      * rewrite Ht2, Ht1. cbn. by rewrite <- app_assoc.
      * rewrite peak_tabs_app, Ha1. lia.
      * by rewrite tabs_after_app, Ha1.
Qed.

(** * What is discovered and what is visited *)

Lemma discover_loop_sound (cfg : Config) (cid : string) (elements : list Element)
    (seen : gset string) (pm : ProgressManager) :
  Forall (λ a, ∃ href text, activity_link elements href text
                 ∧ a = link_activity cfg cid pm href text)
    (discover_loop cfg cid elements seen pm).1.
Proof.
  revert seen pm. induction elements as [|el rest IH]; intros seen pm; [by constructor|].
  assert (Hweak : ∀ seen' pm', course_of cid pm' = course_of cid pm →
    Forall (λ a, ∃ href text, activity_link (el :: rest) href text
                   ∧ a = link_activity cfg cid pm href text)
      (discover_loop cfg cid rest seen' pm').1).
  { intros seen' pm' Hpm. eapply Forall_impl; [apply IH|].
    intros a (href & text & (el' & Hin & H) & ->). exists href, text. split.
    - exists el'. split; [by apply elem_of_cons; right | done].
    - unfold link_activity. by rewrite Hpm. }
  cbn [discover_loop].
  destruct (get_attribute_href el) as [[href|]|] eqn:Hhref; [|by apply Hweak|by apply Hweak].
  destruct (bool_decide (href = "")); cbn [negb orb andb]; [by apply Hweak|].
  destruct (bool_decide (href ∈ seen)); cbn [negb orb andb]; [by apply Hweak|].
  destruct (contains "/mod/" href) eqn:Hmod; cbn [negb orb andb]; [|by apply Hweak].
  destruct (inner_text el) as [text|] eqn:Htext; [|by apply Hweak].
  destruct (bool_decide (strip text = "")) eqn:Hname; [by apply Hweak|].
  apply bool_decide_eq_false in Hname.
  rewrite is_activity_completed_eq.
  pose proof (Hweak ({[href]} ∪ seen) (ensure_course cid pm) (course_of_ensure cid pm)) as Hrest.
  destruct (discover_loop cfg cid rest ({[href]} ∪ seen) (ensure_course cid pm))
    as [acts pm2].
  cbn [fst] in *. constructor; [|done].
  exists href, text. split; [|done].
  exists el. split; [by apply elem_of_cons; left | done].
Qed.

Lemma activity_type_quiz (href : string) :
  activity_type_of type_patterns href = "quiz" → contains "/mod/quiz/" href = true.
Proof.
  unfold type_patterns. cbn [activity_type_of].
  repeat match goal with |- context [contains ?p href] =>
    destruct (contains p href) eqn:?; try done end.
Qed.

Lemma activity_type_assign (href : string) :
  activity_type_of type_patterns href = "assign" → contains "/mod/assign/" href = true.
Proof.
  unfold type_patterns. cbn [activity_type_of].
  repeat match goal with |- context [contains ?p href] =>
    destruct (contains p href) eqn:?; try done end.
Qed.

Lemma existsb_false {A} (f : A → bool) (l : list A) :
  existsb f l = false ↔ ∀ x, x ∈ l → f x = false.
Proof.
  induction l as [|y l IH]; cbn.
  - split; [intros _ x Hx; by apply elem_of_nil in Hx | done].
  - rewrite orb_false_iff, IH. split.
    + intros [Hy Hl] x [->|Hx]%elem_of_cons; auto.
    + intros H. split; [apply H; apply elem_of_cons; by left|].
      intros x Hx. apply H. apply elem_of_cons. by right.
Qed.

Lemma existsb_true {A} (f : A → bool) (l : list A) :
  existsb f l = true ↔ ∃ x, x ∈ l ∧ f x = true.
Proof.
  rewrite existsb_exists. split; intros (x & Hx & Hf); exists x;
    (split; [by apply list_elem_of_In | done]).
Qed.

Lemma discover_loop_length (cfg : Config) (cid : string) (elements : list Element)
    (seen : gset string) (pm : ProgressManager) :
  length (discover_loop cfg cid elements seen pm).1 ≤ length elements.
Proof.
  revert seen pm. induction elements as [|el rest IH]; intros seen pm; [done|].
  assert (Hweak : ∀ seen' pm',
    length (discover_loop cfg cid rest seen' pm').1 ≤ length (el :: rest)).
  { intros seen' pm'. specialize (IH seen' pm'). cbn [length]. lia. }
  cbn [discover_loop].
  destruct (get_attribute_href el) as [[href|]|]; [|apply Hweak|apply Hweak].
  destruct (_ || _ || _); [apply Hweak|].
  destruct (inner_text el) as [text|]; [|apply Hweak].
  destruct (bool_decide (strip text = "")); [apply Hweak|].
  destruct (is_activity_completed cid href pm) as [done_ pm1].
  specialize (IH ({[href]} ∪ seen) pm1).
  destruct (discover_loop cfg cid rest ({[href]} ∪ seen) pm1) as [acts pm2].
  cbn [fst length] in *. lia.
Qed.

(** X15.  What [discover_activities] returns is read off the links of the
    page: every activity stems from a located link whose address contains
    "/mod/" and whose text is not blank; its name is the stripped text and
    is not empty, its url is the address made absolute, it is flagged
    [should_skip] exactly when the address matches a skip pattern and
    [is_completed] exactly when the address as found is in the completed
    list of the course, and an activity typed "quiz" or "assign" has an
    address with "/mod/quiz/" or "/mod/assign/" in it.  There are at most
    as many activities as located links, and none when the locator
    raises. *)
Theorem discovered_activities_come_from_links (cfg : Config)
    (located : result (list Element)) (cid : string) (pm : ProgressManager) :
  let acts := (discover_activities cfg located cid pm).1 in
  Forall (λ a, ∃ elements href text,
            located = Ok elements
            ∧ activity_link elements href text
            ∧ a_name a = strip text ∧ a_name a ≠ ""
            ∧ a_url a = absolute_url cfg href
            ∧ (should_skip a = true ↔
                 ∃ pattern, pattern ∈ skip_patterns cfg ∧ contains pattern href = true)
            ∧ (is_completed a = true ↔
                 href ∈ completed_activities (course_of cid pm))
            ∧ (a_type a = "quiz" → contains "/mod/quiz/" href = true)
            ∧ (a_type a = "assign" → contains "/mod/assign/" href = true)) acts
  ∧ (∀ elements, located = Ok elements → length acts ≤ length elements)
  ∧ (∀ e, located = Raise e → acts = []).
Proof.
  cbn zeta. destruct located as [elements|e]; cbn [discover_activities fst].
  - split_and!; [| |done].
    + eapply Forall_impl; [apply discover_loop_sound|].
      intros a (href & text & Hlink & ->). exists elements, href, text.
      pose proof Hlink as (el & _ & _ & _ & _ & Hne).
      split_and!; try done.
      * apply existsb_true.
      * cbn. apply str_in_spec.
      * apply activity_type_quiz.
      * apply activity_type_assign.
    + intros ? [= <-]. apply discover_loop_length.
  - split_and!; [by constructor | done | done].
Qed.

(** X16.  [process_course] visits nothing but the course page and the
    links left to do: every address it opens in a tab is the address of the
    course or the absolute form of a link of the course page that matches
    no skip pattern and that the completed list of the course, as it was
    when the course was taken up, does not hold. *)
Theorem only_outstanding_links_are_visited (cfg : Config) (b : Browser) (course : Course)
    (w : World) :
  ∃ added,
    trace (process_course cfg b course w) = trace w ++ added
    ∧ ∀ u, u ∈ visits added →
        u = course_url course
        ∨ ∃ elements href text,
            locate_activities b (course_url course) = Ok elements
            ∧ activity_link elements href text
            ∧ u = absolute_url cfg href
            ∧ (∀ pattern, pattern ∈ skip_patterns cfg → contains pattern href = false)
            ∧ href ∉ completed_activities (course_of (course_id course) (progress w)).
Proof.
  destruct (process_course_tabs cfg b course w) as (added & Ht & _ & _ & _ & Hv).
  exists added. split; [done|]. intros u Hu. apply Hv in Hu.
  apply elem_of_cons in Hu as [->|Hu]; [by left | right].
  apply list_elem_of_fmap in Hu as (a & -> & Ha).
  apply list_elem_of_filter in Ha as [Hout Ha].
  destruct (locate_activities b (course_url course)) as [elements|e];
    cbn [discover_activities fst] in Ha; [|by apply elem_of_nil in Ha].
  pose proof (discover_loop_sound cfg (course_id course) elements ∅ (progress w)) as Hs.
  rewrite Forall_forall in Hs. destruct (Hs a Ha) as (href & text & Hlink & ->).
  unfold outstanding in Hout. cbn in Hout.
  apply andb_true_iff in Hout as [Hc Hk]. apply negb_true_iff in Hc, Hk.
  exists elements, href, text. split_and!; [done | done | done | |].
  - by apply existsb_false.
  - intros Hin. apply str_in_spec in Hin. congruence.
Qed.

(** * The duration of a run *)

(** X17.  [get_duration] reports hours, minutes and seconds that add up to
    the elapsed seconds within the last day: minutes and seconds are below
    60, hours below 24, the hours are left out when they are 0, and whole
    days are dropped, so that a run of a day and an hour reads like a run
    of an hour. *)
Theorem get_duration_within_a_day (elapsed : nat) :
  (∃ h m s,
     h < 24 ∧ m < 60 ∧ s < 60
     ∧ h * 3600 + m * 60 + s = elapsed `mod` (24 * 3600)
     ∧ get_duration elapsed =
         if h =? 0
         then pretty m +:+ "m " +:+ pretty s +:+ "s"
         else pretty h +:+ "h " +:+ pretty m +:+ "m " +:+ pretty s +:+ "s")
  ∧ ∀ days, get_duration (elapsed + days * (24 * 3600)) = get_duration elapsed.
Proof.
  split.
  - unfold get_duration, duration_seconds.
    set (d := elapsed `mod` (24 * 3600)).
    assert (d < 24 * 3600) as Hd by (apply Nat.mod_upper_bound; lia).
    exists (d / 3600), ((d `mod` 3600) / 60), (d `mod` 60).
    split_and!.
    + apply Nat.Div0.div_lt_upper_bound. lia.
    + apply Nat.Div0.div_lt_upper_bound.
      pose proof (Nat.mod_upper_bound d 3600). lia.
    + apply Nat.mod_upper_bound. lia.
    + pose proof (Nat.div_mod_eq d 3600) as H1.
      pose proof (Nat.div_mod_eq (d `mod` 3600) 60) as H2.
      assert ((d `mod` 3600) `mod` 60 = d `mod` 60) as H3.
      { rewrite H1 at 2. rewrite Nat.add_comm.
        replace (3600 * (d / 3600)) with (d / 3600 * 60 * 60) by lia.
        by rewrite Nat.Div0.mod_add. }
      lia.
    + destruct (d / 3600) as [|h].
      * change (0 <? 0) with false. change (0 =? 0) with true. reflexivity.
      * change (0 <? S h) with true. change (S h =? 0) with false. reflexivity.
  - intros days. unfold get_duration, duration_seconds.
    by rewrite Nat.Div0.mod_add.
Qed.

(** * Course discovery *)

Lemma courses_loop_sound (cfg : Config) (elements : list Element) (seen : gset string) :
  Forall (λ c, ∃ href text, course_link elements href text
                 ∧ course_name c = strip text
                 ∧ course_url c = absolute_url cfg href
                 ∧ course_id c = course_id_of href
                 ∧ _priority c = None ∧ _completion c = None)
    (courses_loop cfg elements seen)
  ∧ length (courses_loop cfg elements seen) ≤ length elements.
Proof.
  revert seen. induction elements as [|el rest IH]; intros seen.
  { split; [by constructor | done]. }
  assert (Hweak : ∀ seen',
    Forall (λ c, ∃ href text, course_link (el :: rest) href text
                   ∧ course_name c = strip text
                   ∧ course_url c = absolute_url cfg href
                   ∧ course_id c = course_id_of href
                   ∧ _priority c = None ∧ _completion c = None)
      (courses_loop cfg rest seen')
    ∧ length (courses_loop cfg rest seen') ≤ length rest).
  { intros seen'. destruct (IH seen') as [H1 H2]. split; [|done].
    eapply Forall_impl; [exact H1|].
    intros c (href & text & (el' & Hin & H) & Hc). exists href, text. split; [|done].
    exists el'. split; [by apply elem_of_cons; right | done]. }
  assert (Hskip : ∀ seen',
    Forall (λ c, ∃ href text, course_link (el :: rest) href text
                   ∧ course_name c = strip text
                   ∧ course_url c = absolute_url cfg href
                   ∧ course_id c = course_id_of href
                   ∧ _priority c = None ∧ _completion c = None)
      (courses_loop cfg rest seen')
    ∧ length (courses_loop cfg rest seen') ≤ length (el :: rest)).
  { intros seen'. destruct (Hweak seen') as [H1 H2]. split; [done | cbn [length]; lia]. }
  cbn [courses_loop].
  destruct (get_attribute_href el) as [[href|]|] eqn:Hhref; [|apply Hskip|apply Hskip].
  destruct (_ || _); [apply Hskip|].
  destruct (inner_text el) as [text|] eqn:Htext; [|apply Hskip].
  destruct (bool_decide (strip text = "")) eqn:Hname; cbn [negb andb]; [apply Hskip|].
  destruct (contains "view.php?id=" href) eqn:Hview; [|apply Hskip].
  apply bool_decide_eq_false in Hname.
  destruct (Hweak ({[href]} ∪ seen)) as [H1 H2]. split; [|cbn [length]; lia].
  constructor; [|done]. exists href, text. split; [|done].
  exists el. split; [by apply elem_of_cons; left | done].
Qed.

Lemma unique_courses_spec (courses : list Course) (urls_seen : gset string) :
  unique_courses courses urls_seen ⊆ courses
  ∧ NoDup (map course_url (unique_courses courses urls_seen))
  ∧ (∀ c, c ∈ unique_courses courses urls_seen → course_url c ∉ urls_seen)
  ∧ (∀ c, c ∈ courses → course_url c ∉ urls_seen →
       course_url c ∈ map course_url (unique_courses courses urls_seen))
  ∧ length (unique_courses courses urls_seen) ≤ length courses.
Proof.
  revert urls_seen. induction courses as [|c rest IH]; intros urls_seen.
  { cbn. split_and!; [done | constructor | | | done].
    - intros c Hc. by apply elem_of_nil in Hc.
    - intros c Hc. by apply elem_of_nil in Hc. }
  cbn [unique_courses]. case_bool_decide as Hseen.
  - destruct (IH urls_seen) as (H1 & H2 & H3 & H4 & H5). split_and!; [|done|done| |].
    + intros x Hx. apply elem_of_cons. right. by apply H1.
    + intros x [->|Hx]%elem_of_cons Hn; [done | by apply H4].
    + cbn [length]. lia.
  - destruct (IH ({[course_url c]} ∪ urls_seen)) as (H1 & H2 & H3 & H4 & H5). split_and!.
    + intros x [->|Hx]%elem_of_cons; apply elem_of_cons; [by left | right; by apply H1].
    + cbn [map]. constructor; [|done].
      intros (x & Heq & Hx)%list_elem_of_fmap. apply H3 in Hx. apply Hx.
      apply elem_of_union. left. by apply elem_of_singleton.
    + intros x [->|Hx]%elem_of_cons; [done|]. apply H3 in Hx.
      intros Hin. apply Hx. apply elem_of_union. by right.
    + intros x [->|Hx]%elem_of_cons Hn; cbn [map]; apply elem_of_cons; [by left|].
      destruct (decide (course_url x = course_url c)) as [Heq|Hne]; [by left | right].
      apply H4; [done|]. intros [Hin%elem_of_singleton|Hin]%elem_of_union; done.
    + cbn [length]. lia.
Qed.

(** X18.  [discover_courses] returns each course address once: no two
    courses of the result have the same url, every course stems from a
    located link whose address contains "view.php?id=" and whose text is
    not blank (its name is the stripped text, its url the address made
    absolute and its id the part of the address after the first "id="),
    and there are at most as many courses as located links.  When the
    courses page fails to open or the locator raises, the result is
    empty. *)
Theorem discovered_courses_are_distinct (cfg : Config) (opened : option string)
    (located : result (list Element)) :
  let courses := discover_courses cfg opened located in
  NoDup (map course_url courses)
  ∧ Forall (λ c, ∃ elements href text,
              located = Ok elements
              ∧ course_link elements href text
              ∧ course_name c = strip text ∧ course_name c ≠ ""
              ∧ course_url c = absolute_url cfg href
              ∧ course_id c = course_id_of href
              ∧ _priority c = None ∧ _completion c = None) courses
  ∧ (∀ elements, located = Ok elements → length courses ≤ length elements)
  ∧ (∀ e, opened = Some e → courses = [])
  ∧ (∀ e, located = Raise e → courses = []).
Proof.
  cbn zeta. unfold discover_courses.
  destruct opened as [e|];
    [split_and!; [constructor | constructor | intros; cbn; lia | done | done]|].
  destruct located as [elements|e];
    [|split_and!; [constructor | constructor | done | done | done]].
  destruct (unique_courses_spec (courses_loop cfg elements ∅) ∅) as (H1 & H2 & _ & _ & H5).
  destruct (courses_loop_sound cfg elements ∅) as [Hs Hl].
  split_and!; [done| | |done|done].
  - apply Forall_forall. intros c Hc%H1. rewrite Forall_forall in Hs.
    destruct (Hs c Hc) as (href & text & Hlink & Hn & Hu & Hi & Hp & Hq).
    exists elements, href, text. pose proof Hlink as (el & _ & _ & _ & _ & Hne).
    split_and!; try done. by rewrite Hn.
  - intros ? [= <-]. lia.
Qed.

(** * The id of a course *)

Lemma startswith_app_long (p x y : string) :
  String.length p ≤ String.length x → startswith p (x +:+ y) = startswith p x.
Proof.
  revert x. induction p as [|a p IH]; intros x Hlen; [destruct x; reflexivity|].
  destruct x as [|c x]; cbn in Hlen; [lia|].
  change (String c x +:+ y) with (String c (x +:+ y)). cbn [startswith].
  destruct (Ascii.eqb a c); [|done]. apply IH. lia.
Qed.

Lemma split_str_aux_nonempty (sep : string) (skip : nat) (s : string) :
  split_str_aux sep skip s ≠ [].
Proof.
  revert skip. induction s as [|a s IH]; intros skip; [done|].
  cbn [split_str_aux]. destruct skip as [|k]; [|apply IH].
  destruct (startswith sep (String a s)); [done|].
  by destruct (split_str_aux sep 0 s).
Qed.

Lemma append_id_eq (x s : string) : (x +:+ "id") +:+ ("=" +:+ s) = x +:+ "id=" +:+ s.
Proof.
  induction x as [|a x IH]; [reflexivity|].
  change (String a ((x +:+ "id") +:+ ("=" +:+ s)) = String a (x +:+ "id=" +:+ s)).
  by rewrite IH.
Qed.

(** Up to the first match of the separator. *)
Lemma split_str_first (pre s : string) :
  contains "id=" (pre +:+ "id") = false →
  split_str "id=" (pre +:+ "id=" +:+ s) = pre :: split_str "id=" s.
Proof.
  unfold split_str. induction pre as [|a pre IH]; intros Hpre; [done|].
  change (String a pre +:+ "id") with (String a (pre +:+ "id")) in Hpre.
  cbn [contains] in Hpre.
  destruct (startswith "id=" (String a (pre +:+ "id"))) eqn:Hst; [done|].
  change (String a pre +:+ "id=" +:+ s) with (String a (pre +:+ "id=" +:+ s)).
  cbn [split_str_aux].
  assert (startswith "id=" (String a (pre +:+ "id=" +:+ s)) = false) as ->.
  { etrans; [|exact Hst].
    change (String a (pre +:+ "id=" +:+ s)) with (String a pre +:+ "id=" +:+ s).
    rewrite <- (append_id_eq (String a pre) s).
    apply startswith_app_long. simpl. rewrite append_length. simpl. lia. }
  by rewrite (IH Hpre).
Qed.

Lemma contains_first (pre s : string) : contains "id=" (pre +:+ "id=" +:+ s) = true.
Proof.
  induction pre as [|a pre IH]; [done|].
  change (String a pre +:+ "id=" +:+ s) with (String a (pre +:+ "id=" +:+ s)).
  cbn [contains]. rewrite IH. by destruct (startswith _ _).
Qed.

Lemma is_digit_not_sep (a : ascii) :
  is_digit a = true → Ascii.eqb "i" a = false ∧ Ascii.eqb a "&" = false.
Proof. by destruct a as [[] [] [] [] [] [] [] []]. Qed.

Lemma split_str_digits (v r : string) :
  all_digits v = true →
  split_str_aux "id=" 0 (v +:+ r) =
  match split_str_aux "id=" 0 r with
  | w :: ws => (v +:+ w) :: ws
  | [] => []
  end.
Proof.
  induction v as [|a v IH]; intros Hv.
  - change ("" +:+ r) with r. destruct (split_str_aux "id=" 0 r); reflexivity.
  - cbn in Hv. apply andb_true_iff in Hv as [Ha Hv].
    destruct (is_digit_not_sep a Ha) as [Hi _].
    change (String a v +:+ r) with (String a (v +:+ r)). cbn [split_str_aux startswith].
    rewrite Hi, (IH Hv).
    pose proof (split_str_aux_nonempty "id=" 0 r).
    by destruct (split_str_aux "id=" 0 r).
Qed.

Lemma split_nonempty (sep : ascii) (s : string) : split sep s ≠ [].
Proof.
  induction s as [|a s IH]; [done|]. cbn [split].
  destruct (Ascii.eqb a sep); [done|]. by destruct (split sep s).
Qed.

Lemma split_digits (v w : string) :
  all_digits v = true →
  split "&" (v +:+ w) =
  match split "&" w with
  | x :: xs => (v +:+ x) :: xs
  | [] => [v]
  end.
Proof.
  induction v as [|a v IH]; intros Hv.
  - change ("" +:+ w) with w. pose proof (split_nonempty "&" w).
    destruct (split "&" w); [done | reflexivity].
  - cbn in Hv. apply andb_true_iff in Hv as [Ha Hv].
    destruct (is_digit_not_sep a Ha) as [_ Hamp].
    change (String a v +:+ w) with (String a (v +:+ w)). cbn [split].
    rewrite Hamp, (IH Hv). by destruct (split "&" w).
Qed.

Lemma append_empty_r (s : string) : s +:+ "" = s.
Proof.
  induction s as [|a s IH]; [reflexivity|].
  change (String a (s +:+ "") = String a s). by rewrite IH.
Qed.

(** X19.  The id that [discover_courses] reads off an address is the run
    of digits after the first "id=": when the first "id=" of the address
    is followed by digits and then by the end of the address or by "&",
    those digits are the course id, whatever comes after. *)
Theorem course_id_is_the_first_id_parameter (pre digits rest : string) :
  contains "id=" (pre +:+ "id") = false →
  all_digits digits = true →
  rest = "" ∨ startswith "&" rest = true →
  course_id_of (pre +:+ "id=" +:+ digits +:+ rest) = digits.
Proof.
  intros Hpre Hdigits Hrest. unfold course_id_of.
  rewrite contains_first, (split_str_first _ _ Hpre). cbn [lookup list_lookup default].
  unfold split_str. rewrite (split_str_digits _ _ Hdigits).
  destruct Hrest as [->|Hrest].
  - cbn [split_str_aux default lookup list_lookup]. unfold id.
    rewrite (split_digits _ _ Hdigits). cbn. apply append_empty_r.
  - destruct rest as [|c rest]; [discriminate Hrest|]. cbn [startswith] in Hrest.
    destruct (Ascii.eqb_spec "&" c) as [<-|]; [|done].
    cbn [split_str_aux startswith Ascii.eqb]. cbn [Ascii.eqb Bool.eqb].
    pose proof (split_str_aux_nonempty "id=" 0 rest).
    destruct (split_str_aux "id=" 0 rest) as [|w ws]; [done|].
    cbn [default lookup list_lookup]. unfold id. rewrite (split_digits _ _ Hdigits).
    cbn. apply append_empty_r.
Qed.

Lemma course_id_is_the_first_id_parameter_witness :
  course_id_of "https://lms.miva.university/course/view.php?id=12&section=2&id=7" = "12".
Proof.
  apply (course_id_is_the_first_id_parameter
           "https://lms.miva.university/course/view.php?" "12" "&section=2&id=7").
  - reflexivity.
  - reflexivity.
  - right. reflexivity.
Defined.

(** * The course loop *)

Lemma complete_course_present (pm : ProgressManager) (cid : string) :
  Qleb 100 (completion_of pm cid) = true → is_Some (courses (data pm) !! cid).
Proof.
  unfold completion_of. rewrite get_course_completion_percent_eq. cbn [fst].
  unfold course_of. destruct (courses (data pm) !! cid); [by eexists|].
  cbn. intros H. apply Qleb_spec in H. by compute in H.
Qed.

Lemma completion_of_lookup (pm pm' : ProgressManager) (cid : string) :
  courses (data pm') !! cid = courses (data pm) !! cid →
  completion_of pm' cid = completion_of pm cid.
Proof.
  intros H. unfold completion_of. rewrite !get_course_completion_percent_eq.
  cbn [fst]. unfold course_of. by rewrite H.
Qed.

Lemma with_progress_same (w : World) : with_progress (progress w) w = w.
Proof. by destruct w. Qed.

(** X20.  A course that is complete is frozen: if the completion of a
    course id is at least 100 percent when the course loop of [main]
    starts, then whatever courses the loop goes through and whatever the
    browser answers, the record of that course is the same after the loop
    as before. *)
Theorem completed_course_is_left_alone (cfg : Config) (b : Browser) (courses_ : list Course)
    (w : World) (cid : string) :
  Qleb 100 (completion_of (progress w) cid) = true →
  courses (data (progress (process_courses cfg b courses_ w))) !! cid =
  courses (data (progress w)) !! cid.
Proof.
  revert w. induction courses_ as [|course rest IH]; intros w Hfull; [done|].
  cbn [process_courses]. rewrite get_course_completion_percent_eq.
  fold (course_of (course_id course) (progress w)).
  pose proof (get_course_completion_percent_eq (course_id course) (progress w)) as Hq.
  apply (f_equal fst) in Hq. cbn [fst] in Hq. fold (completion_of (progress w) (course_id course)) in Hq.
  rewrite <- Hq. clear Hq.
  assert (courses (data (ensure_course (course_id course) (progress w))) !! cid
          = courses (data (progress w)) !! cid) as Hens.
  { destruct (decide (course_id course = cid)) as [->|Hne].
    - destruct (complete_course_present _ _ Hfull) as [c Hc].
      by rewrite (ensure_course_present_id _ _ _ Hc).
    - by apply ensure_course_lookup_ne. }
  set (w1 := with_progress (ensure_course (course_id course) (progress w)) w).
  assert (Qleb 100 (completion_of (progress w1) cid) = true) as Hfull1.
  { by rewrite (completion_of_lookup (progress w) (progress w1) cid Hens). }
  destruct (Qleb 100 (completion_of (progress w) (course_id course))) eqn:Hc.
  - rewrite (IH w1 Hfull1). exact Hens.
  - assert (cid ≠ course_id course) as Hne by (intros ->; congruence).
    destruct (process_course_rel _ _ _ _
                (others_untouched_preserved (λ c, c = course_id course))
                cfg b course w1 eq_refl) as [Hfr _].
    specialize (Hfr cid Hne). rewrite IH.
    + by rewrite Hfr.
    + by rewrite (completion_of_lookup _ _ _ Hfr).
Qed.

Lemma completed_course_is_left_alone_witness :
  courses (data (progress (process_courses CONFIG stuck_browser [course_A; course_12]
                             (with_progress overfull_manager fresh_world)))) !! "12" =
  courses (data overfull_manager) !! "12".
Proof.
  apply (completed_course_is_left_alone CONFIG stuck_browser [course_A; course_12]
           (with_progress overfull_manager fresh_world) "12").
  vm_compute. reflexivity.
Defined.

(** X21.  A run over courses that are all complete does nothing: if every
    course of the list is at 100 percent or more, the course loop of
    [main] opens no page and leaves the ledger, the statistics and the
    clock as they are. *)
Theorem finished_courses_are_all_skipped (cfg : Config) (b : Browser)
    (courses_ : list Course) (w : World) :
  Forall (λ c, Qleb 100 (completion_of (progress w) (course_id c)) = true) courses_ →
  process_courses cfg b courses_ w = w.
Proof.
  induction 1 as [|course rest Hc _ IH]; [done|].
  cbn [process_courses]. rewrite get_course_completion_percent_eq.
  pose proof (get_course_completion_percent_eq (course_id course) (progress w)) as Hq.
  apply (f_equal fst) in Hq. cbn [fst] in Hq. fold (completion_of (progress w) (course_id course)) in Hq.
  rewrite <- Hq, Hc.
  destruct (complete_course_present _ _ Hc) as [c Hpresent].
  by rewrite (ensure_course_present_id _ _ _ Hpresent), with_progress_same.
Qed.

Lemma finished_courses_are_all_skipped_witness :
  process_courses CONFIG stuck_browser [course_12; course_12]
    (with_progress overfull_manager fresh_world)
  = with_progress overfull_manager fresh_world.
Proof.
  apply (finished_courses_are_all_skipped CONFIG stuck_browser [course_12; course_12]
           (with_progress overfull_manager fresh_world)).
  repeat constructor.
Defined.

(** * A run without failures *)

Section AllSucceed.
Context (cfg : Config) (b : Browser) (cn cid : string).
Hypothesis Hretries : max_retries cfg ≠ 0.

Lemma completed_grows (w w' : World) (url : string) :
  ledger_grows (progress w) (progress w') →
  url ∈ completed_activities (course_of cid (progress w)) →
  url ∈ completed_activities (course_of cid (progress w')).
Proof.
  intros [Hg _] Hin. destruct (Hg cid) as [[k ->] _].
  apply elem_of_app. by left.
Qed.

Lemma task_done_ok_grows (t : Task) (w w' : World) :
  ledger_grows (progress w) (progress w') → task_done_ok cid t w → task_done_ok cid t w'.
Proof.
  intros Hg. unfold task_done_ok. destruct (t_state t); try done.
  intros [-> Hin]. split; [done|]. by eapply completed_grows.
Qed.

Lemma step_task_created (page : nat) (a : Activity) (w : World) :
  outstanding a = true →
  step_task cfg b cn cid {| t_page := page; t_activity := a; t_state := Created |} w =
  ({| t_page := page; t_activity := a; t_state := InAttempt 1 |},
   await (Goto page (a_url a)) (emit (Start page (a_url a)) w)).
Proof.
  intros Hout. unfold outstanding in Hout. apply andb_true_iff in Hout as [Hc Hs].
  apply negb_true_iff in Hc, Hs.
  unfold step_task. cbn [task_step t_state t_page t_activity].
  by rewrite Hc, Hs, (proj2 (Nat.eqb_neq _ _) Hretries).
Qed.

Lemma step_task_attempt (page : nat) (a : Activity) (n : nat) (w : World) :
  visit_succeeds b a →
  step_task cfg b cn cid {| t_page := page; t_activity := a; t_state := InAttempt n |} w =
  ({| t_page := page; t_activity := a; t_state := Returned true |},
   emit (Done page true) (record_completed (kind_of a) a cn cid w)).
Proof.
  intros Hvis. unfold step_task. cbn [task_step t_state t_page t_activity].
  rewrite resume_dispatch_eq. unfold resume_kind. by rewrite Hvis.
Qed.

Lemma step_task_ok (t : Task) (w : World) :
  outstanding (t_activity t) = true → visit_succeeds b (t_activity t) →
  task_done_ok cid t w →
  task_done_ok cid (step_task cfg b cn cid t w).1 (step_task cfg b cn cid t w).2.
Proof.
  intros Hout Hvis. destruct t as [page a st]. cbn [t_activity] in Hout, Hvis.
  destruct st as [|n|n| |r]; try done.
  - by rewrite (step_task_created page a w Hout).
  - rewrite (step_task_attempt page a n w Hvis). intros _.
    split; [done|]. apply mark_activity_completed_elem.
Qed.

Lemma step_nth_ok (i : nat) (tasks : list Task) (w : World) :
  Forall (λ a, outstanding a = true ∧ visit_succeeds b a) (map t_activity tasks) →
  Forall (λ t, task_done_ok cid t w) tasks →
  Forall (λ t, task_done_ok cid t (step_nth cfg b cn cid i tasks w).2)
    (step_nth cfg b cn cid i tasks w).1.
Proof.
  intros Hgood Hok. unfold step_nth. destruct (tasks !! i) as [t|] eqn:Hi; [|done].
  assert (outstanding (t_activity t) = true ∧ visit_succeeds b (t_activity t)) as [Ho Hv].
  { rewrite Forall_forall in Hgood. apply Hgood. apply list_elem_of_fmap.
    exists t. split; [done | by eapply list_elem_of_lookup_2]. }
  pose proof (step_task_ok t w Ho Hv) as Hstep.
  assert (ledger_grows (progress w) (progress (step_task cfg b cn cid t w).2)) as Hg.
  { unfold step_task.
    destruct (task_step_rel _ _ _ _ ledger_grows_preserved cfg b cn cid
                (t_page t) (t_activity t) (t_state t) w I (or_introl I)) as [Hg _].
    by destruct (task_step cfg b cn cid _ _ _ w). }
  destruct (step_task cfg b cn cid t w) as [t' w1]. cbn [fst snd] in *.
  apply Forall_insert.
  - eapply Forall_impl; [exact Hok|]. intros t0. by apply task_done_ok_grows.
  - apply Hstep. rewrite Forall_forall in Hok. apply Hok. by eapply list_elem_of_lookup_2.
Qed.

Lemma run_schedule_ok (sched : list nat) (tasks : list Task) (w : World) :
  Forall (λ a, outstanding a = true ∧ visit_succeeds b a) (map t_activity tasks) →
  Forall (λ t, task_done_ok cid t w) tasks →
  Forall (λ t, task_done_ok cid t (run_schedule cfg b cn cid sched tasks w).2)
    (run_schedule cfg b cn cid sched tasks w).1.
Proof.
  revert tasks w. induction sched as [|i sched IH]; intros tasks w Hgood Hok; [done|].
  cbn [run_schedule].
  pose proof (step_nth_ok i tasks w Hgood Hok) as H1.
  destruct (step_nth_events cfg b cn cid i tasks w) as (_ & _ & _ & Hacts).
  destruct (step_nth cfg b cn cid i tasks w) as [tasks1 w1]. cbn [fst snd] in *.
  apply IH; [by rewrite Hacts | done].
Qed.

Lemma gather_ok (sched : list nat) (tasks : list Task) (w : World) :
  Forall (λ a, outstanding a = true ∧ visit_succeeds b a) (map t_activity tasks) →
  Forall (λ t, t_state t = Created) tasks →
  Forall (λ t, t_state t = Returned true
               ∧ a_url (t_activity t) ∈
                   completed_activities
                     (course_of cid (progress (gather cfg b cn cid sched tasks w).2)))
    (gather cfg b cn cid sched tasks w).1.
Proof.
  intros Hgood Hcreated.
  destruct (gather cfg b cn cid sched tasks w) as [tasks' w'] eqn:Hg.
  destruct (gather_spec _ _ _ _ _ _ _ _ _ Hcreated Hg) as (evs & _ & _ & _ & _ & _ & Hret).
  assert (Forall (λ t, task_done_ok cid t w') tasks') as Hok.
  { revert Hg. unfold gather, drain.
    assert (Forall (λ t, task_done_ok cid t w) tasks) as Hok0.
    { eapply Forall_impl; [exact Hcreated|]. intros t Ht. unfold task_done_ok. by rewrite Ht. }
    pose proof (run_schedule_ok sched tasks w Hgood Hok0) as H1.
    destruct (run_schedule_events cfg b cn cid sched tasks w) as (_ & _ & _ & Hacts).
    destruct (run_schedule cfg b cn cid sched tasks w) as [tasks1 w1]. cbn [fst snd] in *.
    rewrite <- Hacts in Hgood.
    match goal with |- run_schedule cfg b cn cid ?s tasks1 w1 = _ → _ =>
      pose proof (run_schedule_ok s tasks1 w1 Hgood H1) as H2 end.
    intros Heq. rewrite Heq in H2. exact H2. }
  cbn [fst snd]. rewrite Forall_forall in Hret, Hok |- *. intros t Ht.
  destruct (Hret t Ht) as (_ & r & Hr & _). specialize (Hok t Ht).
  unfold task_done_ok in Hok. rewrite Hr in Hok. destruct Hok as [-> Hin]. by split.
Qed.

Lemma close_pages_progress (pages : list nat) (w : World) :
  progress (close_pages pages w) = progress w.
Proof. revert w. induction pages as [|p pages IH]; intros w; [done|]. cbn. by rewrite IH. Qed.

Lemma run_batch_ok (k : nat) (batch : list Activity) (w : World) :
  Forall (λ a, outstanding a = true ∧ visit_succeeds b a) batch →
  map t_activity (run_batch cfg b cn cid k batch w).1 = batch
  ∧ Forall (λ t, t_state t = Returned true
               ∧ a_url (t_activity t) ∈
                   completed_activities
                     (course_of cid (progress (run_batch cfg b cn cid k batch w).2)))
      (run_batch cfg b cn cid k batch w).1.
Proof.
  intros Hgood.
  destruct (run_batch cfg b cn cid k batch w) as [tasks w'] eqn:Hb.
  destruct (run_batch_spec _ _ _ _ _ _ _ _ _ Hb) as (seg & _ & _ & _ & Hacts & _ & _).
  split; [done|]. revert Hb. unfold run_batch.
  destruct (new_pages_spec (length batch) w) as (Hps & _ & _).
  destruct (new_pages (length batch) w) as [pages w1]. cbn [fst] in Hps.
  destruct (make_tasks_fields pages batch) as (_ & Hac & Hcr).
  { by rewrite Hps, length_seq. }
  rewrite <- Hac in Hgood.
  match goal with |- context [gather cfg b cn cid ?s ?t w1] =>
    pose proof (gather_ok s t w1 Hgood Hcr) as H2;
    destruct (gather cfg b cn cid s t w1) as [results w2] end.
  intros [= <- <-]. cbn [fst snd progress await] in *. by rewrite close_pages_progress.
Qed.

Lemma run_batches_ok (bs : list (list Activity)) (k : nat) (w : World) :
  Forall (Forall (λ a, outstanding a = true ∧ visit_succeeds b a)) bs →
  Forall (Forall (λ t, t_state t = Returned true)) (run_batches cfg b cn cid k bs w).1
  ∧ ∀ a, a ∈ concat bs →
      a_url a ∈ completed_activities
                  (course_of cid (progress (run_batches cfg b cn cid k bs w).2)).
Proof.
  revert k w. induction bs as [|batch bs IH]; intros k w Hgood.
  { split; [by constructor|]. intros a Ha. by apply elem_of_nil in Ha. }
  apply Forall_cons in Hgood as [Hbatch Hrest]. cbn [run_batches].
  destruct (run_batch_ok k batch w Hbatch) as [Hacts H1].
  destruct (run_batch cfg b cn cid k batch w) as [results w1]. cbn [fst snd] in *.
  destruct (IH (S k) w1 Hrest) as [H2 H3].
  assert (ledger_grows (progress w1) (progress (run_batches cfg b cn cid (S k) bs w1).2))
    as Hg.
  { apply (run_batches_rel _ _ _ _ ledger_grows_preserved cfg b cn cid bs (S k) w1 I).
    by left. }
  destruct (run_batches cfg b cn cid (S k) bs w1) as [more w2]. cbn [fst snd] in *.
  split.
  - constructor; [|done]. eapply Forall_impl; [exact H1|]. by intros t [Ht _].
  - intros a [Ha|Ha]%elem_of_app; [|by apply H3].
    rewrite <- Hacts in Ha. apply list_elem_of_fmap in Ha as (t & -> & Ht).
    rewrite Forall_forall in H1. destruct (H1 t Ht) as [_ Hin].
    by eapply completed_grows.
Qed.
End AllSucceed.

(** X22.  When nothing fails, everything left to do gets done: if at least
    one attempt and one tab are configured and every visit of every
    activity that is neither completed nor to be skipped succeeds, then
    [process_activities_parallel] raises nothing, every gathered task
    returns [True], and when it returns the completed list of the course
    holds the url of every such activity, under every schedule of the event
    loop. *)
Theorem all_outstanding_activities_get_completed (cfg : Config) (b : Browser)
    (activities : list Activity) (cn cid : string) (w : World) :
  parallel_tabs cfg ≠ 0 →
  max_retries cfg ≠ 0 →
  (∀ a, a ∈ activities → outstanding a = true → visit_succeeds b a) →
  let '(exn, results, w') := process_activities_parallel cfg b activities cn cid w in
  exn = None
  ∧ Forall (Forall (λ t, t_state t = Returned true)) results
  ∧ ∀ a, a ∈ activities → outstanding a = true →
      a_url a ∈ completed_activities (course_of cid (progress w')).
Proof.
  intros Htabs Hretries Hvis. unfold process_activities_parallel.
  destruct (filter (λ a, outstanding a = true) activities) as [|a0 l] eqn:Hf.
  { split_and!; [done | by constructor |]. intros a Ha Hout.
    assert (a ∈ filter (λ a, outstanding a = true) activities) as Hin
      by (by apply list_elem_of_filter).
    rewrite Hf in Hin. by apply elem_of_nil in Hin. }
  rewrite (proj2 (Nat.eqb_neq _ _) Htabs).
  destruct (run_batches_ok cfg b cn cid Hretries
              (batches (parallel_tabs cfg) (a0 :: l)) 0 w) as [H1 H2].
  { apply Forall_forall. intros batch Hbatch. apply Forall_forall. intros a Ha.
    assert (a ∈ a0 :: l) as Hin.
    { rewrite <- (concat_batches (parallel_tabs cfg) (a0 :: l) Htabs).
      apply list_elem_of_In, in_concat. exists batch.
      split; by apply list_elem_of_In. }
    rewrite <- Hf in Hin. apply list_elem_of_filter in Hin as [Hout Hin]. auto. }
  destruct (run_batches cfg b cn cid 0 _ w) as [results w']. cbn [fst snd] in *.
  split_and!; [done | done |]. intros a Ha Hout. apply H2.
  rewrite (concat_batches _ _ Htabs), <- Hf. by apply list_elem_of_filter.
Qed.

Lemma all_outstanding_activities_get_completed_witness :
  let '(exn, results, w') :=
    process_activities_parallel two_tabs working_browser five_pages "Algebra" "12"
      fresh_world in
  exn = None
  ∧ Forall (Forall (λ t, t_state t = Returned true)) results
  ∧ ∀ a, a ∈ five_pages → outstanding a = true →
      a_url a ∈ completed_activities (course_of "12" (progress w')).
Proof.
  apply (all_outstanding_activities_get_completed two_tabs working_browser five_pages
           "Algebra" "12" fresh_world).
  - discriminate.
  - discriminate.
  - intros a _ _ now. reflexivity.
Defined.

(** * The retry ceiling under the batch scheduler *)

Lemma attempts_made_app (page : nat) (url : string) (t1 t2 : list Event) :
  attempts_made page url (t1 ++ t2) = attempts_made page url t1 + attempts_made page url t2.
Proof. unfold attempts_made. by rewrite filter_app, length_app. Qed.

Lemma attempts_made_visits (page : nat) (url : string) (t : list Event) :
  attempts_made page url t ≤ length (visits t).
Proof.
  unfold attempts_made. induction t as [|e t IH]; [done|].
  change (e :: t) with ([e] ++ t) at 2. rewrite visits_app, length_app, filter_cons.
  destruct (decide (e = Goto page url)) as [->|Hne]; cbn [length].
  - change (visits [Goto page url]) with [url]. cbn [length]. lia.
  - lia.
Qed.

Lemma attempts_made_other_page (page q : nat) (url : string) (t : list Event) :
  Forall (on_page q) t → q ≠ page → attempts_made page url t = 0.
Proof.
  intros Hon Hne. unfold attempts_made. rewrite filter_none; [done|].
  intros e He ->. rewrite Forall_forall in Hon. apply Hon in He. cbn in He. congruence.
Qed.

Lemma attempts_made_no_visit (page : nat) (url : string) (t : list Event) :
  visits t = [] → attempts_made page url t = 0.
Proof. intros H. pose proof (attempts_made_visits page url t). rewrite H in *. cbn in *. lia. Qed.

Section Attempts.
Context (cfg : Config) (b : Browser) (cn cid : string).

Lemma task_step_attempts (page : nat) (a : Activity) (st : TaskState) (w : World) :
  task_wf cfg st →
  ∃ evs, trace (task_step cfg b cn cid page a st w).2 = trace w ++ evs
         ∧ Forall (on_page page) evs
         ∧ task_wf cfg (task_step cfg b cn cid page a st w).1
         ∧ length (visits evs) + visits_left cfg (task_step cfg b cn cid page a st w).1
           ≤ visits_left cfg st.
Proof.
  intros Hwf. destruct st as [|n|n| |r]; cbn [task_step].
  - destruct (is_completed a || should_skip a || (max_retries cfg =? 0)) eqn:Hq.
    + destruct (process_activity_with_retry_quiet cfg b cn cid page a
                  (emit (Start page (a_url a)) w) Hq) as [Htr _].
      destruct (process_activity_with_retry cfg b page a cn cid _) as [r w1].
      cbn [snd fst] in *. exists [Start page (a_url a); Done page r]. split_and!.
      * cbn. rewrite Htr. cbn. by rewrite <- app_assoc.
      * by repeat constructor.
      * done.
      * cbn. lia.
    + apply orb_false_iff in Hq as [_ Hm]. apply Nat.eqb_neq in Hm.
      exists [Start page (a_url a); Goto page (a_url a)]. split_and!.
      * cbn. by rewrite <- app_assoc.
      * by repeat constructor.
      * cbn. lia.
      * cbn. lia.
  - rewrite resume_dispatch_eq. cbn in Hwf.
    destruct (resume_kind_trace b cn cid (kind_of a) (error_prefix a) a w) as [Htr _].
    destruct (resume_kind _ _ b a cn cid w) as [[e|] w1]; cbn [snd] in Htr.
    + destruct (n <? max_retries cfg) eqn:Hn; cbn [fst snd].
      * apply Nat.ltb_lt in Hn. exists [RetrySleep page]. cbn. rewrite Htr.
        split_and!; [done | by repeat constructor | done | lia].
      * exists [Screenshot page (screenshot_name cid a)]. cbn. rewrite Htr.
        split_and!; [done | by repeat constructor | done | lia].
    + exists [Done page true]. cbn. rewrite Htr.
      split_and!; [done | by repeat constructor | done | lia].
  - cbn in Hwf. exists [Goto page (a_url a)]. cbn.
    split_and!; [done | by repeat constructor | lia | lia | lia].
  - exists [Done page false]. cbn. split_and!; [done | by repeat constructor | done | lia].
  - exists []. cbn. rewrite app_nil_r. split_and!; [done | constructor | done | lia].
Qed.

Lemma visits_left_on_insert (page : nat) (tasks : list Task) (i : nat) (t t' : Task) :
  tasks !! i = Some t →
  visits_left_on cfg page (<[i := t']> tasks)
    + (if decide (t_page t = page) then visits_left cfg (t_state t) else 0)
  = visits_left_on cfg page tasks
    + (if decide (t_page t' = page) then visits_left cfg (t_state t') else 0).
Proof.
  unfold visits_left_on.
  set (f := λ t0 : Task,
         if decide (t_page t0 = page) then visits_left cfg (t_state t0) else 0).
  intros Hi.
  change (sum_list_with f (<[i:=t']> tasks) + f t = sum_list_with f tasks + f t').
  clearbody f. revert i Hi. induction tasks as [|x tasks IH]; intros i Hi; [done|].
  destruct i as [|i]; simpl in Hi |- *.
  - injection Hi as ->. lia.
  - specialize (IH i Hi). lia.
Qed.

Lemma step_nth_attempts (page : nat) (url : string) (i : nat) (tasks : list Task)
    (w : World) :
  Forall (λ t, task_wf cfg (t_state t)) tasks →
  ∃ evs,
    trace (step_nth cfg b cn cid i tasks w).2 = trace w ++ evs
    ∧ Forall (λ t, task_wf cfg (t_state t)) (step_nth cfg b cn cid i tasks w).1
    ∧ attempts_made page url evs
        + visits_left_on cfg page (step_nth cfg b cn cid i tasks w).1
      ≤ visits_left_on cfg page tasks.
Proof.
  intros Hwf. unfold step_nth. destruct (tasks !! i) as [t|] eqn:Hi.
  - assert (task_wf cfg (t_state t)) as Ht.
    { rewrite Forall_forall in Hwf. apply Hwf. by eapply list_elem_of_lookup_2. }
    unfold step_task.
    destruct (task_step_attempts (t_page t) (t_activity t) (t_state t) w Ht)
      as (evs & Htr & Hon & Hwf' & Hle).
    destruct (task_step cfg b cn cid _ _ _ w) as [st' w1]. cbn [fst snd] in *.
    exists evs. split_and!; [done | by apply Forall_insert |].
    pose proof (visits_left_on_insert page tasks i t
                  {| t_page := t_page t; t_activity := t_activity t; t_state := st' |} Hi)
      as Hins.
    cbn [t_page t_state] in Hins.
    destruct (decide (t_page t = page)) as [Hp|Hp].
    + pose proof (attempts_made_visits page url evs). lia.
    + rewrite (attempts_made_other_page page (t_page t) url evs Hon Hp). lia.
  - exists []. split_and!; [cbn; by rewrite app_nil_r | done |].
    change (attempts_made page url []) with 0. cbn [fst snd]. lia.
Qed.

Lemma run_schedule_attempts (page : nat) (url : string) (sched : list nat)
    (tasks : list Task) (w : World) :
  Forall (λ t, task_wf cfg (t_state t)) tasks →
  ∃ evs,
    trace (run_schedule cfg b cn cid sched tasks w).2 = trace w ++ evs
    ∧ Forall (λ t, task_wf cfg (t_state t)) (run_schedule cfg b cn cid sched tasks w).1
    ∧ attempts_made page url evs
        + visits_left_on cfg page (run_schedule cfg b cn cid sched tasks w).1
      ≤ visits_left_on cfg page tasks.
Proof.
  revert tasks w. induction sched as [|i sched IH]; intros tasks w Hwf.
  - exists []. split_and!; [cbn; by rewrite app_nil_r | done |].
    change (attempts_made page url []) with 0. cbn [run_schedule fst snd]. lia.
  - cbn [run_schedule].
    destruct (step_nth_attempts page url i tasks w Hwf) as (evs1 & H1 & W1 & L1).
    destruct (step_nth cfg b cn cid i tasks w) as [tasks1 w1]. cbn [fst snd] in *.
    destruct (IH tasks1 w1 W1) as (evs2 & H2 & W2 & L2).
    exists (evs1 ++ evs2). split_and!; [|done|].
    + by rewrite H2, H1, <- app_assoc.
    + rewrite attempts_made_app. lia.
Qed.

Lemma gather_attempts (page : nat) (url : string) (sched : list nat)
    (tasks : list Task) (w : World) :
  Forall (λ t, task_wf cfg (t_state t)) tasks →
  ∃ evs,
    trace (gather cfg b cn cid sched tasks w).2 = trace w ++ evs
    ∧ attempts_made page url evs ≤ visits_left_on cfg page tasks.
Proof.
  intros Hwf. unfold gather, drain.
  destruct (run_schedule_attempts page url sched tasks w Hwf) as (evs1 & H1 & W1 & L1).
  destruct (run_schedule cfg b cn cid sched tasks w) as [tasks1 w1]. cbn [fst snd] in *.
  match goal with |- context [run_schedule cfg b cn cid ?s tasks1 w1] =>
    destruct (run_schedule_attempts page url s tasks1 w1 W1) as (evs2 & H2 & W2 & L2) end.
  exists (evs1 ++ evs2). split.
  - by rewrite H2, H1, <- app_assoc.
  - rewrite attempts_made_app. lia.
Qed.

Lemma visits_left_on_created (page : nat) (tasks : list Task) :
  Forall (λ t, t_state t = Created) tasks →
  NoDup (map t_page tasks) →
  visits_left_on cfg page tasks ≤ max_retries cfg
  ∧ (page ∉ map t_page tasks → visits_left_on cfg page tasks = 0).
Proof.
  unfold visits_left_on. induction 1 as [|t tasks Ht _ IH]; intros Hnd.
  { cbn. split; [lia | done]. }
  cbn [map] in Hnd. apply NoDup_cons in Hnd as [Hnotin Hnd].
  destruct (IH Hnd) as [IH1 IH2]. cbn [sum_list_with map]. rewrite Ht. cbn [visits_left].
  destruct (decide (t_page t = page)) as [<-|Hne].
  - rewrite (IH2 Hnotin). split; [lia|]. intros Hn. exfalso. apply Hn.
    apply elem_of_cons. by left.
  - split; [lia|]. intros Hn. apply IH2. intros Hin. apply Hn. apply elem_of_cons. by right.
Qed.

Lemma run_batch_attempts (page : nat) (url : string) (k : nat) (batch : list Activity)
    (w : World) :
  ∃ seg,
    trace (run_batch cfg b cn cid k batch w).2 = trace w ++ seg
    ∧ next_page (run_batch cfg b cn cid k batch w).2 = next_page w + length batch
    ∧ attempts_made page url seg ≤ max_retries cfg
    ∧ (¬ (next_page w ≤ page < next_page w + length batch) →
       attempts_made page url seg = 0).
Proof.
  destruct (run_batch_events cfg b cn cid k batch w) as (evs0 & _ & _ & Hnp).
  clear evs0. revert Hnp. unfold run_batch.
  destruct (new_pages_spec (length batch) w) as (Hps & Htr1 & Hnp1).
  destruct (new_pages (length batch) w) as [pages w1]. cbn [fst snd] in Hps, Htr1, Hnp1.
  destruct (make_tasks_fields pages batch) as (Hpg & _ & Hcr).
  { by rewrite Hps, length_seq. }
  assert (Forall (λ t, task_wf cfg (t_state t)) (map make_task (zip pages batch))) as Hwf.
  { eapply Forall_impl; [exact Hcr|]. intros t Ht. by rewrite Ht. }
  destruct (visits_left_on_created page (map make_task (zip pages batch)) Hcr) as [Hb1 Hb2].
  { rewrite Hpg, Hps. apply NoDup_seq. }
  match goal with |- context [gather cfg b cn cid ?s ?t w1] =>
    destruct (gather_attempts page url s t w1 Hwf) as (evs & Htr2 & Hle);
    destruct (gather cfg b cn cid s t w1) as [results w2] end.
  cbn [snd] in Htr2. destruct (close_pages_spec pages w2) as [Htr3 _].
  intros Hnp.
  exists (map NewPage pages ++ evs ++ map ClosePage pages ++ [BatchDelay]).
  assert (attempts_made page url
            (map NewPage pages ++ evs ++ map ClosePage pages ++ [BatchDelay])
          = attempts_made page url evs) as Heq.
  { rewrite !attempts_made_app.
    rewrite (attempts_made_no_visit _ _ _ (visits_new_pages pages)).
    rewrite (attempts_made_no_visit _ _ _ (visits_close_pages pages)).
    rewrite (attempts_made_no_visit page url [BatchDelay]) by done. lia. }
  split_and!.
  - cbn [snd trace await]. rewrite Htr3, Htr2, Htr1, <- Hps. by rewrite <- !app_assoc.
  - exact Hnp.
  - rewrite Heq. lia.
  - intros Hout. rewrite Heq. rewrite Hb2 in Hle; [lia|].
    rewrite Hpg, Hps. intros Hin%elem_of_seq. lia.
Qed.

Lemma run_batches_attempts (page : nat) (url : string) (bs : list (list Activity))
    (k : nat) (w : World) :
  ∃ added,
    trace (run_batches cfg b cn cid k bs w).2 = trace w ++ added
    ∧ attempts_made page url added ≤ max_retries cfg
    ∧ (page < next_page w → attempts_made page url added = 0).
Proof.
  revert k w. induction bs as [|batch bs IH]; intros k w.
  - exists []. split_and!; [cbn; by rewrite app_nil_r | |].
    + change (attempts_made page url []) with 0. lia.
    + done.
  - cbn [run_batches].
    destruct (run_batch_attempts page url k batch w) as (seg & Htr & Hnp & Hle & Hzero).
    destruct (run_batch cfg b cn cid k batch w) as [results w1]. cbn [snd] in *.
    destruct (IH (S k) w1) as (added & Htr2 & Hle2 & Hzero2).
    destruct (run_batches cfg b cn cid (S k) bs w1) as [more w2]. cbn [snd] in *.
    exists (seg ++ added). split_and!.
    + by rewrite Htr2, Htr, <- app_assoc.
    + rewrite attempts_made_app.
      destruct (decide (page < next_page w1)) as [Hlt|Hge].
      * rewrite (Hzero2 Hlt). lia.
      * rewrite Hzero by lia. lia.
    + intros Hlt. rewrite attempts_made_app, Hzero, Hzero2 by lia. done.
Qed.
End Attempts.

(** X23.  The retry ceiling holds under the batch scheduler: in the calls
    of [process_activities_parallel], no address is visited on any one tab
    more than [max_retries] times, whatever the visits answer and in
    whatever order the event loop resumes the gathered tasks. *)
Theorem retry_ceiling_in_batches (cfg : Config) (b : Browser)
    (activities : list Activity) (cn cid : string) (w : World) :
  ∃ added,
    trace (process_activities_parallel cfg b activities cn cid w).2 = trace w ++ added
    ∧ ∀ page url, attempts_made page url added ≤ max_retries cfg.
Proof.
  destruct (process_activities_parallel_tabs cfg b activities cn cid w [])
    as (added & Ht & _).
  { intros q Hq. by apply elem_of_nil in Hq. }
  exists added. split; [done|]. intros page url.
  revert Ht. unfold process_activities_parallel.
  destruct (filter _ activities) as [|a l].
  { cbn. intros Ht. rewrite <- (app_nil_r (trace w)) in Ht at 1.
    apply app_inv_head in Ht. subst added. cbn. lia. }
  destruct (parallel_tabs cfg =? 0).
  { cbn. intros Ht. rewrite <- (app_nil_r (trace w)) in Ht at 1.
    apply app_inv_head in Ht. subst added. cbn. lia. }
  destruct (run_batches_attempts cfg b cn cid page url
              (batches (parallel_tabs cfg) (a :: l)) 0 w) as (added' & Ht' & Hle & _).
  destruct (run_batches cfg b cn cid 0 _ w) as [results w1]. cbn [snd] in *.
  intros Ht. rewrite Ht' in Ht. apply app_inv_head in Ht. by subst added.
Qed.

(** * The two login checks *)

(** X24.  The login check of the automation is stricter than the one of
    the test script: on the same page, whenever [check_logged_in] answers
    [True] the test script reports success too; and when the test script
    reports success but [check_logged_in] answers [False], the address of
    the page is outside "lms.miva.university" or it is a "cas/login" or
    "sis.miva.university" address.  A locator that raises makes
    [check_logged_in] answer [False]. *)
Theorem main_login_check_is_stricter (current_url : string) (n m : nat) :
  (check_logged_in current_url (Ok n) (Ok m) = true → test_login_detects n m = true)
  ∧ (test_login_detects n m = true →
     check_logged_in current_url (Ok n) (Ok m) = false →
     contains "lms.miva.university" current_url = false
     ∨ contains "cas/login" current_url = true
     ∨ contains "sis.miva.university" current_url = true)
  ∧ (∀ e r, check_logged_in current_url (Raise e) r = false)
  ∧ (∀ e r, check_logged_in current_url r (Raise e) = false).
Proof.
  unfold check_logged_in, test_login_detects.
  destruct (contains "cas/login" current_url), (contains "sis.miva.university" current_url),
    (contains "lms.miva.university" current_url); cbn [orb];
    (split_and!; [try done; auto | intros Ht Hc; try (rewrite Ht in Hc; discriminate); auto
                 | done | intros e [?|?]; done]).
Qed.

(** * White space *)

(** A white space character at the start of a text is removed, whatever
    its encoding. *)
Lemma lstrip_space (c : N) (s : string) :
  is_space c = true → lstrip (utf8 c +:+ s) = lstrip s.
Proof.
  unfold is_space, whitespace. cbn [existsb]. rewrite !orb_true_iff.
  intros H. repeat destruct H as [H|H]; try discriminate H;
    apply N.eqb_eq in H; subst c; reflexivity.
Qed.

Lemma N_of_ascii_of_N (n : N) : (n < 256)%N → N_of_ascii (ascii_of_N n) = n.
Proof. apply N_ascii_embedding. Qed.

Lemma lstrip_String (a : ascii) (s1 : string) :
  lstrip (String a s1) =
  if is_space_char (char_1 a) then lstrip s1
  else
    match s1 with
    | EmptyString => String a s1
    | String b s2 =>
        if is_space_char (char_2 a b) then lstrip s2
        else
          match s2 with
          | EmptyString => String a s1
          | String c s3 => if is_space_char (char_3 a b c) then lstrip s3 else String a s1
          end
    end.
Proof. reflexivity. Qed.

(** Any other character at the start of a text stays, and the text with
    it. *)
Lemma lstrip_other (c : N) (s : string) :
  (c < 1114112)%N → is_space c = false → lstrip (utf8 c +:+ s) = utf8 c +:+ s.
Proof.
  intros Hc Hsp. unfold utf8.
  destruct (N.ltb_spec c 128) as [H1|H1].
  { change (String (ascii_of_N c) "" +:+ s) with (String (ascii_of_N c) s).
    rewrite lstrip_String. unfold char_1, char_2, char_3.
    rewrite N_of_ascii_of_N by lia.
    rewrite (proj2 (N.ltb_lt _ _) H1). cbn [is_space_char]. rewrite Hsp.
    assert ((194 <=? c)%N = false) as -> by (apply N.leb_gt; lia).
    assert ((224 <=? c)%N = false) as -> by (apply N.leb_gt; lia).
    cbn [andb is_space_char]. destruct s as [|b [|b' s]]; reflexivity. }
  destruct (N.ltb_spec c 2048) as [H2|H2].
  { assert (c mod 64 < 64)%N as Hr by (apply N.mod_lt; discriminate).
    pose proof (N.div_mod c 64 ltac:(discriminate)) as Hdm.
    set (q := (c / 64)%N) in *. set (r := (c mod 64)%N) in *. clearbody q r.
    change (String (ascii_of_N (192 + q)) (String (ascii_of_N (128 + r)) "") +:+ s)
      with (String (ascii_of_N (192 + q)) (String (ascii_of_N (128 + r)) s)).
    rewrite lstrip_String. cbv beta match. unfold char_1, char_2, char_3, continuation.
    rewrite !N_of_ascii_of_N by lia.
    assert ((192 + q <? 128)%N = false) as -> by (apply N.ltb_ge; lia).
    assert ((194 <=? 192 + q)%N = true) as -> by (apply N.leb_le; lia).
    assert ((192 + q <=? 223)%N = true) as -> by (apply N.leb_le; lia).
    assert ((128 <=? 128 + r)%N = true) as -> by (apply N.leb_le; lia).
    assert ((128 + r <=? 191)%N = true) as -> by (apply N.leb_le; lia).
    assert ((224 <=? 192 + q)%N = false) as -> by (apply N.leb_gt; lia).
    cbn [andb is_space_char].
    replace ((192 + q - 192) * 64 + (128 + r - 128))%N with c by lia.
    rewrite Hsp. destruct s; reflexivity. }
  destruct (N.ltb_spec c 65536) as [H3|H3].
  { assert (c mod 64 < 64)%N as Hr by (apply N.mod_lt; discriminate).
    assert ((c / 64) mod 64 < 64)%N as Hr1 by (apply N.mod_lt; discriminate).
    pose proof (N.div_mod c 64 ltac:(discriminate)) as Hdm.
    pose proof (N.div_mod (c / 64) 64 ltac:(discriminate)) as Hdm1.
    replace (c / 64 / 64)%N with (c / 4096)%N in Hdm1
      by (rewrite N.Div0.div_div; reflexivity).
    set (q2 := (c / 4096)%N) in *. set (r1 := ((c / 64) mod 64)%N) in *.
    set (q1 := (c / 64)%N) in *. set (r := (c mod 64)%N) in *. clearbody q2 r1 q1 r.
    change (String (ascii_of_N (224 + q2))
              (String (ascii_of_N (128 + r1)) (String (ascii_of_N (128 + r)) "")) +:+ s)
      with (String (ascii_of_N (224 + q2))
              (String (ascii_of_N (128 + r1)) (String (ascii_of_N (128 + r)) s))).
    rewrite lstrip_String. cbv beta match. unfold char_1, char_2, char_3, continuation.
    rewrite !N_of_ascii_of_N by lia.
    assert ((224 + q2 <? 128)%N = false) as -> by (apply N.ltb_ge; lia).
    assert ((224 + q2 <=? 223)%N = false) as -> by (apply N.leb_gt; lia).
    assert ((224 <=? 224 + q2)%N = true) as -> by (apply N.leb_le; lia).
    assert ((224 + q2 <=? 239)%N = true) as -> by (apply N.leb_le; lia).
    assert ((128 <=? 128 + r1)%N = true) as -> by (apply N.leb_le; lia).
    assert ((128 + r1 <=? 191)%N = true) as -> by (apply N.leb_le; lia).
    assert ((128 <=? 128 + r)%N = true) as -> by (apply N.leb_le; lia).
    assert ((128 + r <=? 191)%N = true) as -> by (apply N.leb_le; lia).
    rewrite !andb_false_r. cbn [andb is_space_char].
    replace ((224 + q2 - 224) * 4096 + (128 + r1 - 128) * 64 + (128 + r - 128))%N with c
      by lia.
    rewrite (proj2 (N.leb_le _ _) H2). cbn [is_space_char]. rewrite Hsp. reflexivity. }
  assert (c / 262144 < 5)%N as Hq by (apply N.Div0.div_lt_upper_bound;
      eapply N.lt_trans; [exact Hc | reflexivity]).
  set (q := (c / 262144)%N) in *. clearbody q.
  match goal with |- lstrip (String _ (String ?x (String ?y (String ?z ""))) +:+ s) = _ =>
    generalize x y z; intros b d e end.
  change (String (ascii_of_N (240 + q)) (String b (String d (String e ""))) +:+ s)
    with (String (ascii_of_N (240 + q)) (String b (String d (String e s)))).
  rewrite lstrip_String. cbv beta match. unfold char_1, char_2, char_3.
  rewrite !N_of_ascii_of_N by lia.
  assert ((240 + q <? 128)%N = false) as -> by (apply N.ltb_ge; lia).
  assert ((240 + q <=? 223)%N = false) as -> by (apply N.leb_gt; lia).
  assert ((240 + q <=? 239)%N = false) as -> by (apply N.leb_gt; lia).
  rewrite !andb_false_r. reflexivity.
Qed.

Lemma utf8_nonempty (c : N) (s : string) : utf8 c +:+ s ≠ "".
Proof. unfold utf8. by repeat destruct (_ <? _)%N. Qed.

Lemma lstrip_encode (l : list N) :
  Forall (λ c, (c < 1114112)%N) l → lstrip (encode l) = encode (lstrip_points l).
Proof.
  induction 1 as [|c l Hc _ IH]; [done|]. cbn [encode foldr lstrip_points].
  destruct (is_space c) eqn:Hsp.
  - by rewrite lstrip_space.
  - by rewrite lstrip_other.
Qed.

Lemma lstrip_points_nil (l : list N) :
  lstrip_points l = [] ↔ forallb is_space l = true.
Proof.
  induction l as [|c l IH]; [done|]. cbn [lstrip_points forallb].
  destruct (is_space c); [exact IH|]. split; intros H; discriminate H.
Qed.

Lemma rstrip_points_nil (l : list N) :
  rstrip_points l = [] ↔ forallb is_space l = true.
Proof.
  induction l as [|c l IH]; [done|]. cbn [rstrip_points forallb].
  destruct (rstrip_points l) as [|x r].
  - destruct (is_space c); cbn [andb]; [|split; intros H; discriminate H].
    split; [intros _; by apply IH | done].
  - split; [done|]. intros [_ H]%andb_true_iff. apply IH in H. discriminate H.
Qed.

Lemma lstrip_continuation (b : ascii) (t : string) :
  continuation b = true → lstrip (String b t) = String b t.
Proof.
  unfold continuation. intros [H1 H2]%andb_true_iff.
  apply N.leb_le in H1, H2.
  rewrite lstrip_String. unfold char_1, char_2, char_3.
  assert ((N_of_ascii b <? 128)%N = false) as -> by (apply N.ltb_ge; lia).
  assert ((194 <=? N_of_ascii b)%N = false) as -> by (apply N.leb_gt; lia).
  assert ((224 <=? N_of_ascii b)%N = false) as -> by (apply N.leb_gt; lia).
  cbn [andb is_space_char]. by destruct t as [|? [|? ?]].
Qed.

Lemma rstrip_String (a : ascii) (s : string) :
  rstrip (String a s) =
  match lstrip (String a s) with
  | EmptyString => EmptyString
  | _ => String a (rstrip s)
  end.
Proof. reflexivity. Qed.

Lemma rstrip_continuation (b : ascii) (t : string) :
  continuation b = true → rstrip (String b t) = String b (rstrip t).
Proof. intros H. by rewrite rstrip_String, (lstrip_continuation b t H). Qed.

Lemma continuation_byte (r : N) : (r < 64)%N → continuation (ascii_of_N (128 + r)) = true.
Proof.
  intros Hr. unfold continuation. rewrite N_of_ascii_of_N by lia.
  apply andb_true_iff. split; apply N.leb_le; lia.
Qed.

(** From the right, a character goes when it and all that follows is
    white space, and stays whole otherwise. *)
Lemma rstrip_utf8 (c : N) (t : string) :
  rstrip (utf8 c +:+ t) =
  match lstrip (utf8 c +:+ t) with
  | EmptyString => EmptyString
  | _ => utf8 c +:+ rstrip t
  end.
Proof.
  assert (Hm : ∀ x, (x mod 64 < 64)%N) by (intros x; apply N.mod_lt; discriminate).
  unfold utf8. repeat destruct (_ <? _)%N.
  - reflexivity.
  - change (String ?a (String ?b "") +:+ ?u) with (String a (String b u)).
    rewrite rstrip_String. destruct (lstrip _); [done|].
    by rewrite rstrip_continuation by (apply continuation_byte, Hm).
  - change (String ?a (String ?b (String ?d "")) +:+ ?u) with (String a (String b (String d u))).
    rewrite rstrip_String. destruct (lstrip _); [done|].
    by rewrite !rstrip_continuation by (apply continuation_byte, Hm).
  - change (String ?a (String ?b (String ?d (String ?e ""))) +:+ ?u)
      with (String a (String b (String d (String e u)))).
    rewrite rstrip_String. destruct (lstrip _); [done|].
    by rewrite !rstrip_continuation by (apply continuation_byte, Hm).
Qed.

Lemma encode_nil (l : list N) : encode l = "" → l = [].
Proof.
  destruct l as [|c l]; [done|]. change (encode (c :: l)) with (utf8 c +:+ encode l).
  intros H. by apply utf8_nonempty in H.
Qed.

Lemma rstrip_encode (l : list N) :
  Forall (λ c, (c < 1114112)%N) l → rstrip (encode l) = encode (rstrip_points l).
Proof.
  induction 1 as [|c l Hc Hl IH]; [done|].
  change (encode (c :: l)) with (utf8 c +:+ encode l). rewrite rstrip_utf8, IH.
  change (utf8 c +:+ encode l) with (encode (c :: l)).
  rewrite (lstrip_encode (c :: l)) by by constructor.
  cbn [rstrip_points lstrip_points].
  destruct (is_space c) eqn:Hsp.
  - destruct (rstrip_points l) as [|x r] eqn:Hr.
    + apply rstrip_points_nil, lstrip_points_nil in Hr. by rewrite Hr.
    + destruct (encode (lstrip_points l)) eqn:He; [|done].
      apply encode_nil, lstrip_points_nil, rstrip_points_nil in He. congruence.
  - change (encode (c :: l)) with (utf8 c +:+ encode l).
    destruct (utf8 c +:+ encode l) eqn:He; [by apply utf8_nonempty in He|].
    destruct (rstrip_points l); reflexivity.
Qed.

(** The model of [strip] on the encoding of a text is [str.strip] on its
    characters. *)
Theorem strip_encode (l : list N) :
  Forall (λ c, (c < 1114112)%N) l → strip (encode l) = encode (strip_points l).
Proof.
  intros Hl. unfold strip, strip_points. rewrite (lstrip_encode l Hl).
  apply rstrip_encode. clear -Hl. induction Hl as [|c l Hc Hl IH]; [constructor|].
  cbn [lstrip_points]. destruct (is_space c); [done | by constructor].
Qed.

(** The name of a link whose text is "Café" between a no-break space and
    an em space followed by a next-line character. *)
Example strip_unicode_spaces :
  strip (utf8 160 +:+ "Caf" +:+ utf8 233 +:+ utf8 8195 +:+ utf8 133) = "Caf" +:+ utf8 233
  ∧ strip (utf8 160 +:+ utf8 8195) = ""
  ∧ strip (" a" +:+ utf8 12288 +:+ "b" +:+ utf8 5760 +:+ " ") = "a" +:+ utf8 12288 +:+ "b".
Proof. vm_compute. split_and!; reflexivity. Qed.
